(** * 2D batching and sprite-mask stencil coordination

    A shallow embedding of the render-pipeline classes
    [SpriteMaskManager], [SpriteMaskBatcher] and [SpriteBatcher]
    (packages/core/src/RenderPipeline) and of the [ModelMesh] data buffer
    exercised by the ModelMesh test-suite, together with the properties of
    the specification that concern them; followed by the pointer event
    emitter for physics colliders, the text layout of [TextUtils] and the
    index buffers of [PrimitiveMesh], with properties read off their
    code. *)

From Stdlib Require Import ZArith Lia.
From Stdlib Require QArith.
From stdpp Require Import base decidable option list functions strings gmap.

Local Open Scope Z_scope.

(** ** JavaScript numbers used as bit sets

    Mask layers are JS numbers holding integers.  The bitwise operators
    first convert their operands with [ToInt32] (wrap-around modulo 2^32
    into the signed range) and yield a signed 32-bit result. *)
Module JS.

Definition ToInt32 (x : Z) : Z := (x + 2 ^ 31) `mod` 2 ^ 32 - 2 ^ 31.

(** [a & b] *)
Definition band (a b : Z) : Z := Z.land (ToInt32 a) (ToInt32 b).

(** [~a] *)
Definition bnot (a : Z) : Z := Z.lnot (ToInt32 a).

(** A number used as a condition: every value but zero is truthy. *)
Definition truthy (x : Z) : bool := negb (x =? 0).

(** [arr[i] = v] on an array: in range it overwrites, at the end it
    appends, beyond the end it leaves holes ([None]) in between. *)
Definition array_set {A} (arr : list (option A)) (i : nat) (v : A)
  : list (option A) :=
  if decide (i < length arr)%nat
  then <[i := Some v]> arr
  else arr ++ replicate (i - length arr) None ++ [Some v].

End JS.

(** ** Shader state enumerations (declared in ../shader) *)

Module CompareFunction.
Inductive t :=
  Never | Less | Equal | LessEqual | Greater | NotEqual | GreaterEqual
| Always.
#[global] Instance eq_dec : EqDecision t.
Proof. solve_decision. Defined.
End CompareFunction.

Module StencilOperation.
Inductive t :=
  Keep | Zero | Replace | IncrementSaturate | DecrementSaturate | Invert
| IncrementWrap | DecrementWrap.
#[global] Instance eq_dec : EqDecision t.
Proof. solve_decision. Defined.
End StencilOperation.

Module SpriteMaskInteraction.
Inductive t := None | VisibleInsideMask | VisibleOutsideMask.
#[global] Instance eq_dec : EqDecision t.
Proof. solve_decision. Defined.
End SpriteMaskInteraction.

(** The stencil fields the pipeline reads or writes. *)
Record StencilState := mkStencilState {
  enabled : bool;
  referenceValue : Z;
  mask : Z;
  writeMask : Z;
  compareFunctionFront : CompareFunction.t;
  compareFunctionBack : CompareFunction.t;
  passOperationFront : StencilOperation.t;
  passOperationBack : StencilOperation.t
}.

#[global] Instance StencilState_eq_dec : EqDecision StencilState.
Proof. solve_decision. Defined.

(** ** Objects of the scene

    Objects that the pipeline shares by reference (materials, cameras,
    textures) are named by an identifier; materials, whose stencil state
    is mutated in place, live in a store indexed by that identifier. *)

Abbreviation MaterialId := nat (only parsing).
Abbreviation CameraId := nat (only parsing).
Abbreviation TextureId := nat (only parsing).

Inductive ShaderProperty :=
| u_spriteTexture          (* SpriteBatcher._textureProperty *)
| u_maskTexture            (* SpriteMask.textureProperty *)
| u_maskAlphaCutoff.       (* SpriteMask.alphaCutoffProperty *)

#[global] Instance ShaderProperty_eq_dec : EqDecision ShaderProperty.
Proof. solve_decision. Defined.

(** [shaderData.getTexture(property)] *)
Definition ShaderData := ShaderProperty -> option TextureId.

(** A shader, with the outcome of [_getShaderProgram(engine, macros)] for
    the cleared macro collection the batchers pass. *)
Record Shader := mkShader {
  name : string;
  program_isValid : bool
}.

Record RenderState := mkRenderState { stencilState : StencilState }.

Record Material := mkMaterial {
  shader : Shader;
  renderState : RenderState;
  shaderData : ShaderData
}.

Abbreviation Store := (MaterialId -> Material) (only parsing).

(** IEEE-754 bit pattern of a coordinate: coordinates are only moved
    around, never computed on. *)
Definition float := Z.
Definition Vector3 := (float * float * float)%type.
Definition Vector2 := (float * float)%type.

Module SpriteMask.
Record t := mk {
  instanceId : nat;
  influenceLayers : Z;
  material : MaterialId;
  (* geometry of the precomputed mask element *)
  positions : list Vector3;
  uv : list Vector2
}.
#[global] Instance eq_dec : EqDecision t.
Proof. solve_decision. Defined.
End SpriteMask.

Module SpriteMaskElement.
Record t := mk {
  component : SpriteMask.t;
  positions : list Vector3;
  uv : list Vector2;
  material : MaterialId;
  isAdd : bool;
  camera : CameraId
}.
#[global] Instance eq_dec : EqDecision t.
Proof. solve_decision. Defined.
End SpriteMaskElement.

(** [mask._maskElement]: the element a mask keeps for its own geometry. *)
Definition _maskElement (m : SpriteMask.t) : SpriteMaskElement.t :=
  {| SpriteMaskElement.component := m;
     SpriteMaskElement.positions := SpriteMask.positions m;
     SpriteMaskElement.uv := SpriteMask.uv m;
     SpriteMaskElement.material := SpriteMask.material m;
     SpriteMaskElement.isAdd := false;
     SpriteMaskElement.camera := 0%nat |}.

(** SpriteRenderer | TextRenderer, as far as masking and batching read it. *)
Module SpriteRenderer.
Record t := mk {
  instanceId : nat;
  maskInteraction : SpriteMaskInteraction.t;
  maskLayer : Z;
  getMaterial : MaterialId;
  shaderData : ShaderData
}.
End SpriteRenderer.

(** ** SpriteMaskManager

    The manager talks to its batcher ([_batcher], a [SpriteMaskBatcher])
    through three methods.  A method of the manager yields, next to its
    writes, the sequence of calls it makes on the batcher. *)

Inductive BatcherCall :=
| Clear
| DrawElement (element : SpriteMaskElement.t) (camera : CameraId)
              (op : StencilOperation.t)
| UploadAndDraw (camera : CameraId).

#[global] Instance BatcherCall_eq_dec : EqDecision BatcherCall.
Proof. solve_decision. Defined.

Module SpriteMaskManager.

Record t := mk {
  _tempStencilState : StencilState;       (* private static *)
  _allSpriteMasks : list SpriteMask.t;    (* DisorderedArray, in order *)
  _preMaskLayer : Z
}.

Definition addMask (m : SpriteMask.t) (this : t) : t :=
  {| _tempStencilState := _tempStencilState this;
     _allSpriteMasks := _allSpriteMasks this ++ [m];
     _preMaskLayer := _preMaskLayer this |}.

Definition clear (this : t) : t * list BatcherCall :=
  ({| _tempStencilState := _tempStencilState this;
      _allSpriteMasks := [];
      _preMaskLayer := 0 |},
   [Clear]).

(** [_copyStencilState(src, dst)]: five fields are copied, the rest of
    [dst] stays. *)
Definition _copyStencilState (src dst : StencilState) : StencilState :=
  {| enabled := enabled src;
     referenceValue := referenceValue src;
     mask := mask dst;
     writeMask := writeMask src;
     compareFunctionFront := compareFunctionFront src;
     compareFunctionBack := compareFunctionBack src;
     passOperationFront := passOperationFront dst;
     passOperationBack := passOperationBack dst |}.

(** The body of the loop of [_processMasksDiff] over the registered
    masks, with its two [continue]s. *)
Fixpoint masks_loop (commonLayer addLayer reduceLayer : Z)
    (camera : CameraId) (masks : list SpriteMask.t) : list BatcherCall :=
  match masks with
  | [] => []
  | mask :: rest =>
      let influenceLayers := SpriteMask.influenceLayers mask in
      if JS.truthy (JS.band influenceLayers commonLayer) then
        masks_loop commonLayer addLayer reduceLayer camera rest
      else if JS.truthy (JS.band influenceLayers addLayer) then
        DrawElement (_maskElement mask) camera
                    StencilOperation.IncrementSaturate
        :: masks_loop commonLayer addLayer reduceLayer camera rest
      else if JS.truthy (JS.band influenceLayers reduceLayer) then
        DrawElement (_maskElement mask) camera
                    StencilOperation.DecrementSaturate
        :: masks_loop commonLayer addLayer reduceLayer camera rest
      else
        masks_loop commonLayer addLayer reduceLayer camera rest
  end.

Definition _processMasksDiff (this : t) (camera : CameraId)
    (renderer : SpriteRenderer.t) : list BatcherCall :=
  let preMaskLayer := _preMaskLayer this in
  let curMaskLayer := SpriteRenderer.maskLayer renderer in
  if negb (preMaskLayer =? curMaskLayer) then
    let commonLayer := JS.band preMaskLayer curMaskLayer in
    let addLayer := JS.band curMaskLayer (JS.bnot preMaskLayer) in
    let reduceLayer := JS.band preMaskLayer (JS.bnot curMaskLayer) in
    masks_loop commonLayer addLayer reduceLayer camera
               (_allSpriteMasks this)
  else [].

(** The stencil state [preRender] forces on the renderer's material. *)
Definition forced (interaction : SpriteMaskInteraction.t)
    (s : StencilState) : StencilState :=
  let cmp :=
    if decide (interaction = SpriteMaskInteraction.VisibleInsideMask)
    then CompareFunction.LessEqual else CompareFunction.Greater in
  {| enabled := true;
     referenceValue := 1;
     mask := mask s;
     writeMask := 0;
     compareFunctionFront := cmp;
     compareFunctionBack := cmp;
     passOperationFront := passOperationFront s;
     passOperationBack := passOperationBack s |}.

Definition set_stencilState (m : Material) (s : StencilState) : Material :=
  {| shader := shader m;
     renderState := {| stencilState := s |};
     shaderData := shaderData m |}.

Definition preRender (camera : CameraId) (renderer : SpriteRenderer.t)
    (this : t) (materials : Store) : t * Store * list BatcherCall :=
  let maskInteraction := SpriteRenderer.maskInteraction renderer in
  if decide (maskInteraction = SpriteMaskInteraction.None) then
    (this, materials, [])
  else
    let mat := SpriteRenderer.getMaterial renderer in
    let stencil := stencilState (renderState (materials mat)) in
    let this' :=
      {| _tempStencilState :=
           _copyStencilState stencil (_tempStencilState this);
         _allSpriteMasks := _allSpriteMasks this;
         _preMaskLayer := _preMaskLayer this |} in
    let materials' :=
      <[mat := set_stencilState (materials mat)
                 (forced maskInteraction stencil)]> materials in
    (this', materials',
     [Clear] ++ _processMasksDiff this' camera renderer
             ++ [UploadAndDraw camera]).

Definition postRender (renderer : SpriteRenderer.t)
    (this : t) (materials : Store) : t * Store :=
  if decide (SpriteRenderer.maskInteraction renderer
             = SpriteMaskInteraction.None) then
    (this, materials)
  else
    let mat := SpriteRenderer.getMaterial renderer in
    ({| _tempStencilState := _tempStencilState this;
        _allSpriteMasks := _allSpriteMasks this;
        _preMaskLayer := SpriteRenderer.maskLayer renderer |},
     <[mat := set_stencilState (materials mat)
                (_copyStencilState (_tempStencilState this)
                   (stencilState (renderState (materials mat))))]>
       materials).

End SpriteMaskManager.

(** ** What reaches the GPU

    A sub-mesh is a contiguous slice of the shared vertex buffer; it is
    represented by the elements whose vertices the slice covers.  A draw
    records the slice, the material bound and the render state applied
    right before [drawPrimitive]. *)

Module SpriteElement.
Record t := mk {
  component : SpriteRenderer.t;
  positions : list Vector3;
  uv : list Vector2;
  color : float * float * float * float;
  material : MaterialId;
  camera : CameraId
}.
End SpriteElement.

Inductive GpuEvent :=
| DrawMasks (subMesh : list SpriteMaskElement.t) (material : MaterialId)
            (applied : RenderState)
| DrawSprites (subMesh : list SpriteElement.t) (material : MaterialId)
              (applied : RenderState).

Record RenderWorld := mkRenderWorld {
  materials : Store;
  gpu : list GpuEvent
}.

(** ** Basic2DBatcher *)

Module Basic2DBatcher.
Section Batcher.
Context {E W : Type}.

(** [Basic2DBatcher.MAX_VERTEX_COUNT] *)
Variable MAX_VERTEX_COUNT : Z.
(** [element.positions.length] *)
Variable verticesNum : E -> Z.
(** The hooks a concrete batcher supplies. *)
Variable _canBatch : W -> E -> E -> bool.
Variable _drawBatches : list (list E) -> list (option E) -> W -> W.

(** The fields of a batcher that [SpriteBatcher] and [SpriteMaskBatcher]
    read and write. *)
Record t := mk {
  _batchedQueue : list (option E);
  _vertexCount : Z;
  _elementCount : nat;
  _flushId : nat
}.

(** Modelled from the spec: the walk of [flush] over the queue, absent
    from the sources.  Elements are visited in submission order; each
    is compared with its predecessor only; a pair that batches extends
    the chunk under construction, a mismatch closes it. *)
Fixpoint group (w : W) (acc : list E) (pre : E) (rest : list E)
  : list (list E) :=
  match rest with
  | [] => [acc ++ [pre]]
  | cur :: rest' =>
      if _canBatch w pre cur then group w (acc ++ [pre]) cur rest'
      else (acc ++ [pre]) :: group w [] cur rest'
  end.

(** Modelled from the spec: the chunks of a queue, in submission
    order. *)
Definition chunks (w : W) (queue : list E) : list (list E) :=
  match queue with
  | [] => []
  | first :: rest => group w [] first rest
  end.

(** Modelled from the spec: the part of [flush] that packs the queue,
    absent from the sources.  It yields one sub-mesh per chunk and
    records the representative of chunk [i] at index [i] of the queue,
    where [_drawBatches] reads it; the representative is the element
    that closed the chunk.  Holes of the queue carry no geometry. *)
Definition _updateData (w : W) (queue : list (option E))
  : list (list E) * list (option E) :=
  let subMeshes := chunks w (omap id queue) in
  (subMeshes, (last <$> subMeshes) ++ drop (length subMeshes) queue).

(** Modelled from the spec: [flush], absent from the sources.  A no-op
    on an empty queue; otherwise pack, draw one call per chunk, clear
    the queue and the accumulator and move on to the next buffer. *)
Definition flush (s : t * W) : t * W :=
  let (this, w) := s in
  if decide (length (_batchedQueue this) = 0%nat) then s
  else
    let (subMeshes, queue) := _updateData w (_batchedQueue this) in
    ({| _batchedQueue := [];
        _vertexCount := 0;
        _elementCount := 0;
        _flushId := S (_flushId this) |},
     _drawBatches subMeshes queue w).

(** Modelled from the spec: [clear], absent from the sources. *)
Definition clear (this : t) : t :=
  {| _batchedQueue := [];
     _vertexCount := 0;
     _elementCount := 0;
     _flushId := 0 |}.

(** Appending at [_elementCount], as every [draw] method does. *)
Definition push (element : E) (this : t) : t :=
  {| _batchedQueue :=
       JS.array_set (_batchedQueue this) (_elementCount this) element;
     _vertexCount := _vertexCount this + verticesNum element;
     _elementCount := S (_elementCount this);
     _flushId := _flushId this |}.

(** Modelled from the spec: [draw(element)], absent from the sources:
    flush first when the element would exceed the budget, then
    append. *)
Definition draw (element : E) (s : t * W) : t * W :=
  let (this, w) :=
    if _vertexCount (fst s) + verticesNum element >? MAX_VERTEX_COUNT
    then flush s else s in
  (push element this, w).

(** The state the batcher is created in. *)
Definition empty : t :=
  {| _batchedQueue := []; _vertexCount := 0; _elementCount := 0;
     _flushId := 0 |}.

(** The queue holds exactly [_elementCount] elements, without holes, and
    the accumulator is the sum of their vertex counts. *)
Definition wf (this : t) : Prop :=
  exists elements : list E,
    _batchedQueue this = Some <$> elements
    /\ _elementCount this = length elements
    /\ _vertexCount this = foldr Z.add 0 (verticesNum <$> elements).

End Batcher.
#[global] Arguments t : clear implicits.
End Basic2DBatcher.

(** ** SpriteMaskBatcher *)

Module SpriteMaskBatcher.

Definition getTexture (w : RenderWorld) (m : MaterialId)
    (p : ShaderProperty) : option TextureId :=
  shaderData (materials w m) p.

Definition _canBatch (w : RenderWorld)
    (preElement curElement : SpriteMaskElement.t) : bool :=
  if negb (eqb (SpriteMaskElement.isAdd preElement)
              (SpriteMaskElement.isAdd curElement)) then false
  else
    let preMask := SpriteMaskElement.component preElement in
    let curMask := SpriteMaskElement.component curElement in
    let preShaderData := getTexture w (SpriteMask.material preMask) in
    let curShaderData := getTexture w (SpriteMask.material curMask) in
    if decide (preShaderData u_maskTexture = curShaderData u_maskTexture
               /\ preShaderData u_maskAlphaCutoff
                  = curShaderData u_maskAlphaCutoff)
    then true else false.

Definition set_passOperation (op : StencilOperation.t) (m : Material)
  : Material :=
  let s := stencilState (renderState m) in
  SpriteMaskManager.set_stencilState m
    {| enabled := enabled s;
       referenceValue := referenceValue s;
       mask := mask s;
       writeMask := writeMask s;
       compareFunctionFront := compareFunctionFront s;
       compareFunctionBack := compareFunctionBack s;
       passOperationFront := op;
       passOperationBack := op |}.

(** The loop of [_drawBatches], from index [i] on; [subMeshes] are the
    sub-meshes not yet visited.  Both early [return]s leave the loop. *)
Fixpoint _drawBatches_from (i : nat)
    (subMeshes : list (list SpriteMaskElement.t))
    (batchedQueue : list (option SpriteMaskElement.t))
    (w : RenderWorld) : RenderWorld :=
  match subMeshes with
  | [] => w
  | subMesh :: rest =>
      match mjoin (batchedQueue !! i) with
      | None => w
      | Some spriteMaskElement =>
          let material := SpriteMaskElement.material spriteMaskElement in
          let op :=
            if SpriteMaskElement.isAdd spriteMaskElement
            then StencilOperation.IncrementSaturate
            else StencilOperation.DecrementSaturate in
          let store :=
            <[material := set_passOperation op (materials w material)]>
              (materials w) in
          if negb (program_isValid (shader (store material))) then
            {| materials := store; gpu := gpu w |}
          else
            _drawBatches_from (S i) rest batchedQueue
              {| materials := store;
                 gpu := gpu w ++ [DrawMasks subMesh material
                                    (renderState (store material))] |}
      end
  end.

Definition _drawBatches := _drawBatches_from 0.

Definition verticesNum (e : SpriteMaskElement.t) : Z :=
  Z.of_nat (length (SpriteMaskElement.positions e)).

Definition state := (Basic2DBatcher.t SpriteMaskElement.t * RenderWorld)%type.

(** The element as [drawElement] queues it. *)
Definition submitted (element : SpriteMaskElement.t) (camera : CameraId)
    (op : StencilOperation.t) : SpriteMaskElement.t :=
  {| SpriteMaskElement.component := SpriteMaskElement.component element;
     SpriteMaskElement.positions := SpriteMaskElement.positions element;
     SpriteMaskElement.uv := SpriteMaskElement.uv element;
     SpriteMaskElement.material := SpriteMaskElement.material element;
     SpriteMaskElement.isAdd :=
       bool_decide (op = StencilOperation.IncrementSaturate);
     SpriteMaskElement.camera := camera |}.

Section Calls.
(** The vertex budget the mask batcher is constructed with. *)
Variable maxVertexCount : Z.

Definition uploadAndDraw (camera : CameraId) (s : state) : state :=
  Basic2DBatcher.flush _canBatch _drawBatches s.

(** Modelled from the spec: [drawElement(element, camera, op)], absent
    from the sources: the element is submitted for [camera] with the
    stencil operation [op], which [_drawBatches] reads back from
    [isAdd]. *)
Definition drawElement (element : SpriteMaskElement.t)
    (camera : CameraId) (op : StencilOperation.t) (s : state) : state :=
  Basic2DBatcher.draw maxVertexCount verticesNum _canBatch _drawBatches
    (submitted element camera op) s.

Definition call (c : BatcherCall) (s : state) : state :=
  match c with
  | Clear => (Basic2DBatcher.clear (fst s), snd s)
  | DrawElement element camera op => drawElement element camera op s
  | UploadAndDraw camera => uploadAndDraw camera s
  end.

(** The calls of a manager method, performed in order. *)
Definition perform (calls : list BatcherCall) (s : state) : state :=
  foldl (fun s c => call c s) s calls.
End Calls.

End SpriteMaskBatcher.

(** ** The mask pass as the sprite batcher sees it

    The manager, its batcher and the render world together; a manager
    method runs, then its batcher calls are performed. *)

Record Pipeline := mkPipeline {
  maskManager : SpriteMaskManager.t;
  maskBatcher : Basic2DBatcher.t SpriteMaskElement.t;
  world : RenderWorld
}.

Module MaskPass.
Section MaskPass.
Variable maxVertexCount : Z.

Definition preRender (camera : CameraId) (renderer : SpriteRenderer.t)
    (p : Pipeline) : Pipeline :=
  let '(manager, store, calls) :=
    SpriteMaskManager.preRender camera renderer (maskManager p)
      (materials (world p)) in
  let (batcher, w) :=
    SpriteMaskBatcher.perform maxVertexCount calls
      (maskBatcher p, {| materials := store; gpu := gpu (world p) |}) in
  {| maskManager := manager; maskBatcher := batcher; world := w |}.

Definition postRender (renderer : SpriteRenderer.t) (p : Pipeline)
  : Pipeline :=
  let (manager, store) :=
    SpriteMaskManager.postRender renderer (maskManager p)
      (materials (world p)) in
  {| maskManager := manager;
     maskBatcher := maskBatcher p;
     world := {| materials := store; gpu := gpu (world p) |} |}.

Definition clear (p : Pipeline) : Pipeline :=
  let (manager, calls) := SpriteMaskManager.clear (maskManager p) in
  let (batcher, w) :=
    SpriteMaskBatcher.perform maxVertexCount calls
      (maskBatcher p, world p) in
  {| maskManager := manager; maskBatcher := batcher; world := w |}.

Definition addMask (m : SpriteMask.t) (p : Pipeline) : Pipeline :=
  {| maskManager := SpriteMaskManager.addMask m (maskManager p);
     maskBatcher := maskBatcher p;
     world := world p |}.
End MaskPass.
End MaskPass.

(** ** SpriteBatcher *)

Module SpriteBatcher.
Section SpriteBatcher.
(** [Basic2DBatcher.MAX_VERTEX_COUNT] *)
Variable MAX_VERTEX_COUNT : Z.
(** The vertex budget of the mask manager's own batcher. *)
Variable maskMaxVertexCount : Z.

Definition verticesNum (e : SpriteElement.t) : Z :=
  Z.of_nat (length (SpriteElement.positions e)).

Definition _checkBatchByMask (sr1 sr2 : SpriteRenderer.t) : bool :=
  let maskInteraction1 := SpriteRenderer.maskInteraction sr1 in
  if decide (maskInteraction1 <> SpriteRenderer.maskInteraction sr2) then
    false
  else if decide (maskInteraction1 = SpriteMaskInteraction.None) then
    true
  else SpriteRenderer.maskLayer sr1 =? SpriteRenderer.maskLayer sr2.

Definition _canBatch (p : Pipeline)
    (preSpriteElement curSpriteElement : SpriteElement.t) : bool :=
  let preSpriteRenderer := SpriteElement.component preSpriteElement in
  let curSpriteRenderer := SpriteElement.component curSpriteElement in
  (* Compare mask *)
  if negb (_checkBatchByMask preSpriteRenderer curSpriteRenderer) then
    false
  (* Compare camera *)
  else if decide (SpriteElement.camera preSpriteElement
                  <> SpriteElement.camera curSpriteElement) then false
  else
    (* Compare texture *)
    let preTexture :=
      SpriteRenderer.shaderData preSpriteRenderer u_spriteTexture in
    let curTexture :=
      SpriteRenderer.shaderData curSpriteRenderer u_spriteTexture in
    if decide (preTexture <> curTexture) then false
    else
      (* Compare material and shader *)
      let preMaterial := SpriteElement.material preSpriteElement in
      let curMaterial := SpriteElement.material curSpriteElement in
      let shaderName m := name (shader (materials (world p) m)) in
      if decide (preMaterial = curMaterial
                 \/ (shaderName preMaterial = shaderName curMaterial
                     /\ shaderName curMaterial = "Sprite"%string))
      then true else false.

(** The loop of [_drawBatches], from index [i] on.  A missing element
    and an invalid program both [return] out of the loop; the second
    does so after [preRender] and before [postRender].  (The loop
    passes the renderer before the camera; the manager takes the camera
    first.) *)
Fixpoint _drawBatches_from (i : nat)
    (subMeshes : list (list SpriteElement.t))
    (batchedQueue : list (option SpriteElement.t))
    (p : Pipeline) : Pipeline :=
  match subMeshes with
  | [] => p
  | subMesh :: rest =>
      match mjoin (batchedQueue !! i) with
      | None => p
      | Some spriteElement =>
          let renderer := SpriteElement.component spriteElement in
          let camera := SpriteElement.camera spriteElement in
          let p1 := MaskPass.preRender maskMaxVertexCount camera renderer p in
          let material := SpriteElement.material spriteElement in
          let store := materials (world p1) in
          if negb (program_isValid (shader (store material))) then p1
          else
            let p2 :=
              {| maskManager := maskManager p1;
                 maskBatcher := maskBatcher p1;
                 world :=
                   {| materials := store;
                      gpu := gpu (world p1)
                             ++ [DrawSprites subMesh material
                                   (renderState (store material))] |} |} in
            _drawBatches_from (S i) rest batchedQueue
              (MaskPass.postRender renderer p2)
      end
  end.

Definition _drawBatches := _drawBatches_from 0.

Definition state := (Basic2DBatcher.t SpriteElement.t * Pipeline)%type.

Definition flush (s : state) : state :=
  Basic2DBatcher.flush _canBatch _drawBatches s.

Definition drawSprite (spriteElement : SpriteElement.t) (s : state)
  : state :=
  let len := Z.of_nat (length (SpriteElement.positions spriteElement)) in
  let (this, p) :=
    if Basic2DBatcher._vertexCount (fst s) + len >? MAX_VERTEX_COUNT
    then flush s else s in
  ({| Basic2DBatcher._batchedQueue :=
        JS.array_set (Basic2DBatcher._batchedQueue this)
          (Basic2DBatcher._elementCount this) spriteElement;
      Basic2DBatcher._vertexCount :=
        Basic2DBatcher._vertexCount this + len;
      Basic2DBatcher._elementCount :=
        S (Basic2DBatcher._elementCount this);
      Basic2DBatcher._flushId := Basic2DBatcher._flushId this |},
   p).

Definition clear (s : state) : state :=
  (Basic2DBatcher.clear (fst s), snd s).

(** The states a sprite batcher goes through: created empty, then
    driven by [drawSprite], [flush] and [clear], whatever happens to the
    rest of the pipeline in between. *)
Inductive reachable : state -> Prop :=
| reach_new p : reachable (Basic2DBatcher.empty, p)
| reach_drawSprite e s : reachable s -> reachable (drawSprite e s)
| reach_flush s : reachable s -> reachable (flush s)
| reach_clear s : reachable s -> reachable (clear s)
| reach_world this p p' : reachable (this, p) -> reachable (this, p').

End SpriteBatcher.
End SpriteBatcher.

(** ** ModelMesh: the mesh data buffer

    The class itself is not among the sources at hand; its test-suite is.
    Arrays are JS objects: the mesh keeps references (locations) to them
    and a heap gives each location its object. *)

Module ModelMesh.

Inductive IndexFormat := UInt8 | UInt16 | UInt32.

#[global] Instance IndexFormat_eq_dec : EqDecision IndexFormat.
Proof. solve_decision. Defined.

Definition bits (f : IndexFormat) : Z :=
  match f with UInt8 => 8 | UInt16 => 16 | UInt32 => 32 end.

Inductive Error := AccessDenied | SizeMismatch | TypeError.

Definition message (e : Error) : string :=
  match e with
  | AccessDenied => "Not allowed to access data while accessible is false."
  | SizeMismatch =>
      "The array provided needs to be the same size as vertex count."
  | TypeError => "TypeError"
  end.

Inductive result (A : Type) :=
| Ok (a : A)
| Throw (e : Error).
#[global] Arguments Ok {A} a.
#[global] Arguments Throw {A} e.

Definition bind {A B} (r : result A) (k : A -> result B) : result B :=
  match r with
  | Ok a => k a
  | Throw e => Throw e
  end.

Notation "x <- r ;; k" := (bind r (fun x => k))
  (at level 100, r at next level, right associativity).

Abbreviation loc := nat (only parsing).

Inductive Obj :=
| VectorArray (items : list (list float))   (* Vector2/3/4[] or Color[] *)
| TypedArray (format : IndexFormat) (values : list Z).

Abbreviation Heap := (gmap loc Obj).

(** [new UintNArray(values)]: the elements are stored modulo 2^N. *)
Definition newTypedArray (f : IndexFormat) (values : list Z) : Obj :=
  TypedArray f ((fun v => v `mod` 2 ^ bits f) <$> values).

Inductive Attribute :=
| Positions | Colors | Normals | Tangents | Weights | Joints
| UV | UV1 | UV2 | UV3 | UV4 | UV5 | UV6 | UV7.

#[global] Instance Attribute_eq_dec : EqDecision Attribute.
Proof. solve_decision. Defined.

Definition all_attributes : list Attribute :=
  [Positions; Colors; Normals; Tangents; Weights; Joints;
   UV; UV1; UV2; UV3; UV4; UV5; UV6; UV7].

(** Floats per vertex an attribute adds to the interleaved buffer. *)
Definition components (k : Attribute) : nat :=
  match k with
  | Positions | Normals => 3
  | Colors | Tangents | Weights | Joints => 4
  | _ => 2
  end.

(** Modelled from the spec: the state of the data buffer (section 3),
    absent from the sources. *)
Record t := mk {
  accessible : bool;
  vertexCount : nat;
  _vertexCountChanged : bool;
  _attributes : Attribute -> option loc;
  _dirty : Attribute -> bool;
  _indices : option loc;
  _indicesFormat : option IndexFormat;
  _indicesChanged : bool;
  (* the packed buffer: its identity and its length *)
  _verticesFloat32 : option (nat * nat);
  _allocations : nat
}.

(** Modelled from the spec: [new ModelMesh(engine)], created empty and
    accessible. *)
Definition create : t :=
  {| accessible := true; vertexCount := 0; _vertexCountChanged := false;
     _attributes := fun _ => None; _dirty := fun _ => false;
     _indices := None; _indicesFormat := None; _indicesChanged := false;
     _verticesFloat32 := None; _allocations := 0 |}.

Definition array_length (h : Heap) (values : loc) : result nat :=
  match h !! values with
  | Some (VectorArray items) => Ok (length items)
  | Some (TypedArray _ vs) => Ok (length vs)
  | None => Throw TypeError
  end.

Definition store_attribute (k : Attribute) (values : loc) (count : nat)
    (changed : bool) (m : t) : t :=
  {| accessible := accessible m;
     vertexCount := count;
     _vertexCountChanged := changed;
     _attributes := <[k := Some values]> (_attributes m);
     _dirty := <[k := true]> (_dirty m);
     _indices := _indices m;
     _indicesFormat := _indicesFormat m;
     _indicesChanged := _indicesChanged m;
     _verticesFloat32 := _verticesFloat32 m;
     _allocations := _allocations m |}.

(** Modelled from the spec: [setPositions(values)], absent from the
    sources. It establishes the vertex count and notes a change of it. *)
Definition setPositions (h : Heap) (values : loc) (m : t) : result t :=
  if negb (accessible m) then Throw AccessDenied
  else
    count <- array_length h values ;;
    Ok (store_attribute Positions values count
          (_vertexCountChanged m
           || negb (bool_decide (count = vertexCount m))) m).

(** Modelled from the spec: [setAttribute(kind, values)] for the kinds
    other than positions, absent from the sources.  The array is stored
    by reference and the attribute marked dirty; the access check comes
    first, the size check second, and a failure writes nothing. *)
Definition setAttribute (k : Attribute) (h : Heap) (values : loc) (m : t)
  : result t :=
  if negb (accessible m) then Throw AccessDenied
  else
    count <- array_length h values ;;
    if negb (bool_decide (count = vertexCount m)) then Throw SizeMismatch
    else Ok (store_attribute k values (vertexCount m)
               (_vertexCountChanged m) m).

(** The setter of each kind: [setPositions], [setColors], ..., [setUV7]. *)
Definition set (k : Attribute) : Heap -> loc -> t -> result t :=
  match k with
  | Positions => setPositions
  | _ => setAttribute k
  end.

(** Modelled from the spec: [getAttribute(kind)], absent from the
    sources: the reference last set, not a copy. *)
Definition get (k : Attribute) (m : t) : result (option loc) :=
  if negb (accessible m) then Throw AccessDenied
  else Ok (_attributes m k).

(** Modelled from the spec: [getIndices()], absent from the sources. *)
Definition getIndices (m : t) : result (option loc) :=
  if negb (accessible m) then Throw AccessDenied
  else Ok (_indices m).

Definition store_indices (values : option loc)
    (format : option IndexFormat) (m : t) : t :=
  {| accessible := accessible m;
     vertexCount := vertexCount m;
     _vertexCountChanged := _vertexCountChanged m;
     _attributes := _attributes m;
     _dirty := _dirty m;
     _indices := values;
     _indicesFormat := format;
     _indicesChanged := true;
     _verticesFloat32 := _verticesFloat32 m;
     _allocations := _allocations m |}.

(** Modelled from the spec: [setIndices(values | null)], absent from the
    sources.  [null] clears the indices.  For an array the spec gives
    two readings of the stored width; the one modelled is the one the
    test-suite ("set indices data") checks and the spec lists as
    testable: the width of the typed array passed. *)
Definition setIndices (h : Heap) (values : option loc) (m : t)
  : result t :=
  if negb (accessible m) then Throw AccessDenied
  else
    match values with
    | None => Ok (store_indices None (_indicesFormat m) m)
    | Some r =>
        match h !! r with
        | Some (TypedArray format _) =>
            Ok (store_indices (Some r) (Some format) m)
        | _ => Throw TypeError
        end
    end.

(** The other reading: the least of 8, 16 and 32 bits that holds every
    index value. *)
Definition minimal_format (values : list Z) : IndexFormat :=
  if forallb (fun v => v <? 2 ^ 8) values then UInt8
  else if forallb (fun v => v <? 2 ^ 16) values then UInt16
  else UInt32.

Definition packed_length (m : t) : nat :=
  (vertexCount m *
   foldr Nat.add 0
     ((fun k => match _attributes m k with
                | Some _ => components k
                | None => 0
                end)
        <$> all_attributes))%nat.

(** Modelled from the spec: [uploadData(releaseCPUCopy)], absent from
    the sources.  Dirty flags are reset; the packed buffer is allocated
    anew when the vertex count changed (or there is none yet); with
    [releaseCPUCopy] the mesh stops being accessible and lets go of the
    source arrays. *)
Definition uploadData (releaseCPUCopy : bool) (m : t) : t :=
  let fresh :=
    _vertexCountChanged m
    || negb (bool_decide (is_Some (_verticesFloat32 m))) in
  {| accessible := if releaseCPUCopy then false else accessible m;
     vertexCount := vertexCount m;
     _vertexCountChanged := false;
     _attributes :=
       if releaseCPUCopy then fun _ => None else _attributes m;
     _dirty := fun _ => false;
     _indices := if releaseCPUCopy then None else _indices m;
     _indicesFormat := _indicesFormat m;
     _indicesChanged := false;
     _verticesFloat32 :=
       if fresh then Some (_allocations m, packed_length m)
       else _verticesFloat32 m;
     _allocations :=
       if fresh then S (_allocations m) else _allocations m |}.

(** Every accessor of the data buffer, as one call. *)
Inductive Accessor :=
| Get (k : Attribute)
| Set_ (k : Attribute) (values : loc)
| GetIndices
| SetIndices (values : option loc).

(** The outcome of an accessor: the mesh after it and the reference it
    returns, if it is a getter. *)
Definition access (h : Heap) (a : Accessor) (m : t)
  : result (t * option loc) :=
  match a with
  | Get k => r <- get k m ;; Ok (m, r)
  | Set_ k values => m' <- set k h values m ;; Ok (m', None)
  | GetIndices => r <- getIndices m ;; Ok (m, r)
  | SetIndices values => m' <- setIndices h values m ;; Ok (m', None)
  end.

End ModelMesh.

(** ** Observations on the calls of the mask manager *)

(** Is [c] a stencil draw of the mask [m] with operation [op]? *)
Definition is_draw (m : SpriteMask.t) (op : StencilOperation.t)
    (c : BatcherCall) : bool :=
  match c with
  | DrawElement element _ o =>
      bool_decide (element = _maskElement m) && bool_decide (o = op)
  | _ => false
  end.

(** How many times [calls] draws the mask [m] with [op]. *)
Definition draws (m : SpriteMask.t) (op : StencilOperation.t)
    (calls : list BatcherCall) : nat :=
  length (filter (fun c => is_draw m op c) calls).

(** All the stencil draws among [calls]. *)
Definition is_stencil_draw (c : BatcherCall) : bool :=
  match c with DrawElement _ _ _ => true | _ => false end.

Definition stencil_draws (calls : list BatcherCall) : list BatcherCall :=
  filter (fun c => is_stencil_draw c) calls.

(** How many times the mask [m] is registered. *)
Definition registrations (m : SpriteMask.t) (masks : list SpriteMask.t)
  : nat :=
  length (filter (fun x => x = m) masks).

(** What the loop of [_processMasksDiff] decides for a mask with the given
    influence layers. *)
Definition decision (commonLayer addLayer reduceLayer influenceLayers : Z)
  : option StencilOperation.t :=
  if JS.truthy (JS.band influenceLayers commonLayer) then None
  else if JS.truthy (JS.band influenceLayers addLayer) then
    Some StencilOperation.IncrementSaturate
  else if JS.truthy (JS.band influenceLayers reduceLayer) then
    Some StencilOperation.DecrementSaturate
  else None.

(** The calls [preRender] makes on the batcher. *)
Definition preRender_calls (camera : CameraId) (renderer : SpriteRenderer.t)
    (this : SpriteMaskManager.t) (store : Store) : list BatcherCall :=
  snd (SpriteMaskManager.preRender camera renderer this store).

(** ** Observations on the pipeline *)

(** The five stencil fields [_copyStencilState] copies. *)
Definition copied_fields (s : StencilState) :=
  (enabled s, writeMask s, referenceValue s,
   compareFunctionFront s, compareFunctionBack s).

Definition stencil_of (store : Store) (m : MaterialId) : StencilState :=
  stencilState (renderState (store m)).

(** The mask elements whose geometry the events draw. *)
Definition drawn_masks (events : list GpuEvent) : list SpriteMaskElement.t :=
  events ≫= (fun ev => match ev with
                       | DrawMasks subMesh _ _ => subMesh
                       | DrawSprites _ _ _ => []
                       end).

(** The mask elements that [calls] submits to the batcher. *)
Definition queued (calls : list BatcherCall) : list SpriteMaskElement.t :=
  omap (fun c => match c with
                 | DrawElement element camera op =>
                     Some (SpriteMaskBatcher.submitted element camera op)
                 | _ => None
                 end) calls.

(** The pipeline with another mask batcher in place. *)
Definition with_maskBatcher (b : Basic2DBatcher.t SpriteMaskElement.t)
    (p : Pipeline) : Pipeline :=
  {| maskManager := maskManager p; maskBatcher := b; world := world p |}.

(** The sub-meshes the events draw, for masks and for sprites. *)
Definition mask_subMeshes (events : list GpuEvent)
  : list (list SpriteMaskElement.t) :=
  omap (fun ev => match ev with
                  | DrawMasks subMesh _ _ => Some subMesh
                  | DrawSprites _ _ _ => None
                  end) events.

Definition sprite_subMeshes (events : list GpuEvent)
  : list (list SpriteElement.t) :=
  omap (fun ev => match ev with
                  | DrawSprites subMesh _ _ => Some subMesh
                  | DrawMasks _ _ _ => None
                  end) events.

(** Does the shader of material [m] yield a valid program? *)
Definition compiles (store : Store) (m : MaterialId) : bool :=
  program_isValid (shader (store m)).

(** ** A small scene, used to run the definitions on concrete inputs *)

Module Scene.

Definition stencil : StencilState :=
  {| enabled := false; referenceValue := 0; mask := 255; writeMask := 255;
     compareFunctionFront := CompareFunction.Always;
     compareFunctionBack := CompareFunction.Always;
     passOperationFront := StencilOperation.Keep;
     passOperationBack := StencilOperation.Keep |}.

Definition material_with (valid : bool) (texture : TextureId) : Material :=
  {| shader := {| name := "Sprite"; program_isValid := valid |};
     renderState := {| stencilState := stencil |};
     shaderData := fun _ => Some texture |}.

(** Material [7] has a shader that does not compile; material [n] binds
    texture [n]. *)
Definition store : Store :=
  fun m => material_with (negb (bool_decide (m = 7%nat))) m.

Definition quad : list Vector3 :=
  [(0, 0, 0); (1, 0, 0); (1, 1, 0); (0, 1, 0)].
Definition quad_uv : list Vector2 := [(0, 0); (1, 0); (1, 1); (0, 1)].

Definition mask_on (id : nat) (layers : Z) (material : MaterialId)
  : SpriteMask.t :=
  {| SpriteMask.instanceId := id;
     SpriteMask.influenceLayers := layers;
     SpriteMask.material := material;
     SpriteMask.positions := quad;
     SpriteMask.uv := quad_uv |}.

Definition renderer_on (interaction : SpriteMaskInteraction.t)
    (layer : Z) : SpriteRenderer.t :=
  {| SpriteRenderer.instanceId := 100%nat;
     SpriteRenderer.maskInteraction := interaction;
     SpriteRenderer.maskLayer := layer;
     SpriteRenderer.getMaterial := 2%nat;
     SpriteRenderer.shaderData := fun _ => Some 2%nat |}.

Definition manager_at (prev : Z) (masks : list SpriteMask.t)
  : SpriteMaskManager.t :=
  {| SpriteMaskManager._tempStencilState := stencil;
     SpriteMaskManager._allSpriteMasks := masks;
     SpriteMaskManager._preMaskLayer := prev |}.

Definition sprite (material : MaterialId) (texture : TextureId)
  : SpriteElement.t :=
  {| SpriteElement.component :=
       {| SpriteRenderer.instanceId := (200 + texture)%nat;
          SpriteRenderer.maskInteraction := SpriteMaskInteraction.None;
          SpriteRenderer.maskLayer := 0;
          SpriteRenderer.getMaterial := material;
          SpriteRenderer.shaderData := fun _ => Some texture |};
     SpriteElement.positions := quad;
     SpriteElement.uv := quad_uv;
     SpriteElement.color := (1, 1, 1, 1);
     SpriteElement.material := material;
     SpriteElement.camera := 0%nat |}.

Definition pipeline : Pipeline :=
  {| maskManager := manager_at 0 [];
     maskBatcher := Basic2DBatcher.empty;
     world := {| materials := store; gpu := [] |} |}.

End Scene.

(** ** The arrays of the ModelMesh test-suite *)

Module Fixture.
Import ModelMesh.

Definition positions : loc := 1%nat.
Definition positionsX : loc := 2%nat.
Definition colors : loc := 3%nat.
Definition normals : loc := 4%nat.
Definition uvs : loc := 5%nat.
Definition tangents : loc := 6%nat.
Definition weights : loc := 7%nat.
Definition joints : loc := 8%nat.
Definition indices : loc := 9%nat.
Definition indices16 : loc := 10%nat.
Definition indices32 : loc := 11%nat.
Definition falsyColors : loc := 12%nat.

Definition zeros (n : nat) (width : nat) : Obj :=
  VectorArray (replicate n (replicate width 0)).

Definition heap : Heap :=
  list_to_map
    [(positions, VectorArray [[0; 0; 0]; [0; 1; 0]; [1; 1; 0]]);
     (positionsX,
      VectorArray [[0; 0; 0]; [0; 1; 0]; [1; 1; 0]; [0; 0; 0]]);
     (colors, zeros 3 4); (normals, zeros 3 3); (uvs, zeros 3 2);
     (tangents, zeros 3 4); (weights, zeros 3 4); (joints, zeros 3 4);
     (indices, newTypedArray UInt8 [0; 1; 2]);
     (indices16, newTypedArray UInt16 [0; 1; 2]);
     (indices32, newTypedArray UInt32 [0; 1; 2]);
     (falsyColors, zeros 1 4)].

(** The mesh after "set position data". *)
Definition mesh : result t :=
  m <- setPositions heap positionsX create ;;
  setPositions heap positions m.

End Fixture.

(** ** Further observations on the mask pass *)

(** The mask elements that [calls] draws, in order. *)
Definition drawn_elements (calls : list BatcherCall)
  : list SpriteMaskElement.t :=
  omap (fun c => match c with
                 | DrawElement element _ _ => Some element
                 | _ => None
                 end) calls.

(** The stencil operation a mask chunk is drawn with. *)
Definition operation_of (e : SpriteMaskElement.t) : StencilOperation.t :=
  if SpriteMaskElement.isAdd e then StencilOperation.IncrementSaturate
  else StencilOperation.DecrementSaturate.

(** The five copied fields as [preRender] forces them. *)
Definition forced_fields (interaction : SpriteMaskInteraction.t) :=
  let cmp :=
    if decide (interaction = SpriteMaskInteraction.VisibleInsideMask)
    then CompareFunction.LessEqual else CompareFunction.Greater in
  (true, 0, 1, cmp, cmp).

(** One turn of the sprite loop that reaches [postRender]. *)
Definition sprite_turn (maskMaxVertexCount : Z)
    (subMesh : list SpriteElement.t)
    (el : SpriteElement.t) (p : Pipeline) : Pipeline :=
  let p1 :=
    MaskPass.preRender maskMaxVertexCount (SpriteElement.camera el)
      (SpriteElement.component el) p in
  MaskPass.postRender (SpriteElement.component el)
    {| maskManager := maskManager p1;
       maskBatcher := maskBatcher p1;
       world :=
         {| materials := materials (world p1);
            gpu := gpu (world p1)
                   ++ [DrawSprites subMesh (SpriteElement.material el)
                         (renderState
                            (materials (world p1)
                               (SpriteElement.material el)))] |} |}.


(** ** Vertex data of the batchers *)

(** [VertexElementFormat] and [VertexElement] (declared in ../graphic),
    with the number of floats a format stands for. *)
Inductive VertexElementFormat := Float | Vector2_ | Vector3_ | Vector4_.

Definition format_floats (f : VertexElementFormat) : Z :=
  match f with Float => 1 | Vector2_ => 2 | Vector3_ => 3 | Vector4_ => 4 end.

Record VertexElement := mkVertexElement {
  semantic : string;
  offset : Z;                   (* in bytes *)
  format : VertexElementFormat;
  bindingIndex : Z
}.

Module Float32Array.
Section Float32Array.
(** [Math.fround]: the rounding to single precision that a store into
    a Float32Array performs. *)
Variable fround : float -> float.

(** [array[i] = v] on a Float32Array: in range the rounded value is
    stored, out of range nothing happens (a typed array never
    grows). *)
Definition set (vertices : list float) (i : nat) (v : float)
  : list float :=
  <[i := fround v]> vertices.

(** The floats [data] stored one after the other from [i] on. *)
Fixpoint write (vertices : list float) (i : nat) (data : list float)
  : list float :=
  match data with
  | [] => vertices
  | v :: data' => write (set vertices i v) (S i) data'
  end.
End Float32Array.
End Float32Array.

Module SpriteMaskBatcherData.
Section Data.
Variable fround : float -> float.

Definition _createVertexElements
    (vertexElements : list (option VertexElement))
  : list (option VertexElement) * Z :=
  let vertexElements :=
    JS.array_set vertexElements 0
      (mkVertexElement "POSITION" 0 Vector3_ 0) in
  let vertexElements :=
    JS.array_set vertexElements 1
      (mkVertexElement "TEXCOORD_0" 12 Vector2_ 0) in
  (vertexElements, 20).

(** The loop of [_updateVertices]: [positions] and [uv] from index [i]
    on.  [uv[i]] may be missing, and reading its [x] then throws a
    TypeError ([None]) after the position of that vertex has been
    written. *)
Fixpoint _updateVertices_from (positions : list Vector3)
    (uv : list Vector2) (vertices : list float) (vertexIndex : nat)
  : list float * option nat :=
  match positions with
  | [] => (vertices, Some vertexIndex)
  | curPos :: positions' =>
      let '(x, y, z) := curPos in
      let vertices := Float32Array.set fround vertices vertexIndex x in
      let vertices :=
        Float32Array.set fround vertices (vertexIndex + 1) y in
      let vertices :=
        Float32Array.set fround vertices (vertexIndex + 2) z in
      match uv with
      | [] => (vertices, None)
      | (ux, uy) :: uv' =>
          let vertices :=
            Float32Array.set fround vertices (vertexIndex + 3) ux in
          let vertices :=
            Float32Array.set fround vertices (vertexIndex + 4) uy in
          _updateVertices_from positions' uv' vertices (vertexIndex + 5)
      end
  end.

Definition _updateVertices (element : SpriteMaskElement.t)
    (vertices : list float) (vertexIndex : nat)
  : list float * option nat :=
  _updateVertices_from (SpriteMaskElement.positions element)
    (SpriteMaskElement.uv element) vertices vertexIndex.

(** The floats of one vertex, and of an element, in buffer order. *)
Definition vertex_floats (pu : Vector3 * Vector2) : list float :=
  let '((x, y, z), (ux, uy)) := pu in [x; y; z; ux; uy].

Definition element_floats (element : SpriteMaskElement.t) : list float :=
  zip (SpriteMaskElement.positions element) (SpriteMaskElement.uv element)
  ≫= vertex_floats.
End Data.
End SpriteMaskBatcherData.

Module SpriteBatcherData.
Section Data.
Variable fround : float -> float.

Definition _createVertexElements
    (vertexElements : list (option VertexElement))
  : list (option VertexElement) * Z :=
  let vertexElements :=
    JS.array_set vertexElements 0
      (mkVertexElement "POSITION" 0 Vector3_ 0) in
  let vertexElements :=
    JS.array_set vertexElements 1
      (mkVertexElement "TEXCOORD_0" 12 Vector2_ 0) in
  let vertexElements :=
    JS.array_set vertexElements 2
      (mkVertexElement "COLOR_0" 20 Vector4_ 0) in
  (vertexElements, 36).

Fixpoint _updateVertices_from (positions : list Vector3)
    (uv : list Vector2) (color : float * float * float * float)
    (vertices : list float) (vertexIndex : nat)
  : list float * option nat :=
  match positions with
  | [] => (vertices, Some vertexIndex)
  | curPos :: positions' =>
      let '(x, y, z) := curPos in
      let '(r, g, b, a) := color in
      let vertices := Float32Array.set fround vertices vertexIndex x in
      let vertices :=
        Float32Array.set fround vertices (vertexIndex + 1) y in
      let vertices :=
        Float32Array.set fround vertices (vertexIndex + 2) z in
      match uv with
      | [] => (vertices, None)
      | (ux, uy) :: uv' =>
          let vertices :=
            Float32Array.set fround vertices (vertexIndex + 3) ux in
          let vertices :=
            Float32Array.set fround vertices (vertexIndex + 4) uy in
          let vertices :=
            Float32Array.set fround vertices (vertexIndex + 5) r in
          let vertices :=
            Float32Array.set fround vertices (vertexIndex + 6) g in
          let vertices :=
            Float32Array.set fround vertices (vertexIndex + 7) b in
          let vertices :=
            Float32Array.set fround vertices (vertexIndex + 8) a in
          _updateVertices_from positions' uv' color vertices
            (vertexIndex + 9)
      end
  end.

Definition _updateVertices (element : SpriteElement.t)
    (vertices : list float) (vertexIndex : nat)
  : list float * option nat :=
  _updateVertices_from (SpriteElement.positions element)
    (SpriteElement.uv element) (SpriteElement.color element)
    vertices vertexIndex.

Definition vertex_floats (color : float * float * float * float)
    (pu : Vector3 * Vector2) : list float :=
  let '((x, y, z), (ux, uy)) := pu in
  let '(r, g, b, a) := color in
  [x; y; z; ux; uy; r; g; b; a].

Definition element_floats (element : SpriteElement.t) : list float :=
  zip (SpriteElement.positions element) (SpriteElement.uv element)
  ≫= vertex_floats (SpriteElement.color element).
End Data.
End SpriteBatcherData.

(** What a buffer holds at [j] after [data] was stored from [i] on. *)
Definition written (fround : float -> float) (vertices : list float)
    (i : nat) (data : list float) (j : nat) : option float :=
  if decide (i <= j < i + length data /\ j < length vertices)%nat
  then fround <$> data !! (j - i)%nat
  else vertices !! j.

(** ** Pointer events on physics colliders

    [PointerPhysicsEventEmitter] (input/pointer/emitter) keeps three entity
    references and calls the pointer callbacks of the scripts attached to
    those entities.  The callbacks are user code: the model records every
    call, in order, and takes the script lists as not changed by the
    callbacks. *)

Abbreviation Entity := nat (only parsing).

(** The value of a field of type [Entity]: never assigned, [null], or an
    entity. *)
Module Ref.
Inductive t := undefined | null | object (e : Entity).
#[global] Instance eq_dec : EqDecision t.
Proof. solve_decision. Defined.

(** A reference used as a condition. *)
Definition truthy (r : t) : bool :=
  match r with object _ => true | _ => false end.
End Ref.

(** The members of the enumeration (declared in ../PointerCallbackType);
    their numeric values are a parameter of the emitter. *)
Module PointerCallbackType.
Inductive t :=
  onPointerDown | onPointerUp | onPointerClick | onPointerEnter
| onPointerExit | onPointerBeginDrag | onPointerDrag | onPointerEndDrag
| onPointerDrop.
#[global] Instance eq_dec : EqDecision t.
Proof. solve_decision. Defined.
End PointerCallbackType.

Module Script.
Record t := mk { id : nat; _pointerOverrideFlag : Z }.
#[global] Instance eq_dec : EqDecision t.
Proof. solve_decision. Defined.
End Script.

Module Pointer.
Record t := mk { id : nat; position : Vector2 }.
#[global] Instance eq_dec : EqDecision t.
Proof. unfold Vector2, float. solve_decision. Defined.
End Pointer.

Module Viewport.
Record t := mk { x : float; y : float; width : float; height : float }.
End Viewport.

(** The fields of a camera the emitter reads; [id] stands for the
    transform and projection [screenPointToRay] uses. *)
Module Camera.
Record t := mk {
  id : nat;
  renderTarget : option nat;
  pixelViewport : Viewport.t;
  farClipPlane : float;
  cullingMask : Z;
  clearFlags : Z
}.
End Camera.

(** The fields of a scene the emitter reads; [physics] names the scene's
    physics world. *)
Module InputScene.
Record t := mk {
  isActive : bool;
  destroyed : bool;
  _activeCameras : list Camera.t;
  physics : nat
}.
End InputScene.

(** The arguments of [_createEventData]. *)
Module PointerEventData.
Record t := mk {
  pointer : option Pointer.t;
  target : Entity;
  currentTarget : Entity
}.
#[global] Instance eq_dec : EqDecision t.
Proof. solve_decision. Defined.
End PointerEventData.

(** One call of a script callback. *)
Record ScriptCall := mkScriptCall {
  callback : PointerCallbackType.t;
  script : Script.t;
  eventData : PointerEventData.t
}.

#[global] Instance ScriptCall_eq_dec : EqDecision ScriptCall.
Proof. solve_decision. Defined.

Module PointerPhysicsEventEmitter.

Record t := mk {
  _enteredEntity : Ref.t;
  _pressedEntity : Ref.t;
  _draggedEntity : Ref.t
}.

#[global] Instance eq_dec : EqDecision t.
Proof. solve_decision. Defined.

(** The three fields are declared without an initial value. *)
Definition create : t := mk Ref.undefined Ref.undefined Ref.undefined.

(** The calls of the emitter's methods, as its owner issues them. *)
Inductive Input :=
| Raycast (scenes : list InputScene.t) (pointer : Pointer.t)
| Drag (pointer : Pointer.t)
| Down (pointer : Pointer.t)
| Up (pointer : Pointer.t)
| Leave (pointer : Pointer.t)
| Dispose.

Section Emitter.

(** The numeric value of each member of [PointerCallbackType], and of
    [CameraClearFlags.Color]. *)
Variable value : PointerCallbackType.t -> Z.
Variable Color : Z.
(** [a < b] and [a + b] on numbers. *)
Variable lt : float -> float -> bool.
Variable add : float -> float -> float.
(** [entity._scripts], in iteration order. *)
Variable scripts : Entity -> list Script.t.
(** [camera.screenPointToRay(pointer.position, ray)] followed by
    [scenePhysics.raycast(ray, camera.farClipPlane, camera.cullingMask,
    hitResult)]: [Some e] when the ray hits, [e] being
    [hitResult.entity]. *)
Variable raycast : nat -> Camera.t -> Pointer.t -> option Entity.

Definition _createEventData (pointer : option Pointer.t)
    (target currentTarget : Entity) : PointerEventData.t :=
  PointerEventData.mk pointer target currentTarget.

(** [flag & PointerCallbackType.c && script.c(data)] *)
Definition invoke (c : PointerCallbackType.t) (script : Script.t)
    (data : PointerEventData.t) : list ScriptCall :=
  if JS.truthy (JS.band (Script._pointerOverrideFlag script) (value c))
  then [mkScriptCall c script data] else [].

(** [entity._scripts.forEach(fn, ...)] *)
Definition forEach (entity : Entity)
    (fn : Script.t -> list ScriptCall) : list ScriptCall :=
  scripts entity ≫= fn.

Definition _updateRaycast (entity : Ref.t) (pointer : option Pointer.t)
    (this : t) : t * list ScriptCall :=
  let enteredEntity := _enteredEntity this in
  if decide (entity <> enteredEntity) then
    let exits :=
      match enteredEntity with
      | Ref.object e =>
          forEach e (fun script =>
            invoke PointerCallbackType.onPointerExit script
              (_createEventData pointer e e))
      | _ => []
      end in
    let enters :=
      match entity with
      | Ref.object e =>
          forEach e (fun script =>
            invoke PointerCallbackType.onPointerEnter script
              (_createEventData pointer e e))
      | _ => []
      end in
    (mk entity (_pressedEntity this) (_draggedEntity this),
     exits ++ enters)
  else (this, []).

(** [x > y] is [y < x]. *)
Definition outside (pointer : Pointer.t) (v : Viewport.t) : bool :=
  let '(x, y) := Pointer.position pointer in
  lt x (Viewport.x v) || lt y (Viewport.y v)
  || lt (add (Viewport.x v) (Viewport.width v)) x
  || lt (add (Viewport.y v) (Viewport.height v)) y.

(** The inner loop, over the cameras from the last to the first:
    [Some r] when the method calls [_updateRaycast(r)] and returns. *)
Fixpoint cameras_loop (scenePhysics : nat) (pointer : Pointer.t)
    (cameras : list Camera.t) : option Ref.t :=
  match cameras with
  | [] => None
  | camera :: rest =>
      if bool_decide (is_Some (Camera.renderTarget camera))
      then cameras_loop scenePhysics pointer rest
      else if outside pointer (Camera.pixelViewport camera)
      then cameras_loop scenePhysics pointer rest
      else match raycast scenePhysics camera pointer with
           | Some e => Some (Ref.object e)
           | None =>
               if JS.truthy (JS.band (Camera.clearFlags camera) Color)
               then Some Ref.null
               else cameras_loop scenePhysics pointer rest
           end
  end.

(** The outer loop, over the scenes from the last to the first. *)
Fixpoint scenes_loop (pointer : Pointer.t) (scenes : list InputScene.t)
    : option Ref.t :=
  match scenes with
  | [] => None
  | scene :: rest =>
      if negb (InputScene.isActive scene) || InputScene.destroyed scene
      then scenes_loop pointer rest
      else match cameras_loop (InputScene.physics scene) pointer
                   (reverse (InputScene._activeCameras scene)) with
           | Some r => Some r
           | None => scenes_loop pointer rest
           end
  end.

(** [_updateRaycast] is called with one argument: its [pointer]
    parameter takes its default, [null]. *)
Definition _processRaycast (scenes : list InputScene.t)
    (pointer : Pointer.t) (this : t) : t * list ScriptCall :=
  match scenes_loop pointer (reverse scenes) with
  | Some r => _updateRaycast r None this
  | None => _updateRaycast Ref.null None this
  end.

Definition _processDrag (pointer : Pointer.t) (this : t)
    : t * list ScriptCall :=
  match _pressedEntity this with
  | Ref.object entity =>
      (this,
       forEach entity (fun script =>
         invoke PointerCallbackType.onPointerDrag script
           (_createEventData (Some pointer) entity entity)))
  | _ => (this, [])
  end.

Definition _processDown (pointer : Pointer.t) (this : t)
    : t * list ScriptCall :=
  let entity := _enteredEntity this in
  let this := mk (_enteredEntity this) entity entity in
  match entity with
  | Ref.object entity =>
      (this,
       forEach entity (fun script =>
         invoke PointerCallbackType.onPointerDown script
           (_createEventData (Some pointer) entity entity)
         ++ invoke PointerCallbackType.onPointerBeginDrag script
              (_createEventData (Some pointer) entity entity)))
  | _ => (this, [])
  end.

Definition _processUp (pointer : Pointer.t) (this : t)
    : t * list ScriptCall :=
  let enteredEntity := _enteredEntity this in
  let draggedEntity := _draggedEntity this in
  let ups :=
    match enteredEntity with
    | Ref.object e =>
        let sameTarget :=
          bool_decide (_pressedEntity this = enteredEntity) in
        forEach e (fun script =>
          invoke PointerCallbackType.onPointerUp script
            (_createEventData (Some pointer) e e)
          ++ (if sameTarget
              then invoke PointerCallbackType.onPointerClick script
                     (_createEventData (Some pointer) e e)
              else [])
          ++ invoke PointerCallbackType.onPointerDrop script
               (_createEventData (Some pointer) e e))
    | _ => []
    end in
  let this := mk (_enteredEntity this) Ref.null (_draggedEntity this) in
  match draggedEntity with
  | Ref.object d =>
      (mk (_enteredEntity this) (_pressedEntity this) Ref.null,
       ups ++ forEach d (fun script =>
                invoke PointerCallbackType.onPointerEndDrag script
                  (_createEventData (Some pointer) d d)))
  | _ => (this, ups)
  end.

Definition _processLeave (pointer : Pointer.t) (this : t)
    : t * list ScriptCall :=
  let '(this, exits) :=
    match _enteredEntity this with
    | Ref.object e =>
        (mk Ref.null (_pressedEntity this) (_draggedEntity this),
         forEach e (fun script =>
           invoke PointerCallbackType.onPointerExit script
             (_createEventData (Some pointer) e e)))
    | _ => (this, [])
    end in
  let '(this, ends) :=
    match _draggedEntity this with
    | Ref.object d =>
        (mk (_enteredEntity this) (_pressedEntity this) Ref.null,
         forEach d (fun script =>
           invoke PointerCallbackType.onPointerEndDrag script
             (_createEventData (Some pointer) d d)))
    | _ => (this, [])
    end in
  (mk (_enteredEntity this) Ref.null (_draggedEntity this),
   exits ++ ends).

(** [this._enteredEntity = this._draggedEntity = this._draggedEntity =
    null]: [_pressedEntity] is not assigned. *)
Definition _dispose (this : t) : t :=
  mk Ref.null (_pressedEntity this) Ref.null.

Definition step (i : Input) (this : t) : t * list ScriptCall :=
  match i with
  | Raycast scenes pointer => _processRaycast scenes pointer this
  | Drag pointer => _processDrag pointer this
  | Down pointer => _processDown pointer this
  | Up pointer => _processUp pointer this
  | Leave pointer => _processLeave pointer this
  | Dispose => (_dispose this, [])
  end.

(** A sequence of method calls: the final state and all script calls. *)
Fixpoint run (inputs : list Input) (this : t) : t * list ScriptCall :=
  match inputs with
  | [] => (this, [])
  | i :: rest =>
      let '(this, calls) := step i this in
      let '(this, more) := run rest this in
      (this, calls ++ more)
  end.

(** What the loops of [_processRaycast] skip. *)
Definition live (scene : InputScene.t) : bool :=
  InputScene.isActive scene && negb (InputScene.destroyed scene).

Definition eligible (pointer : Pointer.t) (camera : Camera.t) : bool :=
  negb (bool_decide (is_Some (Camera.renderTarget camera)))
  && negb (outside pointer (Camera.pixelViewport camera)).

(** What an eligible camera makes of the ray: the entity hit, [null]
    when nothing is hit and the camera clears colour, nothing
    otherwise. *)
Definition decides (scenePhysics : nat) (pointer : Pointer.t)
    (camera : Camera.t) : option Ref.t :=
  match raycast scenePhysics camera pointer with
  | Some e => Some (Ref.object e)
  | None =>
      if JS.truthy (JS.band (Camera.clearFlags camera) Color)
      then Some Ref.null else None
  end.

Definition transparent (scenePhysics : nat) (pointer : Pointer.t)
    (camera : Camera.t) : Prop :=
  eligible pointer camera = false
  \/ decides scenePhysics pointer camera = None.

Definition see_through (pointer : Pointer.t) (scene : InputScene.t)
    : Prop :=
  live scene = false
  \/ Forall (transparent (InputScene.physics scene) pointer)
       (InputScene._activeCameras scene).

Definition prune (pointer : Pointer.t) (scenes : list InputScene.t)
    : list InputScene.t :=
  (fun scene =>
     InputScene.mk (InputScene.isActive scene)
       (InputScene.destroyed scene)
       (filter (fun c => eligible pointer c = true)
          (InputScene._activeCameras scene))
       (InputScene.physics scene))
  <$> filter (fun s => live s = true) scenes.

End Emitter.

(** The scripts of the calls of one callback. *)
Definition receivers (c : PointerCallbackType.t)
    (calls : list ScriptCall) : list Script.t :=
  script <$> filter (fun call => callback call = c) calls.

Definition overrides (value : PointerCallbackType.t -> Z)
    (c : PointerCallbackType.t) (s : Script.t) : bool :=
  JS.truthy (JS.band (Script._pointerOverrideFlag s) (value c)).

Definition is_entity (r : Ref.t) : Prop := Ref.truthy r = true.

End PointerPhysicsEventEmitter.

(** A small world for the pointer emitter: entities 1 and 2 with one
    script each overriding every callback, one scene with one camera. *)
Module PointerWorld.
Import PointerCallbackType.

Definition value (c : PointerCallbackType.t) : Z :=
  match c with
  | onPointerDown => 1 | onPointerUp => 2 | onPointerClick => 4
  | onPointerEnter => 8 | onPointerExit => 16 | onPointerBeginDrag => 32
  | onPointerDrag => 64 | onPointerEndDrag => 128 | onPointerDrop => 256
  end.

Definition Color : Z := 1.
Definition lt (a b : float) : bool := a <? b.
Definition add (a b : float) : float := a + b.

Definition scripts (e : Entity) : list Script.t :=
  match e with
  | 1%nat => [Script.mk 10 511]
  | 2%nat => [Script.mk 20 511]
  | _ => []
  end.

(** Camera 0 sees entity 1 under pointer 0 and entity 2 under every
    other pointer; the other cameras see nothing. *)
Definition raycast (physics : nat) (camera : Camera.t)
    (pointer : Pointer.t) : option Entity :=
  match Camera.id camera, Pointer.id pointer with
  | 0%nat, 0%nat => Some 1%nat
  | 0%nat, _ => Some 2%nat
  | _, _ => None
  end.

Definition viewport : Viewport.t := Viewport.mk 0 0 100 100.
Definition camera (id : nat) (clearFlags : Z) : Camera.t :=
  Camera.mk id None viewport 100 (-1) clearFlags.
Definition scene (cameras : list Camera.t) : InputScene.t :=
  InputScene.mk true false cameras 0.
Definition pointer (id : nat) : Pointer.t := Pointer.mk id (50, 50).

End PointerWorld.

(** ** Text measuring (2d/text/TextUtils)

    The two layout functions of [TextUtils].  A string is the list of its
    UTF-16 code units.  The arithmetic of JS numbers is not fixed: the
    functions are written over the operations they use, and every property
    states the facts about these operations it relies on. *)

Module Num.
Class t := {
  number : Type;
  zero : number;
  minus_one : number;
  half : number;                       (* 0.5 *)
  add : number -> number -> number;
  sub : number -> number -> number;
  mul : number -> number -> number;
  lt : number -> number -> bool;       (* a < b; a > b is lt b a *)
  max : number -> number -> number;    (* Math.max *)
  of_nat : nat -> number               (* an array length *)
}.
End Num.

Abbreviation jsstring := (list Z) (only parsing).

Module OverflowMode.
Inductive t := Overflow | Truncate.
#[global] Instance eq_dec : EqDecision t.
Proof. solve_decision. Defined.
End OverflowMode.

Module TextUtils.
Section Measure.
Import Num.
Context {N : Num.t}.

(** The fields of [CharInfo] the layout reads. *)
Record CharInfo := mkCharInfo {
  w : number;
  h : number;
  offsetY : number;
  xAdvance : number
}.

Record FontSizeInfo := mkFontSizeInfo {
  ascent : number;
  descent : number;
  size : number
}.

Record TextMetrics := mkTextMetrics {
  width : number;
  height : number;
  lines : list jsstring;
  lineWidths : list number;
  lineHeight : number;
  lineMaxSizes : list FontSizeInfo
}.

(** The fields of [TextRenderer] the layout reads. *)
Record TextRenderer := mkTextRenderer {
  text : jsstring;
  lineSpacing : number;
  renderer_width : number;
  renderer_height : number;
  overflowMode : OverflowMode.t
}.

(** [TextUtils._getCharInfo(char, fontString, subFont)] and
    [TextUtils.measureFont(fontString)] for the renderer's font, and
    [Engine._pixelsPerUnit]. *)
Variable _getCharInfo : Z -> CharInfo.
Variable measureFont : FontSizeInfo.
Variable _pixelsPerUnit : number.

(** [text.split(/(?:\r\n|\r|\n)/)] *)
Fixpoint split (text : jsstring) : list jsstring :=
  match text with
  | [] => [[]]
  | 13 :: rest =>
      match rest with
      | 10 :: rest' => [] :: split rest'
      | _ => [] :: split rest
      end
  | 10 :: rest => [] :: split rest
  | c :: rest =>
      match split rest with
      | l :: ls => (c :: l) :: ls
      | [] => [[c]]
      end
  end.

(** [a < b && (a = b)] *)
Definition raise (a b : number) : number := if lt a b then b else a.

(** A run of characters with its width and extents: the local variables
    [line], [lineWidth], [lineMaxAscent], [lineMaxDescent], and the same
    for [word]. *)
Record Chars := mkChars {
  chars : jsstring;
  charsWidth : number;
  maxAscent : number;
  maxDescent : number
}.

(** [x = ""; xWidth = xMaxAscent = xMaxDescent = 0] *)
Definition none : Chars := mkChars [] zero zero zero.

Definition is_empty (s : jsstring) : bool :=
  match s with [] => true | _ => false end.

(** The three result arrays. *)
Record Out := mkOut {
  out_lines : list jsstring;
  out_lineWidths : list number;
  out_lineMaxSizes : list FontSizeInfo
}.

Definition _pushCharsToLines (o : Out) (c : Chars) : Out :=
  mkOut (out_lines o ++ [chars c])
        (out_lineWidths o ++ [charsWidth c])
        (out_lineMaxSizes o
         ++ [mkFontSizeInfo (maxAscent c) (maxDescent c)
               (add (maxAscent c) (maxDescent c))]).

(** The variables of the loop over the characters of one sub-text. *)
Record Loop := mkLoop {
  out : Out;
  cur_width : number;
  line : Chars;
  word : Chars;
  notFirstLine : bool
}.

(** [line += word; lineWidth += wordWidth; ...] *)
Definition merge (line word : Chars) : Chars :=
  mkChars (chars line ++ chars word)
          (add (charsWidth line) (charsWidth word))
          (raise (maxAscent line) (maxAscent word))
          (raise (maxDescent line) (maxDescent word)).

(** One iteration of the loop over the characters, lines 134-212. *)
Definition char_step (wrapWidth : number) (char : Z) (s : Loop) : Loop :=
  let charInfo := _getCharInfo char in
  let isSpace := char =? 32 in
  if isSpace && notFirstLine s && is_empty (chars (line s))
     && is_empty (chars (word s))
  then s
  else
    let notFromWords := isSpace || (255 <? char) in
    let halfH := mul (h charInfo) half in
    let ascent := add halfH (offsetY charInfo) in
    let descent := sub halfH (offsetY charInfo) in
    let single := mkChars [char] (xAdvance charInfo) ascent descent in
    if notFromWords then
      let s :=
        if negb (is_empty (chars (word s))) then
          if lt wrapWidth
               (add (charsWidth (line s)) (charsWidth (word s)))
          then mkLoop (_pushCharsToLines (out s) (line s))
                      (raise (cur_width s) (charsWidth (line s)))
                      (word s) none true
          else mkLoop (out s) (cur_width s) (merge (line s) (word s))
                      none (notFirstLine s)
        else s in
      if lt wrapWidth (add (charsWidth (line s)) (w charInfo))
         && lt zero (charsWidth (line s))
      then mkLoop (_pushCharsToLines (out s) (line s))
                  (raise (cur_width s) (charsWidth (line s)))
                  (if isSpace then none else single)
                  (word s) true
      else mkLoop (out s) (cur_width s)
                  (mkChars (chars (line s) ++ [char])
                     (add (charsWidth (line s)) (xAdvance charInfo))
                     (raise (maxAscent (line s)) ascent)
                     (raise (maxDescent (line s)) descent))
                  (word s) (notFirstLine s)
    else
      if lt wrapWidth (add (charsWidth (word s)) (w charInfo)) then
        let s :=
          if lt zero (charsWidth (line s))
          then mkLoop (_pushCharsToLines (out s) (line s))
                      (raise (cur_width s) (charsWidth (line s)))
                      none (word s) (notFirstLine s)
          else s in
        mkLoop (_pushCharsToLines (out s) (word s))
               (raise (cur_width s) (charsWidth (word s)))
               (line s) single true
      else
        (* wordMaxAscent < ascent && (wordMaxAscent = lineMaxAscent = ascent),
           and the same for the descent *)
        let up := lt (maxAscent (word s)) ascent in
        let down := lt (maxDescent (word s)) descent in
        mkLoop (out s) (cur_width s)
               (mkChars (chars (line s)) (charsWidth (line s))
                  (if up then ascent else maxAscent (line s))
                  (if down then descent else maxDescent (line s)))
               (mkChars (chars (word s) ++ [char])
                  (add (charsWidth (word s)) (xAdvance charInfo))
                  (if up then ascent else maxAscent (word s))
                  (if down then descent else maxDescent (word s)))
               (notFirstLine s).

(** After the characters of a sub-text, lines 215-238. *)
Definition finish (wrapWidth : number) (s : Loop) : Loop :=
  let s :=
    if lt zero (charsWidth (word s)) then
      if lt wrapWidth (add (charsWidth (line s)) (charsWidth (word s)))
      then
        let o := _pushCharsToLines (out s) (line s) in
        let lineWidth := zero in
        let o := _pushCharsToLines o (word s) in
        mkLoop o
               (max (max (cur_width s) lineWidth) (charsWidth (word s)))
               (mkChars (chars (line s)) lineWidth (maxAscent (line s))
                  (maxDescent (line s)))
               (word s) true
      else mkLoop (out s) (cur_width s) (merge (line s) (word s))
                  (word s) (notFirstLine s)
    else s in
  if lt zero (charsWidth (line s))
  then mkLoop (_pushCharsToLines (out s) (line s))
              (raise (cur_width s) (charsWidth (line s)))
              (line s) (word s) true
  else s.

(** One iteration of the loop over the sub-texts, lines 119-238: the
    result arrays and [width] after it. *)
Definition subText_step (wrapWidth : number) (acc : Out * number)
    (subText : jsstring) : Out * number :=
  let s :=
    foldl (fun s char => char_step wrapWidth char s)
          (mkLoop acc.1 acc.2 none none false) subText in
  let s := finish wrapWidth s in
  (out s, cur_width s).

Definition measureTextWithWrap (renderer : TextRenderer) : TextMetrics :=
  let fontSizeInfo := measureFont in
  let subTexts := split (text renderer) in
  let pixelsPerUnit := _pixelsPerUnit in
  let lineHeight :=
    add (size fontSizeInfo) (mul (lineSpacing renderer) pixelsPerUnit) in
  let wrapWidth := mul (renderer_width renderer) pixelsPerUnit in
  let '(o, width) :=
    foldl (subText_step wrapWidth) (mkOut [] [] [], zero) subTexts in
  let height := mul (renderer_height renderer) pixelsPerUnit in
  let height :=
    if decide (overflowMode renderer = OverflowMode.Overflow)
    then mul lineHeight (of_nat (length (out_lines o)))
    else height in
  mkTextMetrics width height (out_lines o) (out_lineWidths o) lineHeight
    (out_lineMaxSizes o).

(** The loop over the characters of a line, lines 280-289. *)
Definition line_step (acc : number * number * number) (char : Z)
    : number * number * number :=
  let '(curWidth, maxAscent, maxDescent) := acc in
  let charInfo := _getCharInfo char in
  let curWidth := add curWidth (xAdvance charInfo) in
  let halfH := mul (h charInfo) half in
  let ascent := add halfH (offsetY charInfo) in
  let descent := sub halfH (offsetY charInfo) in
  (curWidth, raise maxAscent ascent, raise maxDescent descent).

Definition measure_line (line : jsstring) : number * FontSizeInfo :=
  let '(curWidth, maxAscent, maxDescent) :=
    foldl line_step (zero, minus_one, minus_one) line in
  (curWidth, mkFontSizeInfo maxAscent maxDescent (add maxAscent maxDescent)).

Definition measureTextWithoutWrap (renderer : TextRenderer)
    : TextMetrics :=
  let fontSizeInfo := measureFont in
  let lines := split (text renderer) in
  let lineCount := length lines in
  let lineHeight :=
    add (size fontSizeInfo)
        (mul (lineSpacing renderer) _pixelsPerUnit) in
  let height := mul (renderer_height renderer) _pixelsPerUnit in
  let height :=
    if decide (overflowMode renderer = OverflowMode.Overflow)
    then mul lineHeight (of_nat lineCount)
    else height in
  let measured := measure_line <$> lines in
  (* if (curWidth > width) width = curWidth *)
  let width := foldl (fun width m => raise width m.1) zero measured in
  mkTextMetrics width height lines (fst <$> measured) lineHeight
    (snd <$> measured).

(** The three arrays run in parallel and every size is the sum of its
    ascent and descent. *)
Definition parallel (lines : list jsstring) (lineWidths : list number)
    (lineMaxSizes : list FontSizeInfo) : Prop :=
  length lineWidths = length lines
  /\ length lineMaxSizes = length lines
  /\ Forall (fun i => size i = add (ascent i) (descent i)) lineMaxSizes.

(** The characters of a string other than the space. *)
Definition visible (s : jsstring) : jsstring :=
  filter (fun c => c <> 32) s.

(** [x > 0], and [x] is [0] or [x > 0]. *)
Definition positive (x : number) : Prop := lt zero x = true.
Definition not_negative (x : number) : Prop := x = zero \/ positive x.

(** A run is empty with width [0], or not empty with a width [> 0]. *)
Definition settled (c : Chars) : Prop :=
  (chars c = [] /\ charsWidth c = zero)
  \/ (chars c <> [] /\ positive (charsWidth c)).

(** The visible characters [v] consumed so far are those of the lines,
    the line and the word, in this order. *)
Definition kept (s : Loop) (v : list Z) : Prop :=
  visible (concat (out_lines (out s))) ++ visible (chars (line s))
  ++ visible (chars (word s)) = v
  /\ settled (line s) /\ settled (word s).

(** A run, or a line, is not wider than the wrap width, or holds at
    most one character. *)
Definition fits (wrapWidth : number) (s : jsstring) (width : number)
    : Prop :=
  lt wrapWidth width = false \/ (length s <= 1)%nat.

Definition fitting (wrapWidth : number) (s : Loop) : Prop :=
  Forall2 (fits wrapWidth) (out_lines (out s)) (out_lineWidths (out s))
  /\ fits wrapWidth (chars (line s)) (charsWidth (line s))
  /\ fits wrapWidth (chars (word s)) (charsWidth (word s))
  /\ settled (line s) /\ settled (word s).

Definition no_leading_space (s : jsstring) : Prop := head s <> Some 32.

(** The lines added to [before] by the current sub-text: none while
    [notFirstLine] is false, and only the first can begin with a
    space. *)
Definition continuing (before : list jsstring) (s : Loop) : Prop :=
  exists new,
    out_lines (out s) = before ++ new
    /\ Forall no_leading_space (tail new)
    /\ (notFirstLine s = false -> new = [])
    /\ (notFirstLine s = true -> no_leading_space (chars (line s)))
    /\ Forall (fun c => c <> 32) (chars (word s)).

Definition parallel_out (o : Out) : Prop :=
  parallel (out_lines o) (out_lineWidths o) (out_lineMaxSizes o).

(** The text without its line breaks. *)
Definition unbroken (s : jsstring) : jsstring :=
  filter (fun c => c <> 13 /\ c <> 10) s.

End Measure.
End TextUtils.

(** Rational arithmetic as an instance of the number operations, with
    every character 1 wide and 2 high. *)
Module TextWorld.

Definition numbers : Num.t :=
  {| Num.number := QArith_base.Q;
     Num.zero := QArith_base.Qmake 0 1;
     Num.minus_one := QArith_base.Qmake (-1) 1;
     Num.half := QArith_base.Qmake 1 2;
     Num.add := QArith_base.Qplus;
     Num.sub := QArith_base.Qminus;
     Num.mul := QArith_base.Qmult;
     Num.lt := fun a b =>
       match QArith_base.Qcompare a b with Lt => true | _ => false end;
     Num.max := fun a b => if QArith_base.Qle_bool a b then b else a;
     Num.of_nat := fun n => QArith_base.inject_Z (Z.of_nat n) |}.

Definition _getCharInfo (char : Z) : @TextUtils.CharInfo numbers :=
  @TextUtils.mkCharInfo numbers
    (QArith_base.Qmake 1 1) (QArith_base.Qmake 2 1)
    (QArith_base.Qmake 0 1) (QArith_base.Qmake 1 1).

Definition measureFont : @TextUtils.FontSizeInfo numbers :=
  @TextUtils.mkFontSizeInfo numbers
    (QArith_base.Qmake 1 1) (QArith_base.Qmake 1 1)
    (QArith_base.Qmake 2 1).

(** A renderer [width] wide for [text], with [_pixelsPerUnit] 1. *)
Definition renderer (text : jsstring) (width : Z)
    : @TextUtils.TextRenderer numbers :=
  @TextUtils.mkTextRenderer numbers text (QArith_base.Qmake 0 1)
    (QArith_base.Qmake width 1) (QArith_base.Qmake 10 1)
    OverflowMode.Overflow.

Definition measureTextWithWrap (text : jsstring) (width : Z) :=
  @TextUtils.measureTextWithWrap numbers _getCharInfo measureFont
    (QArith_base.Qmake 1 1) (renderer text width).

Definition measureTextWithoutWrap (text : jsstring) :=
  @TextUtils.measureTextWithoutWrap numbers _getCharInfo measureFont
    (QArith_base.Qmake 1 1) (renderer text 0).

(** "ab cd" and "a b\nc" *)
Definition ab_cd : jsstring := [97; 98; 32; 99; 100].
Definition a_b_nl_c : jsstring := [97; 32; 98; 10; 99].
(** "a   b\n c" *)
Definition a_spaces_b_nl_c : jsstring :=
  [97; 32; 32; 32; 98; 10; 32; 99].

End TextWorld.

(** ** Primitive meshes (mesh/PrimitiveMesh): the index buffers

    [createSphere], [createPlane] and [createCylinder] compute vertex
    positions in floating point and triangle indices in integers.  The
    model keeps the integer part: the number of vertices written and the
    index array.  The segment counts are taken after [Math.floor], as
    integers. *)
Module PrimitiveMesh.

Definition _uint16VertexLimit : Z := 65535.

Inductive Error :=
| OverLimit      (* Error("The vertex count is over limit.") *)
| RangeError.    (* a typed array of negative length *)

Inductive outcome (A : Type) :=
| Done (a : A)
| Raise (e : Error).
#[global] Arguments Done {A} a.
#[global] Arguments Raise {A} e.

(** A [Uint16Array] or [Uint32Array]. *)
Record Indices := mkIndices {
  format : ModelMesh.IndexFormat;
  items : list Z
}.

(** [new UintNArray(length)]: [length] zeros. *)
Definition newIndices (f : ModelMesh.IndexFormat) (length : Z)
    : outcome Indices :=
  if length <? 0 then Raise RangeError
  else Done (mkIndices f (replicate (Z.to_nat length) 0)).

(** The choice of the index array, by the number of vertices;
    [elementIndexUint] is
    [engine.renderhardware.canIUse(GLCapabilityType.elementIndexUint)]. *)
Definition allocate (elementIndexUint : bool) (vertexCount length : Z)
    : outcome Indices :=
  if _uint16VertexLimit <? vertexCount then
    if elementIndexUint then newIndices ModelMesh.UInt32 length
    else Raise OverLimit
  else newIndices ModelMesh.UInt16 length.

(** [indices[offset] = v]: the value is stored modulo 2^N, and a write
    beyond the end is dropped. *)
Definition set (a : Indices) (offset : nat) (v : Z) : Indices :=
  mkIndices (format a)
    (<[offset := v `mod` 2 ^ ModelMesh.bits (format a)]> (items a)).

(** [indices[offset++] = v] for each [v] of [vs], in order. *)
Definition put (st : Indices * nat) (vs : list Z) : Indices * nat :=
  foldl (fun '(a, offset) v => (set a offset v, S offset)) st vs.

(** The two orders in which the corners of a rectangle are written. *)
Inductive Winding := SphereOrder | PlaneOrder.

Definition corners (o : Winding) (a b c d : Z) : list Z :=
  match o with
  | SphereOrder => [b; a; d; a; c; d]
  | PlaneOrder => [b; c; a; b; d; c]
  end.

(** The mesh data the model keeps: [positions.length] and [indices]. *)
Record Mesh := mkMesh {
  vertices : Z;
  indices : Indices
}.

Section Row.

(** [(i * (1.0 / n)) | 0], the row of rectangle [i] in a grid [n]
    wide, computed in floating point. *)
Variable row : Z -> Z -> Z.

(** The corners of rectangle [i] of a grid [segments] wide whose
    vertex rows hold [count] vertices. *)
Definition rectangle (o : Winding) (segments count i : Z) : list Z :=
  let x := Z.rem i segments in
  let y := row i segments in
  let a := y * count + x in
  let b := a + 1 in
  let c := a + count in
  let d := c + 1 in
  corners o a b c d.

(** [for (let i = 0; i < rectangleCount; ++i) { ... }] *)
Definition rectangles (o : Winding) (segments count rectangleCount : Z)
    (st : Indices * nat) : Indices * nat :=
  foldl (fun st i => put st (rectangle o segments count i)) st
    (seqZ 0 rectangleCount).

Definition createSphere (elementIndexUint : bool) (segments : Z)
    : outcome Mesh :=
  let segments := Z.max 2 segments in
  let count := segments + 1 in
  let vertexCount := count * count in
  let rectangleCount := segments * segments in
  match allocate elementIndexUint vertexCount (rectangleCount * 6) with
  | Raise e => Raise e
  | Done indices =>
      Done (mkMesh (Z.max 0 vertexCount)
              (rectangles SphereOrder segments count rectangleCount
                 (indices, 0%nat)).1)
  end.

Definition createPlane (elementIndexUint : bool)
    (horizontalSegments verticalSegments : Z) : outcome Mesh :=
  let horizontalSegments := Z.max 1 horizontalSegments in
  let verticalSegments := Z.max 1 verticalSegments in
  let horizontalCount := horizontalSegments + 1 in
  let verticalCount := verticalSegments + 1 in
  let vertexCount := horizontalCount * verticalCount in
  let rectangleCount := verticalSegments * horizontalSegments in
  match allocate elementIndexUint vertexCount (rectangleCount * 6) with
  | Raise e => Raise e
  | Done indices =>
      Done (mkMesh (Z.max 0 vertexCount)
              (rectangles PlaneOrder horizontalSegments horizontalCount
                 rectangleCount (indices, 0%nat)).1)
  end.

(** The indices of the two cap triangles of segment [i]. *)
Definition cap (radialSegments torsoVertexCount i : Z) : list Z :=
  let topCapIndex := torsoVertexCount + 1 in
  let bottomIndiceIndex := torsoVertexCount + 2 in
  let topIndiceIndex := bottomIndiceIndex + 1 in
  let firstStride := i * 2 in
  let secondStride :=
    if i =? radialSegments - 1 then 0 else firstStride + 2 in
  [torsoVertexCount; bottomIndiceIndex + secondStride;
   bottomIndiceIndex + firstStride;
   topCapIndex; topIndiceIndex + firstStride;
   topIndiceIndex + secondStride].

Definition createCylinder (elementIndexUint : bool)
    (radialSegments heightSegments : Z) : outcome Mesh :=
  let radialCount := radialSegments + 1 in
  let verticalCount := heightSegments + 1 in
  let torsoVertexCount := radialCount * verticalCount in
  let torsoRectangleCount := radialSegments * heightSegments in
  let capTriangleCount := radialSegments * 2 in
  let totalVertexCount := torsoVertexCount + 2 + capTriangleCount in
  match allocate elementIndexUint totalVertexCount
          (torsoRectangleCount * 6 + capTriangleCount * 3) with
  | Raise e => Raise e
  | Done indices =>
      let st :=
        rectangles PlaneOrder radialSegments radialCount
          torsoRectangleCount (indices, 0%nat) in
      let st :=
        foldl (fun st i =>
                 put st (cap radialSegments torsoVertexCount i))
          st (seqZ 0 radialSegments) in
      (* torso vertices, the two cap centres, two per radial segment *)
      Done (mkMesh (Z.max 0 torsoVertexCount + 2
                    + 2 * Z.max 0 radialSegments)
              st.1)
  end.

End Row.

(** [written] is what has been stored so far in an array of [total]
    elements, the rest still being zero, and the offset stands after
    it. *)
Definition filled (total : nat) (st : Indices * nat) (written : list Z)
    : Prop :=
  items st.1 = written ++ replicate (total - length written) 0
  /\ st.2 = length written
  /\ (length written <= total)%nat.

(** Every index names a vertex. *)
Definition valid (m : Mesh) : Prop :=
  Forall (fun e => 0 <= e < vertices m) (items (indices m)).

End PrimitiveMesh.

(** * Properties *)

(** ** The mask diff *)

Section MaskDiff.
Import SpriteMaskManager.

Lemma ToInt32_range x : - 2 ^ 31 <= JS.ToInt32 x < 2 ^ 31.
Proof.
  unfold JS.ToInt32.
  pose proof (Z.mod_pos_bound (x + 2 ^ 31) (2 ^ 32) ltac:(lia)). lia.
Qed.

Lemma ToInt32_small x : - 2 ^ 31 <= x < 2 ^ 31 -> JS.ToInt32 x = x.
Proof.
  intros Hx. unfold JS.ToInt32. rewrite Z.mod_small by lia. lia.
Qed.

Lemma ToInt32_idemp x : JS.ToInt32 (JS.ToInt32 x) = JS.ToInt32 x.
Proof. apply ToInt32_small, ToInt32_range. Qed.

Lemma band_0_l x : JS.band 0 x = 0.
Proof. unfold JS.band. rewrite (ToInt32_small 0) by lia. apply Z.land_0_l. Qed.

Lemma band_0_r x : JS.band x 0 = 0.
Proof. unfold JS.band. rewrite (ToInt32_small 0) by lia. apply Z.land_0_r. Qed.

Lemma band_all_ones x y : JS.band x (JS.band y (JS.bnot 0)) = JS.band x y.
Proof.
  unfold JS.band, JS.bnot. rewrite (ToInt32_small 0) by lia.
  change (Z.lnot 0) with (-1). rewrite (ToInt32_small (-1)) by lia.
  rewrite Z.land_m1_r. by rewrite ToInt32_idemp.
Qed.

Lemma masks_loop_decision c a r camera masks :
  masks_loop c a r camera masks
  = omap (fun m => DrawElement (_maskElement m) camera
                     <$> decision c a r (SpriteMask.influenceLayers m))
      masks.
Proof.
  induction masks as [|m masks IH]; [done|].
  cbn [masks_loop omap list_omap]. unfold decision at 1.
  repeat case_match; simplify_eq/=; by rewrite ?IH.
Qed.

Lemma maskElement_inj m m' : _maskElement m = _maskElement m' -> m = m'.
Proof. by intros [=]. Qed.

Lemma draws_cons m op c calls :
  draws m op (c :: calls)
  = ((if is_draw m op c then 1 else 0) + draws m op calls)%nat.
Proof.
  unfold draws. rewrite filter_cons.
  destruct (is_draw m op c); by case_decide.
Qed.

Lemma draws_app m op calls calls' :
  draws m op (calls ++ calls') = (draws m op calls + draws m op calls')%nat.
Proof. unfold draws. by rewrite filter_app, length_app. Qed.

Lemma registrations_cons m x masks :
  registrations m (x :: masks)
  = ((if decide (x = m) then 1 else 0) + registrations m masks)%nat.
Proof. unfold registrations. rewrite filter_cons. by case_decide. Qed.

Lemma draws_masks_loop m op c a r camera masks :
  draws m op (masks_loop c a r camera masks)
  = if decide (decision c a r (SpriteMask.influenceLayers m) = Some op)
    then registrations m masks else 0%nat.
Proof.
  rewrite masks_loop_decision.
  induction masks as [|x masks IH].
  { by case_decide. }
  rewrite registrations_cons. cbn [omap list_omap].
  destruct (decide (x = m)) as [->|Hne].
  - destruct (decision c a r (SpriteMask.influenceLayers m)) as [o|] eqn:Hd;
      cbn [fmap option_fmap option_map].
    + rewrite draws_cons, IH. cbn [is_draw].
      rewrite bool_decide_eq_true_2 by done.
      destruct (decide (o = op)) as [->|Ho].
      * rewrite bool_decide_eq_true_2 by done. cbn.
        by rewrite !decide_True by done.
      * rewrite bool_decide_eq_false_2 by done. cbn.
        by rewrite !decide_False by congruence.
    + rewrite IH. by rewrite !decide_False by done.
  - destruct (decision c a r (SpriteMask.influenceLayers x)) as [o|];
      cbn [fmap option_fmap option_map].
    + rewrite draws_cons, IH. cbn [is_draw].
      rewrite bool_decide_eq_false_2
        by (intros H; by apply maskElement_inj in H).
      cbn. by case_decide.
    + rewrite IH. by case_decide.
Qed.

Lemma draws_preRender camera renderer this store m op :
  draws m op (preRender_calls camera renderer this store)
  = if decide (SpriteRenderer.maskInteraction renderer
               <> SpriteMaskInteraction.None
               /\ _preMaskLayer this <> SpriteRenderer.maskLayer renderer
               /\ decision
                    (JS.band (_preMaskLayer this)
                       (SpriteRenderer.maskLayer renderer))
                    (JS.band (SpriteRenderer.maskLayer renderer)
                       (JS.bnot (_preMaskLayer this)))
                    (JS.band (_preMaskLayer this)
                       (JS.bnot (SpriteRenderer.maskLayer renderer)))
                    (SpriteMask.influenceLayers m) = Some op)
    then registrations m (_allSpriteMasks this) else 0%nat.
Proof.
  unfold preRender_calls, preRender.
  destruct (decide (SpriteRenderer.maskInteraction renderer
                    = SpriteMaskInteraction.None)) as [Hn|Hn]; cbn [snd].
  { rewrite decide_False; [done|]. by intros [? _]. }
  rewrite !draws_app.
  assert (draws m op [Clear] = 0%nat) as -> by done.
  assert (draws m op [UploadAndDraw camera] = 0%nat) as -> by done.
  rewrite Nat.add_0_l, Nat.add_0_r.
  unfold _processMasksDiff. cbn [_preMaskLayer _allSpriteMasks].
  destruct (Z.eqb_spec (_preMaskLayer this)
              (SpriteRenderer.maskLayer renderer)) as [He|He]; cbn [negb].
  { rewrite decide_False; [done|]. by intros (_ & ? & _). }
  rewrite draws_masks_loop.
  case_decide; [by rewrite decide_True | by rewrite decide_False by tauto].
Qed.

Lemma preRender_calls_eq camera renderer this store :
  preRender_calls camera renderer this store
  = if decide (SpriteRenderer.maskInteraction renderer
               = SpriteMaskInteraction.None) then []
    else [Clear] ++ _processMasksDiff this camera renderer
                 ++ [UploadAndDraw camera].
Proof.
  unfold preRender_calls, preRender. by case_decide.
Qed.

End MaskDiff.

(** ** Claims on the mask diff *)

(** C1 (as the code has it).  For a renderer that interacts with masks and
    whose mask layer differs from the previous one, a registered mask is
    drawn once per registration with increment-saturate when its influence
    layers miss the common layer [prev & cur] and meet
    [toAdd = cur & ~prev]; once per registration with decrement-saturate
    when they miss the common layer and [toAdd] and meet
    [toRemove = prev & ~cur]; and not at all otherwise.  When
    [prev = cur], or the renderer does not interact with masks, nothing is
    drawn.  With [prev = 0b101] and [cur = 0b110], masks on [0b010],
    [0b001] and [0b100] get one increment, one decrement and no draw. *)
Theorem preRender_mask_diff camera renderer this store m :
  let prev := SpriteMaskManager._preMaskLayer this in
  let cur := SpriteRenderer.maskLayer renderer in
  let influence := SpriteMask.influenceLayers m in
  let common := JS.band prev cur in
  let toAdd := JS.band cur (JS.bnot prev) in
  let toRemove := JS.band prev (JS.bnot cur) in
  let diffed :=
    SpriteRenderer.maskInteraction renderer <> SpriteMaskInteraction.None
    /\ prev <> cur in
  let calls := preRender_calls camera renderer this store in
  let registered := registrations m (SpriteMaskManager._allSpriteMasks this) in
  draws m StencilOperation.IncrementSaturate calls
  = (if decide (diffed /\ JS.band influence common = 0
                /\ JS.band influence toAdd <> 0)
     then registered else 0%nat)
  /\ draws m StencilOperation.DecrementSaturate calls
     = (if decide (diffed /\ JS.band influence common = 0
                   /\ JS.band influence toAdd = 0
                   /\ JS.band influence toRemove <> 0)
        then registered else 0%nat)
  /\ (forall op, op <> StencilOperation.IncrementSaturate ->
                 op <> StencilOperation.DecrementSaturate ->
                 draws m op calls = 0%nat)
  /\ (let masks := [Scene.mask_on 1 2 1; Scene.mask_on 2 1 1;
                    Scene.mask_on 3 4 1] in
      stencil_draws
        (preRender_calls camera
           (Scene.renderer_on SpriteMaskInteraction.VisibleInsideMask 6)
           (Scene.manager_at 5 masks) store)
      = [DrawElement (_maskElement (Scene.mask_on 1 2 1)) camera
           StencilOperation.IncrementSaturate;
         DrawElement (_maskElement (Scene.mask_on 2 1 1)) camera
           StencilOperation.DecrementSaturate]).
Proof.
  intros prev cur influence common toAdd toRemove diffed calls registered.
  subst calls registered.
  assert (Hd : forall op,
    decision common toAdd toRemove influence = Some op <->
    (JS.band influence common = 0 /\
     ((op = StencilOperation.IncrementSaturate /\ JS.band influence toAdd <> 0)
      \/ (op = StencilOperation.DecrementSaturate
          /\ JS.band influence toAdd = 0
          /\ JS.band influence toRemove <> 0)))).
  { intros op. unfold decision, JS.truthy.
    destruct (Z.eqb_spec (JS.band influence common) 0);
      destruct (Z.eqb_spec (JS.band influence toAdd) 0);
      destruct (Z.eqb_spec (JS.band influence toRemove) 0);
      cbn [negb]; split; intros H; intuition (try congruence; try lia). }
  pose proof (Hd StencilOperation.IncrementSaturate) as Hinc.
  pose proof (Hd StencilOperation.DecrementSaturate) as Hdec.
  repeat split.
  - rewrite draws_preRender. apply decide_ext.
    fold prev cur common toAdd toRemove influence.
    rewrite Hinc. subst diffed. intuition congruence.
  - rewrite draws_preRender. apply decide_ext.
    fold prev cur common toAdd toRemove influence.
    rewrite Hdec. subst diffed. intuition congruence.
  - intros op H1 H2. rewrite draws_preRender.
    fold prev cur common toAdd toRemove influence.
    rewrite decide_False; [done|]. rewrite Hd. intuition congruence.
Qed.

(** C1 as stated fails: with [prev = 0b01] and [cur = 0b11] a registered
    mask on [0b11] meets [toAdd = 0b10], yet it is not drawn with
    increment-saturate, because it also meets the common layer. *)
Lemma preRender_mask_diff_counterexample :
  let m := Scene.mask_on 1 3 1 in
  let this := Scene.manager_at 1 [m] in
  let renderer := Scene.renderer_on SpriteMaskInteraction.VisibleInsideMask 3 in
  SpriteMaskManager._preMaskLayer this <> SpriteRenderer.maskLayer renderer
  /\ m ∈ SpriteMaskManager._allSpriteMasks this
  /\ JS.band (SpriteMask.influenceLayers m)
       (JS.band (SpriteRenderer.maskLayer renderer)
          (JS.bnot (SpriteMaskManager._preMaskLayer this))) <> 0
  /\ draws m StencilOperation.IncrementSaturate
       (preRender_calls 0 renderer this Scene.store) <> 1%nat.
Proof.
  cbn zeta. split; [done|]. split; [apply list_elem_of_here|].
  split; [by vm_compute|]. by vm_compute.
Qed.

(** The example of the claim, and an operation that is never used. *)
Lemma preRender_mask_diff_witness :
  let m := Scene.mask_on 1 2 1 in
  let this :=
    Scene.manager_at 5 [m; Scene.mask_on 2 1 1; Scene.mask_on 3 4 1] in
  let renderer := Scene.renderer_on SpriteMaskInteraction.VisibleInsideMask 6 in
  let calls := preRender_calls 0 renderer this Scene.store in
  draws m StencilOperation.IncrementSaturate calls = 1%nat
  /\ draws m StencilOperation.Keep calls = 0%nat.
Proof.
  intros m this renderer calls.
  destruct (preRender_mask_diff 0 renderer this Scene.store m)
    as (Hinc & _ & Hother & _).
  split.
  - etrans; [exact Hinc|reflexivity].
  - apply Hother; discriminate.
Defined.

(** C2.  When the mask layer changes, a registered mask whose influence
    layers meet the common layer [prev & cur] receives no stencil draw,
    whatever else its layers meet. *)
Theorem common_layer_mask_skipped camera renderer this store m op :
  SpriteRenderer.maskInteraction renderer <> SpriteMaskInteraction.None ->
  SpriteMaskManager._preMaskLayer this <> SpriteRenderer.maskLayer renderer ->
  m ∈ SpriteMaskManager._allSpriteMasks this ->
  JS.band (SpriteMask.influenceLayers m)
    (JS.band (SpriteMaskManager._preMaskLayer this)
       (SpriteRenderer.maskLayer renderer)) <> 0 ->
  draws m op (preRender_calls camera renderer this store) = 0%nat.
Proof.
  intros _ _ _ Hcommon. rewrite draws_preRender.
  rewrite decide_False; [done|]. intros (_ & _ & Hd).
  unfold decision, JS.truthy in Hd.
  apply Z.eqb_neq in Hcommon. by rewrite Hcommon in Hd.
Qed.

(** A mask on [0b11] between [prev = 0b01] and [cur = 0b11]: it meets the
    common layer and the add layer, and is skipped. *)
Lemma common_layer_mask_skipped_witness :
  let m := Scene.mask_on 1 3 1 in
  let this := Scene.manager_at 1 [m] in
  let renderer := Scene.renderer_on SpriteMaskInteraction.VisibleInsideMask 3 in
  JS.band 3 (JS.band 3 (JS.bnot 1)) <> 0
  /\ draws m StencilOperation.IncrementSaturate
       (preRender_calls 0 renderer this Scene.store) = 0%nat.
Proof.
  cbn zeta. split; [by vm_compute|].
  apply common_layer_mask_skipped.
  - done.
  - done.
  - apply list_elem_of_here.
  - by vm_compute.
Defined.

(** C5 (as the code has it).  For a renderer that interacts with masks and
    has mask layer [0], [preRender] issues no increment draw; it issues a
    decrement draw, once per registration, for exactly the masks whose
    influence layers meet the previous mask layer, hence none at all when
    the previous layer is [0] too.  A mask whose influence layers are [0]
    is never drawn by any [preRender]. *)
Theorem preRender_zero_layers camera renderer this store m :
  (SpriteRenderer.maskInteraction renderer <> SpriteMaskInteraction.None ->
   SpriteRenderer.maskLayer renderer = 0 ->
   let calls := preRender_calls camera renderer this store in
   draws m StencilOperation.IncrementSaturate calls = 0%nat
   /\ draws m StencilOperation.DecrementSaturate calls
      = (if decide (JS.band (SpriteMask.influenceLayers m)
                      (SpriteMaskManager._preMaskLayer this) <> 0)
         then registrations m (SpriteMaskManager._allSpriteMasks this)
         else 0%nat)
   /\ (SpriteMaskManager._preMaskLayer this = 0 -> stencil_draws calls = []))
  /\ (SpriteMask.influenceLayers m = 0 ->
      forall op,
        draws m op (preRender_calls camera renderer this store) = 0%nat).
Proof.
  split.
  - intros Hmasked Hcur calls. subst calls.
    rewrite !draws_preRender. rewrite Hcur.
    set (prev := SpriteMaskManager._preMaskLayer this).
    set (infl := SpriteMask.influenceLayers m).
    assert (Hdec : decision (JS.band prev 0) (JS.band 0 (JS.bnot prev))
                     (JS.band prev (JS.bnot 0)) infl
                   = if decide (JS.band infl prev <> 0)
                     then Some StencilOperation.DecrementSaturate else None).
    { unfold decision. rewrite band_0_r, band_0_l, band_0_r, band_all_ones.
      change (JS.truthy 0) with false. cbn iota. unfold JS.truthy.
      destruct (Z.eqb_spec (JS.band infl prev) 0);
        cbn [negb]; by case_decide. }
    rewrite Hdec. split; [|split].
    + rewrite decide_False; [done|]. intros (_ & _ & H).
      by case_decide.
    + destruct (decide (JS.band infl prev <> 0)) as [Hp|Hp].
      * rewrite decide_True; [done|]. repeat split; try done.
        intros Hz. apply Hp. subst prev. rewrite Hz. apply band_0_r.
      * rewrite decide_False; [done|]. by intros (_ & _ & ?).
    + intros Hprev. rewrite preRender_calls_eq.
      rewrite decide_False by done.
      unfold SpriteMaskManager._processMasksDiff.
      cbn [SpriteMaskManager._preMaskLayer]. fold prev.
      rewrite Hprev, Hcur. done.
  - intros Hinfl op. rewrite draws_preRender.
    rewrite decide_False; [done|]. intros (_ & _ & Hd).
    rewrite Hinfl in Hd. unfold decision in Hd.
    by rewrite !band_0_l in Hd.
Qed.

(** C5 as stated fails: a renderer with mask layer [0] that follows one on
    layer [0b1] makes [preRender] issue a decrement draw for the mask on
    that layer. *)
Lemma preRender_zero_layers_counterexample :
  let m := Scene.mask_on 1 1 1 in
  let this := Scene.manager_at 1 [m] in
  let renderer := Scene.renderer_on SpriteMaskInteraction.VisibleInsideMask 0 in
  SpriteRenderer.maskInteraction renderer <> SpriteMaskInteraction.None
  /\ SpriteRenderer.maskLayer renderer = 0
  /\ stencil_draws (preRender_calls 0 renderer this Scene.store)
     = [DrawElement (_maskElement m) 0 StencilOperation.DecrementSaturate].
Proof. cbn zeta. split; [done|]. split; [done|]. by vm_compute. Qed.

Lemma preRender_zero_layers_witness :
  let m := Scene.mask_on 1 1 1 in
  let renderer := Scene.renderer_on SpriteMaskInteraction.VisibleInsideMask 0 in
  draws m StencilOperation.IncrementSaturate
    (preRender_calls 0 renderer (Scene.manager_at 1 [m]) Scene.store) = 0%nat
  /\ draws (Scene.mask_on 2 0 1) StencilOperation.DecrementSaturate
       (preRender_calls 0 renderer
          (Scene.manager_at 1 [Scene.mask_on 2 0 1]) Scene.store) = 0%nat.
Proof.
  cbn zeta. split.
  - pose proof (preRender_zero_layers 0
             (Scene.renderer_on SpriteMaskInteraction.VisibleInsideMask 0)
             (Scene.manager_at 1 [Scene.mask_on 1 1 1]) Scene.store
             (Scene.mask_on 1 1 1)) as [H _].
    destruct H as (H & _ & _); [done|reflexivity|exact H].
  - pose proof (preRender_zero_layers 0
             (Scene.renderer_on SpriteMaskInteraction.VisibleInsideMask 0)
             (Scene.manager_at 1 [Scene.mask_on 2 0 1]) Scene.store
             (Scene.mask_on 2 0 1)) as [_ H].
    apply H. reflexivity.
Defined.

(** ** The batcher *)

Section BatcherFacts.
Context {E W : Type}.
Variable MAX_VERTEX_COUNT : Z.
Variable verticesNum : E -> Z.
Variable _canBatch : W -> E -> E -> bool.
Variable _drawBatches : list (list E) -> list (option E) -> W -> W.

Import Basic2DBatcher.

(** Chunking neither drops, duplicates nor reorders elements. *)
Lemma group_concat w acc pre rest :
  mjoin (group _canBatch w acc pre rest) = acc ++ pre :: rest.
Proof.
  revert acc pre. induction rest as [|cur rest IH]; intros acc pre.
  - cbn. by rewrite ?app_nil_r, <- ?app_assoc.
  - cbn [group]. destruct (_canBatch w pre cur).
    + rewrite IH. by rewrite <- ?app_assoc.
    + cbn. rewrite IH. by rewrite <- ?app_assoc.
Qed.

Lemma chunks_concat w queue : mjoin (chunks _canBatch w queue) = queue.
Proof. destruct queue; [done|]. apply group_concat. Qed.

Lemma elem_of_chunks w queue subMesh e :
  subMesh ∈ chunks _canBatch w queue -> e ∈ subMesh -> e ∈ queue.
Proof.
  intros Hs He. rewrite <- (chunks_concat w queue).
  apply list_elem_of_join. eauto.
Qed.

Lemma flush_queue s :
  _batchedQueue (fst (flush _canBatch _drawBatches s)) = [].
Proof.
  destruct s as [this w]. unfold flush.
  case_decide as Hlen; cbn [fst].
  - by apply length_zero_iff_nil.
  - by destruct (_updateData _ _ _).
Qed.

Lemma array_set_end (queue : list (option E)) e :
  JS.array_set queue (length queue) e = queue ++ [Some e].
Proof.
  unfold JS.array_set. rewrite decide_False by lia.
  by rewrite Nat.sub_diag.
Qed.

Lemma elem_of_array_set (queue : list (option E)) i e x :
  Some x ∈ JS.array_set queue i e -> x = e \/ Some x ∈ queue.
Proof.
  unfold JS.array_set. case_decide as Hi.
  - intros Hin. apply list_elem_of_lookup in Hin as [j Hj].
    destruct (decide (i = j)) as [->|Hne].
    + rewrite list_lookup_insert_eq in Hj by done. left. congruence.
    + rewrite list_lookup_insert_ne in Hj by done.
      right. apply list_elem_of_lookup. eauto.
  - rewrite !elem_of_app. intros [Hin|[Hin|Hin]].
    + by right.
    + by apply elem_of_replicate_inv in Hin.
    + apply list_elem_of_singleton in Hin. left. congruence.
Qed.

Lemma wf_empty : wf verticesNum (@empty E).
Proof. by exists []. Qed.

Lemma wf_clear this : wf verticesNum (clear this).
Proof. by exists []. Qed.

Lemma wf_flush s :
  wf verticesNum (fst s) ->
  wf verticesNum (fst (flush _canBatch _drawBatches s)).
Proof.
  destruct s as [this w]. unfold flush.
  case_decide; [done|]. destruct (_updateData _ _ _). intros _.
  by exists [].
Qed.

End BatcherFacts.

(** ** The mask batcher *)

Section MaskBatcherFacts.
Variable maxVertexCount : Z.
Import SpriteMaskBatcher.

Lemma copied_fields_set_passOperation op m :
  copied_fields (stencilState (renderState (set_passOperation op m)))
  = copied_fields (stencilState (renderState m)).
Proof. done. Qed.

(** Drawing masks writes the pass operation of mask materials only. *)
Lemma _drawBatches_from_copied_fields i subMeshes batchedQueue w mat :
  copied_fields
    (stencil_of (materials (_drawBatches_from i subMeshes batchedQueue w))
       mat)
  = copied_fields (stencil_of (materials w) mat).
Proof.
  revert i w. induction subMeshes as [|subMesh rest IH]; intros i w; [done|].
  cbn [_drawBatches_from].
  destruct (mjoin (batchedQueue !! i)) as [el|]; [|done].
  assert (Hstep :
    copied_fields
      (stencil_of
         (<[SpriteMaskElement.material el :=
              set_passOperation
                (if SpriteMaskElement.isAdd el
                 then StencilOperation.IncrementSaturate
                 else StencilOperation.DecrementSaturate)
                (materials w (SpriteMaskElement.material el))]>
            (materials w)) mat)
    = copied_fields (stencil_of (materials w) mat)).
  { unfold stencil_of.
    destruct (decide (SpriteMaskElement.material el = mat)) as [<-|Hne].
    - by rewrite fn_lookup_insert.
    - by rewrite fn_lookup_insert_ne. }
  destruct (negb _); [exact Hstep|].
  rewrite IH. exact Hstep.
Qed.

(** The events a run of [_drawBatches] adds draw sub-meshes it was
    given. *)
Lemma _drawBatches_from_events i subMeshes batchedQueue w :
  exists events,
    gpu (_drawBatches_from i subMeshes batchedQueue w) = gpu w ++ events
    /\ forall e, e ∈ drawn_masks events ->
                 exists subMesh, subMesh ∈ subMeshes /\ e ∈ subMesh.
Proof.
  revert i w. induction subMeshes as [|subMesh rest IH]; intros i w.
  { exists []. split; [by rewrite app_nil_r|]. by intros e ?%elem_of_nil. }
  cbn [_drawBatches_from].
  destruct (mjoin (batchedQueue !! i)) as [el|].
  2:{ exists []. split; [by rewrite app_nil_r|]. by intros e ?%elem_of_nil. }
  destruct (negb _).
  { exists []. split; [by rewrite app_nil_r|]. by intros e ?%elem_of_nil. }
  match goal with
  | |- context [_drawBatches_from (S i) rest batchedQueue ?w'] =>
      destruct (IH (S i) w') as (events & Hgpu & Hin)
  end.
  eexists (_ :: events). split.
  { rewrite Hgpu. cbn [gpu]. by rewrite <- app_assoc. }
  intros e He. unfold drawn_masks in He. cbn in He.
  apply elem_of_app in He as [He|He].
  - exists subMesh. split; [apply list_elem_of_here|done].
  - destruct (Hin e He) as (sm & Hsm & Hesm).
    exists sm. split; [by apply list_elem_of_further|done].
Qed.

(** What holds of a batcher state all along a run of calls: whatever is
    pending or has been drawn since the log was [log] comes from
    [source]. *)
Definition from (source : list SpriteMaskElement.t) (log : list GpuEvent)
    (s : state) : Prop :=
  (forall e, Some e ∈ Basic2DBatcher._batchedQueue (fst s) -> e ∈ source)
  /\ exists events,
       gpu (snd s) = log ++ events
       /\ forall e, e ∈ drawn_masks events -> e ∈ source.

Lemma from_flush source log s :
  from source log s ->
  from source log (Basic2DBatcher.flush _canBatch _drawBatches s).
Proof.
  intros [Hq (events & Hgpu & Hev)].
  split.
  { rewrite flush_queue. by intros e ?%elem_of_nil. }
  destruct s as [this w]. unfold Basic2DBatcher.flush.
  case_decide; [by exists events|].
  unfold Basic2DBatcher._updateData. cbn [snd].
  unfold _drawBatches.
  match goal with
  | |- context [_drawBatches_from 0 ?sm ?bq w] =>
      destruct (_drawBatches_from_events 0 sm bq w) as (new & Hnew & Hin)
  end.
  exists (events ++ new). split.
  { rewrite Hnew. cbn [snd] in Hgpu. rewrite Hgpu. by rewrite app_assoc. }
  intros e He. unfold drawn_masks in He. rewrite bind_app in He.
  apply elem_of_app in He as [He|He]; [by apply Hev|].
  destruct (Hin e He) as (sm & Hsm & Hesm).
  apply Hq. cbn [fst].
  pose proof (elem_of_chunks _canBatch _ _ _ _ Hsm Hesm) as Hom.
  apply list_elem_of_omap in Hom as (x & Hx & Hid).
  cbn in Hid. by subst x.
Qed.

Lemma from_draw source log element s :
  from source log s -> element ∈ source ->
  from source log
    (Basic2DBatcher.draw maxVertexCount verticesNum _canBatch _drawBatches
       element s).
Proof.
  intros Hs Hel. unfold Basic2DBatcher.draw.
  assert (Hs' : from source log
    (if Basic2DBatcher._vertexCount (fst s) + verticesNum element
        >? maxVertexCount
     then Basic2DBatcher.flush _canBatch _drawBatches s else s)).
  { destruct (_ >? _); [by apply from_flush|done]. }
  destruct (if _ >? _ then _ else _) as [this w].
  destruct Hs' as [Hq Hev]. split; [|done].
  intros e He. cbn in He.
  apply elem_of_array_set in He as [->|He]; [done|by apply Hq].
Qed.

Lemma from_perform calls : forall source log s,
  from source log s ->
  (forall e, e ∈ queued calls -> e ∈ source) ->
  from source log (perform maxVertexCount calls s).
Proof.
  induction calls as [|c calls IH]; intros source log s Hs Hsub; [done|].
  unfold perform. cbn [foldl]. apply IH.
  - destruct c as [|element camera op|camera]; cbn [call].
    + destruct Hs as [_ Hev]. split; [|done].
      cbn. by intros e ?%elem_of_nil.
    + apply from_draw; [done|]. apply Hsub. cbn. apply list_elem_of_here.
    + by apply from_flush.
  - intros e He. apply Hsub.
    destruct c; cbn; [done| |done]. by apply list_elem_of_further.
Qed.

(** [perform] leaves the copied stencil fields of every material as
    they were. *)
Lemma flush_copied_fields s mat :
  copied_fields
    (stencil_of
       (materials (snd (Basic2DBatcher.flush _canBatch _drawBatches s))) mat)
  = copied_fields (stencil_of (materials (snd s)) mat).
Proof.
  destruct s as [this w]. unfold Basic2DBatcher.flush.
  case_decide; [done|]. unfold Basic2DBatcher._updateData. cbn [snd].
  apply _drawBatches_from_copied_fields.
Qed.

Lemma call_copied_fields c s mat :
  copied_fields (stencil_of (materials (snd (call maxVertexCount c s))) mat)
  = copied_fields (stencil_of (materials (snd s)) mat).
Proof.
  destruct c as [|element camera op|camera]; cbn [call]; [done| |].
  - unfold drawElement, Basic2DBatcher.draw.
    pose proof (flush_copied_fields s mat) as Hf.
    destruct (_ >? _).
    + destruct (Basic2DBatcher.flush _ _ s). exact Hf.
    + by destruct s.
  - apply flush_copied_fields.
Qed.

Lemma perform_copied_fields calls : forall s mat,
  copied_fields
    (stencil_of (materials (snd (perform maxVertexCount calls s))) mat)
  = copied_fields (stencil_of (materials (snd s)) mat).
Proof.
  induction calls as [|c calls IH]; intros s mat; [done|].
  unfold perform. cbn [foldl].
  etrans; [apply IH|]. apply call_copied_fields.
Qed.

Lemma perform_app calls calls' s :
  perform maxVertexCount (calls ++ calls') s
  = perform maxVertexCount calls' (perform maxVertexCount calls s).
Proof. unfold perform. apply foldl_app. Qed.

End MaskBatcherFacts.

(** ** The mask pass *)

Section MaskPassFacts.
Variable maxVertexCount : Z.

Lemma MaskPass_preRender_eq camera renderer p :
  MaskPass.preRender maxVertexCount camera renderer p
  = let r := SpriteMaskManager.preRender camera renderer (maskManager p)
               (materials (world p)) in
    let s := SpriteMaskBatcher.perform maxVertexCount (snd r)
               (maskBatcher p,
                {| materials := snd (fst r); gpu := gpu (world p) |}) in
    {| maskManager := fst (fst r); maskBatcher := fst s; world := snd s |}.
Proof.
  unfold MaskPass.preRender.
  destruct (SpriteMaskManager.preRender _ _ _ _) as [[manager store] calls].
  cbn [fst snd]. by destruct (SpriteMaskBatcher.perform _ _ _).
Qed.

Lemma MaskPass_preRender_None camera renderer p :
  SpriteRenderer.maskInteraction renderer = SpriteMaskInteraction.None ->
  MaskPass.preRender maxVertexCount camera renderer p = p.
Proof.
  intros Hnone. rewrite MaskPass_preRender_eq.
  unfold SpriteMaskManager.preRender. rewrite decide_True by done.
  by destruct p as [manager batcher [store log]].
Qed.

Lemma MaskPass_postRender_None renderer p :
  SpriteRenderer.maskInteraction renderer = SpriteMaskInteraction.None ->
  MaskPass.postRender renderer p = p.
Proof.
  intros Hnone. unfold MaskPass.postRender, SpriteMaskManager.postRender.
  rewrite decide_True by done.
  by destruct p as [manager batcher [store log]].
Qed.

(** Between [preRender] and [postRender] the renderer's material carries
    the forced stencil fields: drawing the masks does not disturb
    them. *)
Lemma MaskPass_preRender_forces camera renderer p :
  SpriteRenderer.maskInteraction renderer <> SpriteMaskInteraction.None ->
  let mat := SpriteRenderer.getMaterial renderer in
  copied_fields
    (stencil_of
       (materials
          (world (MaskPass.preRender maxVertexCount camera renderer p)))
       mat)
  = copied_fields
      (SpriteMaskManager.forced (SpriteRenderer.maskInteraction renderer)
         (stencil_of (materials (world p)) mat)).
Proof.
  intros Hmasked mat. rewrite MaskPass_preRender_eq. cbn zeta. cbn [world].
  rewrite perform_copied_fields. cbn [snd materials].
  unfold SpriteMaskManager.preRender. rewrite decide_False by done.
  cbn [fst snd]. unfold stencil_of. fold mat.
  by rewrite fn_lookup_insert.
Qed.

End MaskPassFacts.

(** C9 (as the code has it).  For a renderer that interacts with masks,
    after [postRender] the stored previous mask layer is the renderer's
    mask layer, and the fields enabled, writeMask, referenceValue,
    compareFunctionFront and compareFunctionBack of its material's stencil
    state are what they were before the preceding [preRender].  For a
    renderer that does not interact with masks the two calls change
    nothing, the stored previous mask layer included. *)
Theorem postRender_restores maxVertexCount camera renderer p :
  let p' :=
    MaskPass.postRender renderer
      (MaskPass.preRender maxVertexCount camera renderer p) in
  let mat := SpriteRenderer.getMaterial renderer in
  (SpriteRenderer.maskInteraction renderer <> SpriteMaskInteraction.None ->
   SpriteMaskManager._preMaskLayer (maskManager p')
   = SpriteRenderer.maskLayer renderer
   /\ copied_fields (stencil_of (materials (world p')) mat)
      = copied_fields (stencil_of (materials (world p)) mat))
  /\ (SpriteRenderer.maskInteraction renderer = SpriteMaskInteraction.None ->
      p' = p).
Proof.
  intros p' mat. subst p'. split.
  - intros Hmasked. rewrite MaskPass_preRender_eq.
    unfold SpriteMaskManager.preRender. rewrite decide_False by done.
    cbn [fst snd].
    unfold MaskPass.postRender, SpriteMaskManager.postRender.
    rewrite decide_False by done.
    cbn [maskManager world materials SpriteMaskManager._preMaskLayer
         SpriteMaskManager._tempStencilState].
    split; [done|].
    fold mat. unfold stencil_of. rewrite fn_lookup_insert. done.
  - intros Hnone.
    by rewrite MaskPass_preRender_None, MaskPass_postRender_None.
Qed.

(** C9 as stated fails: for a renderer that does not interact with masks,
    [postRender] leaves the stored previous mask layer alone. *)
Lemma postRender_restores_counterexample :
  let renderer := Scene.renderer_on SpriteMaskInteraction.None 5 in
  let p' :=
    MaskPass.postRender renderer
      (MaskPass.preRender 128 0 renderer Scene.pipeline) in
  SpriteMaskManager._preMaskLayer (maskManager p')
  <> SpriteRenderer.maskLayer renderer.
Proof. by vm_compute. Qed.

Lemma postRender_restores_witness :
  let renderer := Scene.renderer_on SpriteMaskInteraction.VisibleInsideMask 3 in
  let p := MaskPass.addMask (Scene.mask_on 1 2 1) Scene.pipeline in
  let p' :=
    MaskPass.postRender renderer (MaskPass.preRender 128 0 renderer p) in
  SpriteMaskManager._preMaskLayer (maskManager p') = 3
  /\ copied_fields (stencil_of (materials (world p')) 2%nat)
     = copied_fields Scene.stencil.
Proof.
  cbn zeta.
  pose proof (postRender_restores 128 0
    (Scene.renderer_on SpriteMaskInteraction.VisibleInsideMask 3)
    (MaskPass.addMask (Scene.mask_on 1 2 1) Scene.pipeline)) as [H _].
  apply H. done.
Defined.

(** C10.  A [preRender] that computes the mask diff first empties the
    queue of the mask batcher ([clear] is its first call, and leaves the
    queue empty).  So what a [preRender] draws does not depend on what was
    pending in the batcher before: every mask element it draws was
    submitted by the diff of this very call, and it leaves nothing
    pending for a later one.  A [preRender] of a renderer that does not
    interact with masks computes no diff, makes no call and draws
    nothing. *)
Theorem preRender_draws_current_diff_only maxVertexCount camera renderer p :
  let this := maskManager p in
  let diff := SpriteMaskManager._processMasksDiff this camera renderer in
  let p' := MaskPass.preRender maxVertexCount camera renderer p in
  preRender_calls camera renderer this (materials (world p))
  = (if decide (SpriteRenderer.maskInteraction renderer
                = SpriteMaskInteraction.None) then []
     else Clear :: diff ++ [UploadAndDraw camera])
  /\ (forall s,
        Basic2DBatcher._batchedQueue
          (fst (SpriteMaskBatcher.call maxVertexCount Clear s)) = [])
  /\ (forall stale,
        world (MaskPass.preRender maxVertexCount camera renderer
                 (with_maskBatcher stale p))
        = world p')
  /\ (exists events,
        gpu (world p') = gpu (world p) ++ events
        /\ forall e, e ∈ drawn_masks events -> e ∈ queued diff)
  /\ (SpriteRenderer.maskInteraction renderer <> SpriteMaskInteraction.None
      \/ Basic2DBatcher._batchedQueue (maskBatcher p) = [] ->
      Basic2DBatcher._batchedQueue (maskBatcher p') = []).
Proof.
  intros this diff p'. subst p'.
  split; [apply preRender_calls_eq|]. split; [done|].
  assert (Hrun : SpriteRenderer.maskInteraction renderer
                 <> SpriteMaskInteraction.None ->
    forall b,
      exists w,
        SpriteMaskBatcher.perform maxVertexCount
          (snd (SpriteMaskManager.preRender camera renderer this
                  (materials (world p))))
          (b, {| materials :=
                   snd (fst (SpriteMaskManager.preRender camera renderer this
                               (materials (world p))));
                 gpu := gpu (world p) |})
        = Basic2DBatcher.flush SpriteMaskBatcher._canBatch
            SpriteMaskBatcher._drawBatches
            (SpriteMaskBatcher.perform maxVertexCount diff
               (Basic2DBatcher.empty, w))
        /\ gpu w = gpu (world p)).
  { intros Hmasked b. unfold SpriteMaskManager.preRender.
    rewrite decide_False by done. cbn [fst snd].
    eexists. split.
    - change ([Clear] ++ ?x) with (Clear :: x).
      unfold SpriteMaskBatcher.perform at 1.
      cbn [foldl SpriteMaskBatcher.call fst snd].
      rewrite foldl_app. reflexivity.
    - reflexivity. }
  split; [|split].
  - intros stale. rewrite !MaskPass_preRender_eq.
    cbn [with_maskBatcher maskManager maskBatcher world]. fold this.
    cbn zeta. cbn [world].
    destruct (decide (SpriteRenderer.maskInteraction renderer
                      = SpriteMaskInteraction.None)) as [Hnone|Hmasked].
    + unfold SpriteMaskManager.preRender. by rewrite decide_True by done.
    + unfold SpriteMaskManager.preRender. rewrite decide_False by done.
      reflexivity.
  - destruct (decide (SpriteRenderer.maskInteraction renderer
                      = SpriteMaskInteraction.None)) as [Hnone|Hmasked].
    { rewrite MaskPass_preRender_None by done.
      exists []. split; [by rewrite app_nil_r|]. by intros e ?%elem_of_nil. }
    rewrite MaskPass_preRender_eq. cbn zeta. cbn [world]. fold this.
    destruct (Hrun Hmasked (maskBatcher p)) as (w & -> & Hw).
    assert (Hs : from (queued diff) (gpu (world p))
                   (SpriteMaskBatcher.perform maxVertexCount diff
                      (Basic2DBatcher.empty, w))).
    { apply from_perform; [|done]. split.
      - cbn. by intros e ?%elem_of_nil.
      - exists []. split; [by rewrite app_nil_r|]. by intros e ?%elem_of_nil. }
    apply from_flush in Hs. by destruct Hs as [_ Hevents].
  - intros Hmasked.
    destruct (decide (SpriteRenderer.maskInteraction renderer
                      = SpriteMaskInteraction.None)) as [Hnone|Hmasked'].
    { rewrite MaskPass_preRender_None by done. by destruct Hmasked. }
    rewrite MaskPass_preRender_eq. cbn zeta.
    cbn [maskBatcher]. fold this.
    destruct (Hrun Hmasked' (maskBatcher p)) as (w & -> & _).
    apply flush_queue.
Qed.

Lemma preRender_draws_current_diff_only_witness :
  let renderer := Scene.renderer_on SpriteMaskInteraction.VisibleInsideMask 3 in
  let p := MaskPass.addMask (Scene.mask_on 1 2 1) Scene.pipeline in
  Basic2DBatcher._batchedQueue
    (maskBatcher (MaskPass.preRender 128 0 renderer p)) = []
  /\ gpu (world (MaskPass.preRender 128 0 renderer p))
     = [DrawMasks
          [SpriteMaskBatcher.submitted (_maskElement (Scene.mask_on 1 2 1)) 0
             StencilOperation.IncrementSaturate]
          1%nat
          (renderState
             (SpriteMaskBatcher.set_passOperation
                StencilOperation.IncrementSaturate (Scene.store 1%nat)))].
Proof.
  cbn zeta. split.
  - pose proof (preRender_draws_current_diff_only 128 0
      (Scene.renderer_on SpriteMaskInteraction.VisibleInsideMask 3)
      (MaskPass.addMask (Scene.mask_on 1 2 1) Scene.pipeline))
      as (_ & _ & _ & _ & H).
    apply H. by left.
  - reflexivity.
Defined.

(** ** Shaders are not touched by the mask pass *)

Section ShaderFacts.
Variable maxVertexCount : Z.
Import SpriteMaskBatcher.

Lemma mask_drawBatches_from_shader i subMeshes batchedQueue w mat :
  shader (materials (_drawBatches_from i subMeshes batchedQueue w) mat)
  = shader (materials w mat).
Proof.
  revert i w. induction subMeshes as [|subMesh rest IH]; intros i w; [done|].
  cbn [_drawBatches_from].
  destruct (mjoin (batchedQueue !! i)) as [el|]; [|done].
  assert (Hstep :
    shader ((<[SpriteMaskElement.material el :=
                set_passOperation
                  (if SpriteMaskElement.isAdd el
                   then StencilOperation.IncrementSaturate
                   else StencilOperation.DecrementSaturate)
                  (materials w (SpriteMaskElement.material el))]>
              (materials w)) mat)
    = shader (materials w mat)).
  { destruct (decide (SpriteMaskElement.material el = mat)) as [<-|Hne].
    - by rewrite fn_lookup_insert.
    - by rewrite fn_lookup_insert_ne. }
  destruct (negb _); [exact Hstep|].
  rewrite IH. exact Hstep.
Qed.

Lemma flush_shader s mat :
  shader (materials
            (snd (Basic2DBatcher.flush _canBatch _drawBatches s)) mat)
  = shader (materials (snd s) mat).
Proof.
  destruct s as [this w]. unfold Basic2DBatcher.flush.
  case_decide; [done|]. unfold Basic2DBatcher._updateData. cbn [snd].
  apply mask_drawBatches_from_shader.
Qed.

Lemma call_shader c s mat :
  shader (materials (snd (call maxVertexCount c s)) mat)
  = shader (materials (snd s) mat).
Proof.
  destruct c as [|element camera op|camera]; cbn [call]; [done| |].
  - unfold drawElement, Basic2DBatcher.draw.
    pose proof (flush_shader s mat) as Hf.
    destruct (_ >? _).
    + destruct (Basic2DBatcher.flush _ _ s). exact Hf.
    + by destruct s.
  - apply flush_shader.
Qed.

Lemma perform_shader calls : forall s mat,
  shader (materials (snd (perform maxVertexCount calls s)) mat)
  = shader (materials (snd s) mat).
Proof.
  induction calls as [|c calls IH]; intros s mat; [done|].
  unfold perform. cbn [foldl].
  etrans; [apply IH|]. apply call_shader.
Qed.

Lemma MaskPass_preRender_shader camera renderer p mat :
  shader (materials
            (world (MaskPass.preRender maxVertexCount camera renderer p))
            mat)
  = shader (materials (world p) mat).
Proof.
  rewrite MaskPass_preRender_eq. cbn zeta. cbn [world].
  rewrite perform_shader. cbn [snd materials].
  unfold SpriteMaskManager.preRender. case_decide; cbn [fst snd]; [done|].
  destruct (decide (SpriteRenderer.getMaterial renderer = mat)) as [<-|Hne].
  - by rewrite fn_lookup_insert.
  - by rewrite fn_lookup_insert_ne.
Qed.

Lemma MaskPass_postRender_shader renderer p mat :
  shader (materials (world (MaskPass.postRender renderer p)) mat)
  = shader (materials (world p) mat).
Proof.
  unfold MaskPass.postRender, SpriteMaskManager.postRender.
  case_decide; cbn [world materials]; [done|].
  destruct (decide (SpriteRenderer.getMaterial renderer = mat)) as [<-|Hne].
  - by rewrite fn_lookup_insert.
  - by rewrite fn_lookup_insert_ne.
Qed.

(** The mask pass draws masks only. *)
Lemma mask_drawBatches_from_sprites i subMeshes batchedQueue w :
  sprite_subMeshes (gpu (_drawBatches_from i subMeshes batchedQueue w))
  = sprite_subMeshes (gpu w).
Proof.
  revert i w. induction subMeshes as [|subMesh rest IH]; intros i w; [done|].
  cbn [_drawBatches_from].
  destruct (mjoin (batchedQueue !! i)) as [el|]; [|done].
  destruct (negb _); [done|].
  rewrite IH. cbn [gpu]. unfold sprite_subMeshes.
  rewrite omap_app. cbn. by rewrite app_nil_r.
Qed.

Lemma flush_sprites s :
  sprite_subMeshes
    (gpu (snd (Basic2DBatcher.flush _canBatch _drawBatches s)))
  = sprite_subMeshes (gpu (snd s)).
Proof.
  destruct s as [this w]. unfold Basic2DBatcher.flush.
  case_decide; [done|]. unfold Basic2DBatcher._updateData. cbn [snd].
  apply mask_drawBatches_from_sprites.
Qed.

Lemma call_sprites c s :
  sprite_subMeshes (gpu (snd (call maxVertexCount c s)))
  = sprite_subMeshes (gpu (snd s)).
Proof.
  destruct c as [|element camera op|camera]; cbn [call]; [done| |].
  - unfold drawElement, Basic2DBatcher.draw.
    pose proof (flush_sprites s) as Hf.
    destruct (_ >? _).
    + destruct (Basic2DBatcher.flush _ _ s). exact Hf.
    + by destruct s.
  - apply flush_sprites.
Qed.

Lemma perform_sprites calls : forall s,
  sprite_subMeshes (gpu (snd (perform maxVertexCount calls s)))
  = sprite_subMeshes (gpu (snd s)).
Proof.
  induction calls as [|c calls IH]; intros s; [done|].
  unfold perform. cbn [foldl].
  etrans; [apply IH|]. apply call_sprites.
Qed.

Lemma MaskPass_preRender_sprites camera renderer p :
  sprite_subMeshes
    (gpu (world (MaskPass.preRender maxVertexCount camera renderer p)))
  = sprite_subMeshes (gpu (world p)).
Proof.
  rewrite MaskPass_preRender_eq. cbn zeta. cbn [world].
  by rewrite perform_sprites.
Qed.

Lemma MaskPass_postRender_gpu renderer p :
  gpu (world (MaskPass.postRender renderer p)) = gpu (world p).
Proof.
  unfold MaskPass.postRender, SpriteMaskManager.postRender.
  by case_decide.
Qed.

End ShaderFacts.

(** ** Where [_drawBatches] stops *)

Section DrawBatchesFacts.
Variable maskMaxVertexCount : Z.

Lemma mask_subMeshes_snoc events subMesh material applied :
  mask_subMeshes (events ++ [DrawMasks subMesh material applied])
  = mask_subMeshes events ++ [subMesh].
Proof. unfold mask_subMeshes. by rewrite omap_app. Qed.

Lemma sprite_subMeshes_snoc events subMesh material applied :
  sprite_subMeshes (events ++ [DrawSprites subMesh material applied])
  = sprite_subMeshes events ++ [subMesh].
Proof. unfold sprite_subMeshes. by rewrite omap_app. Qed.

Lemma compiles_set_passOperation store m op mat :
  compiles (<[m := SpriteMaskBatcher.set_passOperation op (store m)]> store)
    mat
  = compiles store mat.
Proof.
  unfold compiles. destruct (decide (m = mat)) as [<-|Hne].
  - by rewrite fn_lookup_insert.
  - by rewrite fn_lookup_insert_ne.
Qed.

(** The mask batcher draws the sub-meshes before the first one whose
    element is missing or whose program is invalid, and no other. *)
Lemma mask_drawBatches_from_stops batchedQueue rest : forall j w i,
  (forall k, (k < i)%nat ->
     exists el, mjoin (batchedQueue !! (j + k)%nat) = Some el
                /\ compiles (materials w) (SpriteMaskElement.material el)
                   = true) ->
  (i = length rest
   \/ (i < length rest)%nat
      /\ forall el, mjoin (batchedQueue !! (j + i)%nat) = Some el ->
                    compiles (materials w) (SpriteMaskElement.material el)
                    = false) ->
  mask_subMeshes
    (gpu (SpriteMaskBatcher._drawBatches_from j rest batchedQueue w))
  = mask_subMeshes (gpu w) ++ take i rest.
Proof.
  induction rest as [|subMesh rest IH]; intros j w i Hbefore Hat.
  { cbn. rewrite take_nil. by rewrite app_nil_r. }
  cbn [SpriteMaskBatcher._drawBatches_from].
  destruct i as [|i].
  - destruct Hat as [Hlen|[_ Hbad]]; [done|].
    rewrite Nat.add_0_r in Hbad. cbn [take]. rewrite app_nil_r.
    destruct (mjoin (batchedQueue !! j)) as [el|]; [|done].
    fold (compiles
            (<[SpriteMaskElement.material el :=
                 SpriteMaskBatcher.set_passOperation
                   (if SpriteMaskElement.isAdd el
                    then StencilOperation.IncrementSaturate
                    else StencilOperation.DecrementSaturate)
                   (materials w (SpriteMaskElement.material el))]>
               (materials w))
            (SpriteMaskElement.material el)).
    rewrite compiles_set_passOperation, (Hbad el eq_refl). done.
  - destruct (Hbefore 0%nat ltac:(lia)) as (el & Hel & Hok).
    rewrite Nat.add_0_r in Hel. rewrite Hel.
    fold (compiles
            (<[SpriteMaskElement.material el :=
                 SpriteMaskBatcher.set_passOperation
                   (if SpriteMaskElement.isAdd el
                    then StencilOperation.IncrementSaturate
                    else StencilOperation.DecrementSaturate)
                   (materials w (SpriteMaskElement.material el))]>
               (materials w))
            (SpriteMaskElement.material el)).
    rewrite compiles_set_passOperation, Hok. cbn [negb].
    rewrite (IH (S j) _ i).
    + cbn [gpu take]. rewrite mask_subMeshes_snoc. by rewrite <- app_assoc.
    + intros k Hk. destruct (Hbefore (S k) ltac:(lia)) as (el' & Hel' & Hok').
      exists el'. cbn [materials]. rewrite compiles_set_passOperation.
      split; [|done]. by replace (S j + k)%nat with (j + S k)%nat by lia.
    + cbn [materials].
      destruct Hat as [Hlen|[Hlt Hbad]].
      * left. cbn in Hlen. lia.
      * right. split; [cbn in Hlt; lia|].
        intros el' Hel'. rewrite compiles_set_passOperation.
        apply Hbad. by replace (j + S i)%nat with (S j + i)%nat by lia.
Qed.

(** The same for the sprite batcher, whose loop runs the mask pass
    around each draw. *)
Lemma sprite_drawBatches_from_stops batchedQueue rest : forall j p i,
  (forall k, (k < i)%nat ->
     exists el, mjoin (batchedQueue !! (j + k)%nat) = Some el
                /\ compiles (materials (world p))
                     (SpriteElement.material el) = true) ->
  (i = length rest
   \/ (i < length rest)%nat
      /\ forall el, mjoin (batchedQueue !! (j + i)%nat) = Some el ->
                    compiles (materials (world p))
                      (SpriteElement.material el) = false) ->
  sprite_subMeshes
    (gpu (world (SpriteBatcher._drawBatches_from maskMaxVertexCount j rest
                   batchedQueue p)))
  = sprite_subMeshes (gpu (world p)) ++ take i rest.
Proof.
  induction rest as [|subMesh rest IH]; intros j p i Hbefore Hat.
  { cbn. rewrite take_nil. by rewrite app_nil_r. }
  cbn [SpriteBatcher._drawBatches_from].
  assert (Hcompiles : forall renderer camera mat,
    program_isValid
      (shader (materials
                 (world (MaskPass.preRender maskMaxVertexCount camera
                           renderer p)) mat))
    = compiles (materials (world p)) mat).
  { intros. by rewrite MaskPass_preRender_shader. }
  destruct i as [|i].
  - destruct Hat as [Hlen|[_ Hbad]]; [done|].
    rewrite Nat.add_0_r in Hbad. cbn [take]. rewrite app_nil_r.
    destruct (mjoin (batchedQueue !! j)) as [el|]; [|done].
    rewrite Hcompiles, (Hbad el eq_refl). cbn [negb].
    apply MaskPass_preRender_sprites.
  - destruct (Hbefore 0%nat ltac:(lia)) as (el & Hel & Hok).
    rewrite Nat.add_0_r in Hel. rewrite Hel.
    rewrite Hcompiles, Hok. cbn [negb].
    match goal with
    | |- context [SpriteBatcher._drawBatches_from _ (S j) rest
                    batchedQueue ?p2] =>
        assert (Hshader : forall mat,
          compiles (materials (world p2)) mat
          = compiles (materials (world p)) mat)
    end.
    { intros mat. unfold compiles.
      rewrite MaskPass_postRender_shader. cbn [world materials].
      by rewrite MaskPass_preRender_shader. }
    rewrite (IH (S j) _ i).
    + rewrite MaskPass_postRender_gpu. cbn [world gpu take].
      rewrite sprite_subMeshes_snoc, MaskPass_preRender_sprites.
      by rewrite <- app_assoc.
    + intros k Hk. destruct (Hbefore (S k) ltac:(lia)) as (el' & Hel' & Hok').
      exists el'. rewrite Hshader.
      split; [|done]. by replace (S j + k)%nat with (j + S k)%nat by lia.
    + destruct Hat as [Hlen|[Hlt Hbad]].
      * left. cbn in Hlen. lia.
      * right. split; [cbn in Hlt; lia|].
        intros el' Hel'. rewrite Hshader.
        apply Hbad. by replace (j + S i)%nat with (S j + i)%nat by lia.
Qed.

End DrawBatchesFacts.

(** C3 (as the code has it).  In [_drawBatches], of the mask batcher and
    of the sprite batcher alike, when the chunks before chunk [i] have a
    valid program and chunk [i] has not, the chunks before [i] are drawn
    and neither chunk [i] nor any later chunk is.  The flush goes on to
    reset the batcher: the failure is not an error. *)
Theorem invalid_program_ends_drawBatches maskMaxVertexCount :
  (forall subMeshes batchedQueue w i bad,
     (forall k, (k < i)%nat ->
        exists el, mjoin (batchedQueue !! k) = Some el
                   /\ compiles (materials w) (SpriteMaskElement.material el)
                      = true) ->
     (i < length subMeshes)%nat ->
     mjoin (batchedQueue !! i) = Some bad ->
     compiles (materials w) (SpriteMaskElement.material bad) = false ->
     mask_subMeshes
       (gpu (SpriteMaskBatcher._drawBatches subMeshes batchedQueue w))
     = mask_subMeshes (gpu w) ++ take i subMeshes)
  /\ (forall subMeshes batchedQueue p i bad,
        (forall k, (k < i)%nat ->
           exists el, mjoin (batchedQueue !! k) = Some el
                      /\ compiles (materials (world p))
                           (SpriteElement.material el) = true) ->
        (i < length subMeshes)%nat ->
        mjoin (batchedQueue !! i) = Some bad ->
        compiles (materials (world p)) (SpriteElement.material bad) = false ->
        sprite_subMeshes
          (gpu (world (SpriteBatcher._drawBatches maskMaxVertexCount subMeshes
                         batchedQueue p)))
        = sprite_subMeshes (gpu (world p)) ++ take i subMeshes)
  /\ (forall s,
        Basic2DBatcher._batchedQueue
          (fst (SpriteMaskBatcher.uploadAndDraw 0 s)) = [])
  /\ (forall s,
        Basic2DBatcher._batchedQueue
          (fst (SpriteBatcher.flush maskMaxVertexCount s)) = []).
Proof.
  split; [|split; [|split]].
  - intros subMeshes batchedQueue w i bad Hbefore Hi Hbad Hinvalid.
    apply mask_drawBatches_from_stops; [done|].
    right. split; [done|]. intros el Hel. cbn in Hel. congruence.
  - intros subMeshes batchedQueue p i bad Hbefore Hi Hbad Hinvalid.
    apply sprite_drawBatches_from_stops; [done|].
    right. split; [done|]. intros el Hel. cbn in Hel. congruence.
  - intros s. apply flush_queue.
  - intros s. apply flush_queue.
Qed.

(** C3 as stated fails: two mask elements that do not batch, the first
    with a material whose shader yields no valid program, the second with
    a sound one.  The flush draws nothing: the second chunk is not
    attempted. *)
Lemma invalid_program_ends_drawBatches_counterexample :
  let bad := _maskElement (Scene.mask_on 1 1 7) in
  let good := _maskElement (Scene.mask_on 2 1 1) in
  let s :=
    SpriteMaskBatcher.perform 128
      [DrawElement bad 0 StencilOperation.IncrementSaturate;
       DrawElement good 0 StencilOperation.IncrementSaturate]
      (Basic2DBatcher.empty, {| materials := Scene.store; gpu := [] |}) in
  Basic2DBatcher.chunks SpriteMaskBatcher._canBatch (snd s)
    (omap id (Basic2DBatcher._batchedQueue (fst s)))
  = [[SpriteMaskBatcher.submitted bad 0 StencilOperation.IncrementSaturate];
     [SpriteMaskBatcher.submitted good 0 StencilOperation.IncrementSaturate]]
  /\ compiles Scene.store (SpriteMaskElement.material good) = true
  /\ gpu (snd (SpriteMaskBatcher.uploadAndDraw 0 s)) = [].
Proof. cbn zeta. split; [reflexivity|]. split; reflexivity. Qed.

Lemma invalid_program_ends_drawBatches_witness :
  let good := SpriteMaskBatcher.submitted (_maskElement (Scene.mask_on 2 1 1))
                0 StencilOperation.IncrementSaturate in
  let bad := SpriteMaskBatcher.submitted (_maskElement (Scene.mask_on 1 1 7))
               0 StencilOperation.IncrementSaturate in
  mask_subMeshes
    (gpu (SpriteMaskBatcher._drawBatches [[good]; [bad]; [good]]
            [Some good; Some bad; Some good]
            {| materials := Scene.store; gpu := [] |}))
  = [[good]].
Proof.
  intros good bad.
  pose proof (invalid_program_ends_drawBatches 128) as [H _].
  apply (H [[good]; [bad]; [good]] [Some good; Some bad; Some good]
           {| materials := Scene.store; gpu := [] |} 1%nat bad).
  - intros k Hk. assert (k = 0%nat) as -> by lia.
    exists good. split; reflexivity.
  - cbn. lia.
  - reflexivity.
  - reflexivity.
Defined.

(** ** The sprite batcher *)

Section SpriteBatcherFacts.
Variable MAX_VERTEX_COUNT : Z.
Variable maskMaxVertexCount : Z.

Lemma drawSprite_eq e s :
  SpriteBatcher.drawSprite MAX_VERTEX_COUNT maskMaxVertexCount e s
  = let s0 :=
      if Basic2DBatcher._vertexCount (fst s) + SpriteBatcher.verticesNum e
         >? MAX_VERTEX_COUNT
      then SpriteBatcher.flush maskMaxVertexCount s else s in
    (Basic2DBatcher.push SpriteBatcher.verticesNum e (fst s0), snd s0).
Proof.
  unfold SpriteBatcher.drawSprite.
  fold (SpriteBatcher.verticesNum e).
  by destruct (if _ >? _ then _ else _).
Qed.

Lemma wf_push (this : Basic2DBatcher.t SpriteElement.t) e pending :
  Basic2DBatcher._batchedQueue this = Some <$> pending ->
  Basic2DBatcher._elementCount this = length pending ->
  Basic2DBatcher._vertexCount this
  = foldr Z.add 0 (SpriteBatcher.verticesNum <$> pending) ->
  let this' := Basic2DBatcher.push SpriteBatcher.verticesNum e this in
  Basic2DBatcher._batchedQueue this' = Some <$> (pending ++ [e])
  /\ Basic2DBatcher._elementCount this' = length (pending ++ [e])
  /\ Basic2DBatcher._vertexCount this'
     = foldr Z.add 0 (SpriteBatcher.verticesNum <$> pending ++ [e]).
Proof.
  intros Hq Hn Hv. cbn. rewrite Hq, Hn, Hv. repeat split.
  - rewrite <- (length_fmap Some pending), array_set_end.
    by rewrite fmap_app.
  - rewrite length_app. cbn. lia.
  - rewrite fmap_app, foldr_app. cbn.
    generalize (SpriteBatcher.verticesNum e). clear.
    induction pending as [|x pending IH]; intros z; cbn; [lia|].
    rewrite <- IH. lia.
Qed.

Lemma reachable_wf s :
  SpriteBatcher.reachable MAX_VERTEX_COUNT maskMaxVertexCount s ->
  Basic2DBatcher.wf SpriteBatcher.verticesNum (fst s).
Proof.
  induction 1 as [p|e s _ IH|s _ IH|s _ IH|this p p' _ IH].
  - apply wf_empty.
  - rewrite drawSprite_eq. cbn zeta. cbn [fst].
    assert (Hwf : Basic2DBatcher.wf SpriteBatcher.verticesNum
                    (fst (if Basic2DBatcher._vertexCount (fst s)
                             + SpriteBatcher.verticesNum e
                             >? MAX_VERTEX_COUNT
                          then SpriteBatcher.flush maskMaxVertexCount s
                          else s))).
    { destruct (_ >? _); [by apply wf_flush|done]. }
    destruct Hwf as (pending & Hq & Hn & Hv).
    exists (pending ++ [e]). by apply wf_push.
  - by apply wf_flush.
  - apply wf_clear.
  - done.
Qed.

End SpriteBatcherFacts.

(** C6.  In every state a sprite batcher can be in, [drawSprite(element)]
    flushes first when the accumulated vertex count plus the element's
    exceeds the maximum, which hands every pending element to the draw
    and leaves the queue empty; then, and in every other case directly,
    it appends the element, whole, exactly once at the end of the queue,
    and adds its vertex count to the accumulator. *)
Theorem drawSprite_appends_once MAX_VERTEX_COUNT maskMaxVertexCount e s :
  SpriteBatcher.reachable MAX_VERTEX_COUNT maskMaxVertexCount s ->
  let over :=
    Basic2DBatcher._vertexCount (fst s) + SpriteBatcher.verticesNum e
    >? MAX_VERTEX_COUNT in
  let s0 := if over then SpriteBatcher.flush maskMaxVertexCount s else s in
  let s' := SpriteBatcher.drawSprite MAX_VERTEX_COUNT maskMaxVertexCount e s in
  exists before pending,
    Basic2DBatcher._batchedQueue (fst s) = Some <$> before
    /\ Basic2DBatcher._batchedQueue (fst s0) = Some <$> pending
    /\ (over = true ->
        pending = []
        /\ mjoin (fst (Basic2DBatcher._updateData SpriteBatcher._canBatch
                         (snd s) (Basic2DBatcher._batchedQueue (fst s))))
           = before)
    /\ (over = false -> pending = before)
    /\ Basic2DBatcher._batchedQueue (fst s') = Some <$> (pending ++ [e])
    /\ Basic2DBatcher._elementCount (fst s') = length (pending ++ [e])
    /\ Basic2DBatcher._vertexCount (fst s')
       = foldr Z.add 0 (SpriteBatcher.verticesNum <$> pending ++ [e])
    /\ snd s' = snd s0.
Proof.
  intros Hreach over s0 s'.
  pose proof (reachable_wf _ _ _ Hreach) as (before & Hq & Hn & Hv).
  assert (Hwf0 : Basic2DBatcher.wf SpriteBatcher.verticesNum (fst s0)).
  { subst s0. destruct over; [apply wf_flush|]; by exists before. }
  destruct Hwf0 as (pending & Hq0 & Hn0 & Hv0).
  exists before, pending.
  split; [done|]. split; [done|]. split; [|split].
  - intros Hover. subst s0. rewrite Hover in Hq0. split.
    + unfold SpriteBatcher.flush in Hq0. rewrite flush_queue in Hq0.
      by destruct pending.
    + unfold Basic2DBatcher._updateData. cbn [fst].
      rewrite chunks_concat, Hq. clear.
      induction before as [|x before IH]; [done|]. cbn. by rewrite IH.
  - intros Hover. subst s0. rewrite Hover in Hq0. rewrite Hq in Hq0.
    clear -Hq0. revert pending Hq0.
    induction before as [|x before IH]; intros [|y pending] [=]; [done|].
    subst. f_equal. by apply IH.
  - subst s'. rewrite drawSprite_eq. cbn zeta. fold over. fold s0.
    cbn [fst snd].
    destruct (wf_push (fst s0) e pending Hq0 Hn0 Hv0) as (H1 & H2 & H3).
    done.
Qed.

(** With a budget of six vertices, a second quad overflows: the first is
    flushed, the second is queued alone. *)
Lemma drawSprite_appends_once_witness :
  let s :=
    SpriteBatcher.drawSprite 6 128 (Scene.sprite 1 1)
      (Basic2DBatcher.empty, Scene.pipeline) in
  let s' := SpriteBatcher.drawSprite 6 128 (Scene.sprite 1 2) s in
  SpriteBatcher.reachable 6 128 s
  /\ Basic2DBatcher._batchedQueue (fst s') = [Some (Scene.sprite 1 2)]
  /\ sprite_subMeshes (gpu (world (snd s'))) = [[Scene.sprite 1 1]].
Proof.
  intros s s'.
  assert (Hs : SpriteBatcher.reachable 6 128 s)
    by (apply SpriteBatcher.reach_drawSprite, SpriteBatcher.reach_new).
  split; [exact Hs|].
  destruct (drawSprite_appends_once 6 128 (Scene.sprite 1 2) s Hs)
    as (before & pending & _ & _ & Hover & _ & Hq & _).
  destruct (Hover eq_refl) as [-> _].
  split; [exact Hq|reflexivity].
Defined.

(** ** The mesh data buffer *)

Section MeshFacts.
Import ModelMesh.

Lemma newTypedArray_range f (raw : list Z) v :
  v ∈ (fun v => v `mod` 2 ^ bits f) <$> raw -> 0 <= v < 2 ^ bits f.
Proof.
  intros (x & -> & _)%list_elem_of_fmap.
  apply Z.mod_pos_bound. destruct f; cbn; lia.
Qed.

Lemma get_uploadData_false k m :
  get k (uploadData false m) = get k m.
Proof. done. Qed.

Lemma getIndices_uploadData_false m :
  getIndices (uploadData false m) = getIndices m.
Proof. done. Qed.

Lemma set_ok k h values m :
  accessible m = true ->
  array_length h values = Ok (vertexCount m) ->
  exists m',
    set k h values m = Ok m'
    /\ accessible m' = true
    /\ vertexCount m' = vertexCount m
    /\ _attributes m' k = Some values.
Proof.
  intros Hacc Hlen.
  assert (Hset : forall changed,
    let m' := store_attribute k values (vertexCount m) changed m in
    accessible m' = true /\ vertexCount m' = vertexCount m
    /\ _attributes m' k = Some values).
  { intros changed. cbn. by rewrite fn_lookup_insert. }
  destruct k; cbn [set]; unfold setPositions, setAttribute;
    rewrite Hacc, Hlen; cbn [negb bind];
    rewrite ?bool_decide_eq_true_2 by done; cbn [negb];
    eexists; (split; [reflexivity|]); apply Hset.
Qed.

(** The expectations of the test-suite, replayed on the model. *)

Example test_set_position_data :
  (m <- setPositions Fixture.heap Fixture.positionsX create ;;
   Ok (vertexCount m)) = Ok 4%nat
  /\ (m <- Fixture.mesh ;; Ok (vertexCount m)) = Ok 3%nat.
Proof. by vm_compute. Qed.

Example test_set_data_not_same_size :
  (m <- Fixture.mesh ;; setAttribute Colors Fixture.heap Fixture.falsyColors m)
  = Throw SizeMismatch
  /\ message SizeMismatch
     = "The array provided needs to be the same size as vertex count."%string.
Proof. by vm_compute. Qed.

Example test_upload_data_reallocates :
  (m <- Fixture.mesh ;;
   m <- setAttribute Colors Fixture.heap Fixture.colors m ;;
   let m1 := uploadData false m in
   m2 <- setPositions Fixture.heap Fixture.positionsX m1 ;;
   let m3 := uploadData false m2 in
   m4 <- setIndices Fixture.heap None m3 ;;
   Ok (vertexCount m2, _vertexCountChanged m2,
       bool_decide (_verticesFloat32 m1 = _verticesFloat32 m3),
       _indices m4))
  = Ok (4%nat, true, false, None).
Proof. by vm_compute. Qed.

End MeshFacts.

(** C4 (as the test-suite has it).  [setIndices] with a typed array stores
    the index width of that array, 8, 16 or 32 bits, which holds every
    index value of the array and need not be the least such width; the
    indices [0,1,2] set as an 8-bit, then a 16-bit, then a 32-bit array
    give the formats UInt8, UInt16 and UInt32. *)
Theorem setIndices_format_of_array h r f raw m :
  ModelMesh.accessible m = true ->
  h !! r = Some (ModelMesh.newTypedArray f raw) ->
  (exists m',
     ModelMesh.setIndices h (Some r) m = ModelMesh.Ok m'
     /\ ModelMesh._indicesFormat m' = Some f
     /\ ModelMesh._indices m' = Some r
     /\ ModelMesh.accessible m' = true)
  /\ (forall values,
        ModelMesh.newTypedArray f raw = ModelMesh.TypedArray f values ->
        forall v, v ∈ values -> 0 <= v < 2 ^ ModelMesh.bits f)
  /\ (let format r :=
        ModelMesh.bind r (fun m => ModelMesh.Ok (ModelMesh._indicesFormat m)) in
      let m1 :=
        ModelMesh.bind Fixture.mesh
          (ModelMesh.setIndices Fixture.heap (Some Fixture.indices)) in
      let m2 :=
        ModelMesh.bind m1
          (ModelMesh.setIndices Fixture.heap (Some Fixture.indices16)) in
      let m3 :=
        ModelMesh.bind m2
          (ModelMesh.setIndices Fixture.heap (Some Fixture.indices32)) in
      format m1 = ModelMesh.Ok (Some ModelMesh.UInt8)
      /\ format m2 = ModelMesh.Ok (Some ModelMesh.UInt16)
      /\ format m3 = ModelMesh.Ok (Some ModelMesh.UInt32)).
Proof.
  intros Hacc Hr. split; [|split].
  - unfold ModelMesh.setIndices. rewrite Hacc, Hr. cbn.
    eexists. by repeat split.
  - intros values [= <-] v Hv. by eapply newTypedArray_range.
  - by vm_compute.
Qed.

(** C4 as stated fails: the indices [0,1,2] fit 8 bits, yet set as a
    16-bit array they are stored with the format UInt16. *)
Lemma setIndices_format_of_array_counterexample :
  ModelMesh.bind
    (ModelMesh.bind Fixture.mesh
       (ModelMesh.setIndices Fixture.heap (Some Fixture.indices16)))
    (fun m => ModelMesh.Ok (ModelMesh._indicesFormat m))
  = ModelMesh.Ok (Some ModelMesh.UInt16)
  /\ ModelMesh.minimal_format [0; 1; 2] = ModelMesh.UInt8
  /\ Some ModelMesh.UInt16 <> Some (ModelMesh.minimal_format [0; 1; 2]).
Proof. by vm_compute. Qed.

Lemma setIndices_format_of_array_witness :
  exists m',
    ModelMesh.setIndices Fixture.heap (Some Fixture.indices16)
      ModelMesh.create = ModelMesh.Ok m'
    /\ ModelMesh._indicesFormat m' = Some ModelMesh.UInt16
    /\ ModelMesh._indices m' = Some Fixture.indices16
    /\ ModelMesh.accessible m' = true.
Proof.
  pose proof (setIndices_format_of_array Fixture.heap Fixture.indices16
                ModelMesh.UInt16 [0; 1; 2] ModelMesh.create) as H.
  destruct H as [H _]; [reflexivity|reflexivity|]. exact H.
Defined.

(** C7.  After [uploadData(true)] every getter and every setter of the
    data buffer, for positions, colors, normals, UV0 to UV7, tangents,
    weights, joints and indices, throws "Not allowed to access data
    while accessible is false."; none returns normally. *)
Theorem access_denied_after_release h m a :
  ModelMesh.access h a (ModelMesh.uploadData true m)
  = ModelMesh.Throw ModelMesh.AccessDenied
  /\ ModelMesh.message ModelMesh.AccessDenied
     = "Not allowed to access data while accessible is false."%string.
Proof.
  split; [|done].
  destruct a as [k|k values| |values]; cbn [ModelMesh.access].
  - done.
  - by destruct k.
  - done.
  - done.
Qed.

(** C8.  While the mesh is accessible, setting an attribute to an array
    whose length is the vertex count succeeds, and the getter of that
    attribute then returns the very array that was set, by reference;
    so do the index setter and getter.  Any number of
    [uploadData(false)] keeps it so; after [uploadData(true)] the getter
    throws instead. *)
Theorem set_get_same_instance h m :
  ModelMesh.accessible m = true ->
  (forall k values,
     ModelMesh.array_length h values = ModelMesh.Ok (ModelMesh.vertexCount m) ->
     exists m',
       ModelMesh.set k h values m = ModelMesh.Ok m'
       /\ (forall n,
             ModelMesh.get k (Nat.iter n (ModelMesh.uploadData false) m')
             = ModelMesh.Ok (Some values))
       /\ ModelMesh.get k (ModelMesh.uploadData true m')
          = ModelMesh.Throw ModelMesh.AccessDenied)
  /\ (forall r f values,
        h !! r = Some (ModelMesh.TypedArray f values) ->
        exists m',
          ModelMesh.setIndices h (Some r) m = ModelMesh.Ok m'
          /\ (forall n,
                ModelMesh.getIndices
                  (Nat.iter n (ModelMesh.uploadData false) m')
                = ModelMesh.Ok (Some r))
          /\ ModelMesh.getIndices (ModelMesh.uploadData true m')
             = ModelMesh.Throw ModelMesh.AccessDenied).
Proof.
  intros Hacc. split.
  - intros k values Hlen.
    destruct (set_ok k h values m Hacc Hlen) as (m' & Hset & Hacc' & _ & Hk).
    exists m'. split; [done|]. split; [|done].
    induction n as [|n IH]; simpl Nat.iter.
    + unfold ModelMesh.get. by rewrite Hacc', Hk.
    + by rewrite get_uploadData_false.
  - intros r f values Hr. unfold ModelMesh.setIndices. rewrite Hacc, Hr.
    cbn [negb]. eexists. split; [reflexivity|]. split; [|done].
    induction n as [|n IH]; simpl Nat.iter.
    + unfold ModelMesh.getIndices. cbn. by rewrite Hacc.
    + by rewrite getIndices_uploadData_false.
Qed.

(** The colours of the test-suite, set on the mesh of three vertices and
    read back after an upload that keeps the data. *)
Lemma set_get_same_instance_witness :
  ModelMesh.bind
    (ModelMesh.bind Fixture.mesh
       (ModelMesh.set ModelMesh.Colors Fixture.heap Fixture.colors))
    (fun m => ModelMesh.get ModelMesh.Colors (ModelMesh.uploadData false m))
  = ModelMesh.Ok (Some Fixture.colors).
Proof.
  destruct Fixture.mesh as [m|] eqn:Hm; [|discriminate Hm].
  assert (Hacc : ModelMesh.accessible m = true).
  { revert Hm. vm_compute. by intros [= <-]. }
  assert (Hcount : ModelMesh.array_length Fixture.heap Fixture.colors
                   = ModelMesh.Ok (ModelMesh.vertexCount m)).
  { revert Hm. vm_compute. by intros [= <-]. }
  destruct (set_get_same_instance Fixture.heap m Hacc) as [H _].
  destruct (H ModelMesh.Colors Fixture.colors Hcount) as (m' & Hset & Hget & _).
  cbn [ModelMesh.bind]. rewrite Hset. cbn [ModelMesh.bind].
  exact (Hget 1%nat).
Defined.

(** * Further properties *)

(** ** The mask diff, continued *)

Section MaskDiffMore.
Import SpriteMaskManager.

Lemma band_comm a b : JS.band a b = JS.band b a.
Proof. unfold JS.band. apply Z.land_comm. Qed.

Lemma registrations_le m masks : (registrations m masks <= length masks)%nat.
Proof. unfold registrations. apply length_filter. Qed.

Lemma stencil_draws_masks_loop c a r camera masks :
  stencil_draws (masks_loop c a r camera masks)
  = masks_loop c a r camera masks.
Proof.
  induction masks as [|m masks IH]; [done|].
  cbn [masks_loop]. unfold stencil_draws in *.
  repeat case_match; rewrite ?filter_cons; cbn; by rewrite ?IH.
Qed.

Lemma stencil_draws_preRender camera renderer this store :
  stencil_draws (preRender_calls camera renderer this store)
  = if decide (SpriteRenderer.maskInteraction renderer
               = SpriteMaskInteraction.None) then []
    else _processMasksDiff this camera renderer.
Proof.
  rewrite preRender_calls_eq. case_decide; [done|].
  unfold stencil_draws. rewrite !filter_app.
  change (filter _ [Clear]) with (@nil BatcherCall).
  change (filter _ [UploadAndDraw camera]) with (@nil BatcherCall).
  rewrite app_nil_l, app_nil_r.
  unfold _processMasksDiff. destruct (negb _); [|done].
  apply stencil_draws_masks_loop.
Qed.

Lemma drawn_elements_masks_loop c a r camera masks :
  drawn_elements (masks_loop c a r camera masks)
    `sublist_of` (_maskElement <$> masks).
Proof.
  induction masks as [|m masks IH]; [done|].
  cbn [masks_loop fmap list_fmap].
  repeat case_match; cbn;
    (by apply sublist_cons) || (by apply sublist_skip).
Qed.

Lemma omap_length_le {A B} (f : A -> option B) (l : list A) :
  (length (omap f l) <= length l)%nat.
Proof.
  induction l as [|x l IH]; [done|]. cbn. destruct (f x); cbn; lia.
Qed.

End MaskDiffMore.

(** X1.  One [preRender] never draws the same mask with both operations,
    never draws it more often than it is registered, and issues at most
    one stencil draw per registry entry. *)
Theorem preRender_one_operation_per_mask camera renderer this store m :
  let calls := preRender_calls camera renderer this store in
  let masks := SpriteMaskManager._allSpriteMasks this in
  (draws m StencilOperation.IncrementSaturate calls = 0%nat
   \/ draws m StencilOperation.DecrementSaturate calls = 0%nat)
  /\ (draws m StencilOperation.IncrementSaturate calls
      + draws m StencilOperation.DecrementSaturate calls
      <= registrations m masks)%nat
  /\ (length (stencil_draws calls) <= length masks)%nat.
Proof.
  intros calls masks. subst calls masks.
  rewrite !draws_preRender.
  split; [|split].
  - repeat case_decide; try (by left); try (by right).
    exfalso. intuition congruence.
  - repeat case_decide; try lia. exfalso. intuition congruence.
  - rewrite stencil_draws_preRender. case_decide; [cbn; lia|].
    unfold SpriteMaskManager._processMasksDiff. destruct (negb _); [|cbn; lia].
    rewrite masks_loop_decision. apply omap_length_le.
Qed.

(** X2.  The masks a [preRender] draws are drawn in registration order:
    the elements drawn form a subsequence of the elements of the
    registered masks. *)
Theorem preRender_draws_in_registration_order camera renderer this store :
  drawn_elements (preRender_calls camera renderer this store)
    `sublist_of` (_maskElement <$> SpriteMaskManager._allSpriteMasks this).
Proof.
  rewrite preRender_calls_eq. case_decide; [apply sublist_nil_l|].
  unfold drawn_elements. rewrite !omap_app. cbn [omap list_omap].
  rewrite app_nil_l, app_nil_r.
  unfold SpriteMaskManager._processMasksDiff.
  destruct (negb _); [|apply sublist_nil_l].
  apply drawn_elements_masks_loop.
Qed.

(** X3.  Going from mask layer [prev] to [cur] and back: a mask that the
    way there increments and that misses [prev & ~cur] is decremented on
    the way back, as often; one that the way there decrements and that
    misses [cur & ~prev] is incremented on the way back.  A mask that
    misses the common layer but meets both [cur & ~prev] and [prev & ~cur]
    is incremented both ways. *)
Theorem mask_diff_there_and_back camera there back this this' m :
  SpriteRenderer.maskInteraction there <> SpriteMaskInteraction.None ->
  SpriteRenderer.maskInteraction back <> SpriteMaskInteraction.None ->
  SpriteMaskManager._allSpriteMasks this'
  = SpriteMaskManager._allSpriteMasks this ->
  SpriteMaskManager._preMaskLayer this' = SpriteRenderer.maskLayer there ->
  SpriteRenderer.maskLayer back = SpriteMaskManager._preMaskLayer this ->
  let prev := SpriteMaskManager._preMaskLayer this in
  let cur := SpriteRenderer.maskLayer there in
  let influence := SpriteMask.influenceLayers m in
  let toAdd := JS.band cur (JS.bnot prev) in
  let toRemove := JS.band prev (JS.bnot cur) in
  forall store store',
  let forth := preRender_calls camera there this store in
  let return_ := preRender_calls camera back this' store' in
  (JS.band influence toRemove = 0 ->
   draws m StencilOperation.DecrementSaturate return_
   = draws m StencilOperation.IncrementSaturate forth)
  /\ (JS.band influence toAdd = 0 ->
      draws m StencilOperation.IncrementSaturate return_
      = draws m StencilOperation.DecrementSaturate forth)
  /\ (prev <> cur -> JS.band influence (JS.band prev cur) = 0 ->
      JS.band influence toAdd <> 0 -> JS.band influence toRemove <> 0 ->
      draws m StencilOperation.IncrementSaturate forth
      = registrations m (SpriteMaskManager._allSpriteMasks this)
      /\ draws m StencilOperation.IncrementSaturate return_
         = registrations m (SpriteMaskManager._allSpriteMasks this)).
Proof.
  intros Hthere Hback Hmasks Hprev' Hcur' prev cur influence toAdd toRemove
    store store' forth return_.
  subst forth return_. rewrite !draws_preRender.
  rewrite Hmasks, Hprev', Hcur'. fold prev cur influence.
  rewrite (band_comm cur prev). fold toAdd toRemove.
  set (common := JS.band prev cur).
  unfold decision, JS.truthy.
  destruct (Z.eqb_spec (JS.band influence common) 0) as [Hc|Hc];
    destruct (Z.eqb_spec (JS.band influence toAdd) 0) as [Ha|Ha];
    destruct (Z.eqb_spec (JS.band influence toRemove) 0) as [Hr|Hr];
    cbn [negb];
    (split; [|split]); intros;
    repeat case_decide; try done; try (exfalso; intuition congruence).
Qed.

Lemma mask_diff_there_and_back_witness :
  let m := Scene.mask_on 1 2 1 in
  let this := Scene.manager_at 5 [m] in
  let this' := Scene.manager_at 6 [m] in
  let there := Scene.renderer_on SpriteMaskInteraction.VisibleInsideMask 6 in
  let back := Scene.renderer_on SpriteMaskInteraction.VisibleOutsideMask 5 in
  draws m StencilOperation.DecrementSaturate
    (preRender_calls 0 back this' Scene.store) = 1%nat.
Proof.
  intros m this this' there back.
  destruct (mask_diff_there_and_back 0 there back this this' m)
    with (store := Scene.store) (store' := Scene.store) as (H & _ & _);
    [done|done|done|done|done|].
  etrans; [apply H; reflexivity|reflexivity].
Defined.

(** X4.  At the start of a frame: after [clear] and the registration of
    the masks [ms], the first [preRender] of a renderer that interacts
    with masks increments, once per registration, exactly the masks whose
    influence layers meet the renderer's mask layer, and decrements
    none. *)
Theorem first_preRender_after_clear camera renderer this store ms m :
  let this' :=
    foldl (fun t x => SpriteMaskManager.addMask x t)
      (fst (SpriteMaskManager.clear this)) ms in
  let calls := preRender_calls camera renderer this' store in
  SpriteMaskManager._allSpriteMasks this' = ms
  /\ SpriteMaskManager._preMaskLayer this' = 0
  /\ draws m StencilOperation.IncrementSaturate calls
     = (if decide (SpriteRenderer.maskInteraction renderer
                   <> SpriteMaskInteraction.None
                   /\ JS.band (SpriteMask.influenceLayers m)
                        (SpriteRenderer.maskLayer renderer) <> 0)
        then registrations m ms else 0%nat)
  /\ draws m StencilOperation.DecrementSaturate calls = 0%nat.
Proof.
  intros this' calls.
  assert (Hfold : forall t,
    SpriteMaskManager._allSpriteMasks
      (foldl (fun t x => SpriteMaskManager.addMask x t) t ms)
    = SpriteMaskManager._allSpriteMasks t ++ ms
    /\ SpriteMaskManager._preMaskLayer
         (foldl (fun t x => SpriteMaskManager.addMask x t) t ms)
       = SpriteMaskManager._preMaskLayer t).
  { induction ms as [|x ms IH]; intros t; cbn [foldl].
    - by rewrite app_nil_r.
    - destruct (IH (SpriteMaskManager.addMask x t)) as [-> ->].
      cbn. by rewrite <- app_assoc. }
  destruct (Hfold (fst (SpriteMaskManager.clear this))) as [Hmasks Hprev].
  change (SpriteMaskManager._allSpriteMasks this' = ms) in Hmasks.
  change (SpriteMaskManager._preMaskLayer this' = 0) in Hprev.
  split; [done|]. split; [done|].
  subst calls. rewrite !draws_preRender, Hmasks, Hprev.
  set (cur := SpriteRenderer.maskLayer renderer).
  set (infl := SpriteMask.influenceLayers m).
  assert (Hdec : decision (JS.band 0 cur) (JS.band cur (JS.bnot 0))
                   (JS.band 0 (JS.bnot cur)) infl
                 = if decide (JS.band infl cur <> 0)
                   then Some StencilOperation.IncrementSaturate else None).
  { unfold decision. rewrite !band_0_l, band_0_r, band_all_ones.
    change (JS.truthy 0) with false. cbn iota. unfold JS.truthy.
    destruct (Z.eqb_spec (JS.band infl cur) 0); cbn [negb]; by case_decide. }
  rewrite Hdec. split.
  - destruct (decide (JS.band infl cur <> 0)) as [Hm|Hm].
    + apply decide_ext. split; [tauto|]. intros [Hi _].
      repeat split; try done.
      intros Hz. apply Hm. rewrite <- Hz. apply band_0_r.
    + rewrite !decide_False; [done|tauto|]. by intros (_ & _ & ?).
  - rewrite decide_False; [done|]. intros (_ & _ & H). by case_decide.
Qed.

(** ** The save slot of the stencil state *)

Section SaveSlot.
Variable maxVertexCount : Z.

(** A [preRender] on any other material leaves the copied fields of
    [mat] alone, and a [postRender] on another material too. *)
Lemma MaskPass_preRender_other camera renderer p mat :
  SpriteRenderer.getMaterial renderer <> mat ->
  copied_fields
    (stencil_of
       (materials (world (MaskPass.preRender maxVertexCount camera renderer p)))
       mat)
  = copied_fields (stencil_of (materials (world p)) mat).
Proof.
  intros Hne. rewrite MaskPass_preRender_eq. cbn zeta. cbn [world].
  rewrite perform_copied_fields. cbn [snd materials].
  unfold SpriteMaskManager.preRender. case_decide; cbn [fst snd]; [done|].
  unfold stencil_of. by rewrite fn_lookup_insert_ne.
Qed.

Lemma MaskPass_postRender_other renderer p mat :
  SpriteRenderer.getMaterial renderer <> mat ->
  copied_fields (stencil_of (materials (world (MaskPass.postRender renderer p)))
                   mat)
  = copied_fields (stencil_of (materials (world p)) mat).
Proof.
  intros Hne. unfold MaskPass.postRender, SpriteMaskManager.postRender.
  case_decide; cbn [world materials]; [done|].
  unfold stencil_of. by rewrite fn_lookup_insert_ne.
Qed.

(** What [preRender] saves and [postRender] writes back. *)
Lemma MaskPass_preRender_saves camera renderer p :
  SpriteRenderer.maskInteraction renderer <> SpriteMaskInteraction.None ->
  copied_fields
    (SpriteMaskManager._tempStencilState
       (maskManager (MaskPass.preRender maxVertexCount camera renderer p)))
  = copied_fields
      (stencil_of (materials (world p)) (SpriteRenderer.getMaterial renderer)).
Proof.
  intros Hmasked. rewrite MaskPass_preRender_eq. cbn zeta. cbn [maskManager].
  unfold SpriteMaskManager.preRender. by rewrite decide_False by done.
Qed.

Lemma MaskPass_postRender_writes renderer p :
  SpriteRenderer.maskInteraction renderer <> SpriteMaskInteraction.None ->
  copied_fields
    (stencil_of (materials (world (MaskPass.postRender renderer p)))
       (SpriteRenderer.getMaterial renderer))
  = copied_fields (SpriteMaskManager._tempStencilState (maskManager p))
  /\ SpriteMaskManager._tempStencilState
       (maskManager (MaskPass.postRender renderer p))
     = SpriteMaskManager._tempStencilState (maskManager p).
Proof.
  intros Hmasked. unfold MaskPass.postRender, SpriteMaskManager.postRender.
  rewrite decide_False by done. cbn [world materials maskManager].
  unfold stencil_of. by rewrite fn_lookup_insert.
Qed.

(** One bracketed pair keeps the copied fields of every material. *)
Lemma pre_post_copied_fields camera renderer p log mat :
  let p1 := MaskPass.preRender maxVertexCount camera renderer p in
  copied_fields
    (stencil_of
       (materials
          (world
             (MaskPass.postRender renderer
                {| maskManager := maskManager p1;
                   maskBatcher := maskBatcher p1;
                   world := {| materials := materials (world p1);
                               gpu := log |} |})))
       mat)
  = copied_fields (stencil_of (materials (world p)) mat).
Proof.
  intros p1.
  destruct (decide (SpriteRenderer.maskInteraction renderer
                    = SpriteMaskInteraction.None)) as [Hnone|Hmasked].
  { rewrite MaskPass_postRender_None by done. cbn [world materials].
    subst p1. by rewrite MaskPass_preRender_None. }
  destruct (decide (SpriteRenderer.getMaterial renderer = mat)) as [<-|Hne].
  - match goal with
    | |- context [MaskPass.postRender renderer ?q] =>
        destruct (MaskPass_postRender_writes renderer q Hmasked) as [-> _]
    end.
    cbn [maskManager]. subst p1. by apply MaskPass_preRender_saves.
  - rewrite MaskPass_postRender_other by done. cbn [world materials].
    subst p1. by apply MaskPass_preRender_other.
Qed.

End SaveSlot.



(** ** The batching tests *)

Section CheckBatchByMask.

Lemma checkBatchByMask_iff a b :
  SpriteBatcher._checkBatchByMask a b = true <->
  SpriteRenderer.maskInteraction a = SpriteRenderer.maskInteraction b
  /\ (SpriteRenderer.maskInteraction a = SpriteMaskInteraction.None
      \/ SpriteRenderer.maskLayer a = SpriteRenderer.maskLayer b).
Proof.
  unfold SpriteBatcher._checkBatchByMask.
  destruct (decide (SpriteRenderer.maskInteraction a
                    <> SpriteRenderer.maskInteraction b)) as [Hne|He].
  { split; [done|]. by intros [? _]. }
  apply dec_stable in He.
  destruct (decide (SpriteRenderer.maskInteraction a
                    = SpriteMaskInteraction.None)) as [Hn|Hn].
  { split; [|done]. intros _. split; [done|by left]. }
  rewrite Z.eqb_eq. split; [by intros; split; [|right]|].
  by intros [_ [?|?]].
Qed.

Lemma checkBatchByMask_refl a : SpriteBatcher._checkBatchByMask a a = true.
Proof. apply checkBatchByMask_iff. by split; [|right]. Qed.

Lemma checkBatchByMask_sym a b :
  SpriteBatcher._checkBatchByMask a b = SpriteBatcher._checkBatchByMask b a.
Proof.
  apply eq_true_iff_eq. rewrite !checkBatchByMask_iff.
  split; intros [He Hl]; (split; [done|]);
    (destruct Hl as [Hl|Hl]; [left; congruence|by right]).
Qed.

Lemma checkBatchByMask_trans a b c :
  SpriteBatcher._checkBatchByMask a b = true ->
  SpriteBatcher._checkBatchByMask b c = true ->
  SpriteBatcher._checkBatchByMask a c = true.
Proof.
  intros [He1 Hl1]%checkBatchByMask_iff [He2 Hl2]%checkBatchByMask_iff.
  apply checkBatchByMask_iff. split; [congruence|].
  destruct Hl1 as [?|Hl1]; [by left|].
  destruct Hl2 as [?|Hl2]; [left; congruence|right; congruence].
Qed.

End CheckBatchByMask.

(** X6.  [_checkBatchByMask] is an equivalence on renderers: reflexive,
    symmetric and transitive; renderers it accepts have the same mask
    interaction and, unless that is None, the same mask layer. *)
Theorem checkBatchByMask_equivalence :
  (forall a, SpriteBatcher._checkBatchByMask a a = true)
  /\ (forall a b,
        SpriteBatcher._checkBatchByMask a b
        = SpriteBatcher._checkBatchByMask b a)
  /\ (forall a b c,
        SpriteBatcher._checkBatchByMask a b = true ->
        SpriteBatcher._checkBatchByMask b c = true ->
        SpriteBatcher._checkBatchByMask a c = true)
  /\ (forall a b,
        SpriteBatcher._checkBatchByMask a b = true <->
        SpriteRenderer.maskInteraction a = SpriteRenderer.maskInteraction b
        /\ (SpriteRenderer.maskInteraction a = SpriteMaskInteraction.None
            \/ SpriteRenderer.maskLayer a = SpriteRenderer.maskLayer b)).
Proof.
  split; [exact checkBatchByMask_refl|].
  split; [exact checkBatchByMask_sym|].
  split; [exact checkBatchByMask_trans|exact checkBatchByMask_iff].
Qed.

Lemma checkBatchByMask_equivalence_witness :
  SpriteBatcher._checkBatchByMask
    (Scene.renderer_on SpriteMaskInteraction.VisibleInsideMask 3)
    (Scene.renderer_on SpriteMaskInteraction.VisibleInsideMask 3) = true.
Proof.
  destruct checkBatchByMask_equivalence as (_ & _ & Htrans & _).
  apply (Htrans _
           (Scene.renderer_on SpriteMaskInteraction.VisibleInsideMask 3));
    reflexivity.
Defined.

Section CanBatch.

Lemma sprite_canBatch_iff p a b :
  SpriteBatcher._canBatch p a b = true <->
  SpriteBatcher._checkBatchByMask (SpriteElement.component a)
    (SpriteElement.component b) = true
  /\ SpriteElement.camera a = SpriteElement.camera b
  /\ SpriteRenderer.shaderData (SpriteElement.component a) u_spriteTexture
     = SpriteRenderer.shaderData (SpriteElement.component b) u_spriteTexture
  /\ (SpriteElement.material a = SpriteElement.material b
      \/ (name (shader (materials (world p) (SpriteElement.material a)))
          = "Sprite"%string
          /\ name (shader (materials (world p) (SpriteElement.material b)))
             = "Sprite"%string)).
Proof.
  unfold SpriteBatcher._canBatch.
  destruct (SpriteBatcher._checkBatchByMask _ _); cbn [negb].
  2:{ split; [done|]. by intros [? _]. }
  destruct (decide (SpriteElement.camera a <> SpriteElement.camera b))
    as [Hc|Hc].
  { split; [done|]. by intros (_ & ? & _). }
  apply dec_stable in Hc.
  destruct (decide (SpriteRenderer.shaderData (SpriteElement.component a)
                      u_spriteTexture
                    <> SpriteRenderer.shaderData (SpriteElement.component b)
                         u_spriteTexture)) as [Ht|Ht].
  { split; [done|]. by intros (_ & _ & ? & _). }
  apply dec_stable in Ht.
  case_decide as Hm.
  - split; [|done]. intros _. repeat split; try done.
    destruct Hm as [?|[He Hs]]; [by left|right]. by rewrite He.
  - split; [done|]. intros (_ & _ & _ & Hm'). exfalso. apply Hm.
    destruct Hm' as [?|[Ha Hb]]; [by left|right]. by rewrite Ha.
Qed.

Lemma mask_canBatch_iff w a b :
  SpriteMaskBatcher._canBatch w a b = true <->
  SpriteMaskElement.isAdd a = SpriteMaskElement.isAdd b
  /\ SpriteMaskBatcher.getTexture w
       (SpriteMask.material (SpriteMaskElement.component a)) u_maskTexture
     = SpriteMaskBatcher.getTexture w
         (SpriteMask.material (SpriteMaskElement.component b)) u_maskTexture
  /\ SpriteMaskBatcher.getTexture w
       (SpriteMask.material (SpriteMaskElement.component a))
       u_maskAlphaCutoff
     = SpriteMaskBatcher.getTexture w
         (SpriteMask.material (SpriteMaskElement.component b))
         u_maskAlphaCutoff.
Proof.
  unfold SpriteMaskBatcher._canBatch.
  destruct (SpriteMaskElement.isAdd a), (SpriteMaskElement.isAdd b);
    cbn [eqb negb]; try (by intuition);
    case_decide; split; try done; intuition.
Qed.

End CanBatch.

(** X7.  For a given set of materials, [SpriteBatcher._canBatch] is an
    equivalence on sprite elements; two elements it accepts pass the
    mask test, have the same camera and the same sprite texture, and
    either the same material or two materials whose shaders are both
    called "Sprite". *)
Theorem sprite_canBatch_equivalence p :
  (forall a, SpriteBatcher._canBatch p a a = true)
  /\ (forall a b,
        SpriteBatcher._canBatch p a b = SpriteBatcher._canBatch p b a)
  /\ (forall a b c,
        SpriteBatcher._canBatch p a b = true ->
        SpriteBatcher._canBatch p b c = true ->
        SpriteBatcher._canBatch p a c = true)
  /\ (forall a b,
        SpriteBatcher._canBatch p a b = true ->
        SpriteBatcher._checkBatchByMask (SpriteElement.component a)
          (SpriteElement.component b) = true
        /\ SpriteElement.camera a = SpriteElement.camera b
        /\ SpriteRenderer.shaderData (SpriteElement.component a)
             u_spriteTexture
           = SpriteRenderer.shaderData (SpriteElement.component b)
               u_spriteTexture).
Proof.
  split; [|split; [|split]].
  - intros a. apply sprite_canBatch_iff. rewrite checkBatchByMask_refl.
    tauto.
  - intros a b. apply eq_true_iff_eq. rewrite !sprite_canBatch_iff.
    rewrite (checkBatchByMask_sym (SpriteElement.component b)).
    split; intros (? & ? & ? & Hm); repeat split; try done;
      (destruct Hm as [?|[? ?]]; [by left|by right]).
  - intros a b c (Hm1 & Hc1 & Ht1 & Hs1)%sprite_canBatch_iff
      (Hm2 & Hc2 & Ht2 & Hs2)%sprite_canBatch_iff.
    apply sprite_canBatch_iff. split; [by eapply checkBatchByMask_trans|].
    split; [congruence|]. split; [congruence|].
    destruct Hs1 as [He1|[Ha Hb]], Hs2 as [He2|[Hb' Hc]].
    + left. congruence.
    + right. rewrite He1. done.
    + right. rewrite <- He2. done.
    + by right.
  - intros a b (? & ? & ? & _)%sprite_canBatch_iff. done.
Qed.

Lemma sprite_canBatch_equivalence_witness :
  SpriteBatcher._canBatch Scene.pipeline (Scene.sprite 1 1)
    (Scene.sprite 2 1) = true.
Proof.
  destruct (sprite_canBatch_equivalence Scene.pipeline)
    as (_ & _ & Htrans & _).
  apply (Htrans _ (Scene.sprite 3 1)); reflexivity.
Defined.

(** X8.  For a given set of materials, [SpriteMaskBatcher._canBatch] is
    an equivalence on mask elements; two elements it accepts have the
    same stencil direction ([isAdd]), so a chunk of the mask batcher is
    drawn with one stencil operation. *)
Theorem mask_canBatch_equivalence w :
  (forall a, SpriteMaskBatcher._canBatch w a a = true)
  /\ (forall a b,
        SpriteMaskBatcher._canBatch w a b
        = SpriteMaskBatcher._canBatch w b a)
  /\ (forall a b c,
        SpriteMaskBatcher._canBatch w a b = true ->
        SpriteMaskBatcher._canBatch w b c = true ->
        SpriteMaskBatcher._canBatch w a c = true)
  /\ (forall a b,
        SpriteMaskBatcher._canBatch w a b = true ->
        operation_of a = operation_of b).
Proof.
  split; [|split; [|split]].
  - intros a. by apply mask_canBatch_iff.
  - intros a b. apply eq_true_iff_eq. rewrite !mask_canBatch_iff.
    split; intros (? & ? & ?); by repeat split.
  - intros a b c (? & ? & ?)%mask_canBatch_iff (? & ? & ?)%mask_canBatch_iff.
    apply mask_canBatch_iff. repeat split; congruence.
  - intros a b (Hadd & _)%mask_canBatch_iff. unfold operation_of.
    by rewrite Hadd.
Qed.

Lemma mask_canBatch_equivalence_witness :
  let w := {| materials := Scene.store; gpu := [] |} in
  let a := _maskElement (Scene.mask_on 1 1 1) in
  let b := _maskElement (Scene.mask_on 2 2 1) in
  SpriteMaskBatcher._canBatch w a b = true
  /\ operation_of a = operation_of b.
Proof.
  intros w a b.
  destruct (mask_canBatch_equivalence w) as (_ & _ & Htrans & Hop).
  assert (H : SpriteMaskBatcher._canBatch w a b = true)
    by (apply (Htrans _ a); reflexivity).
  split; [exact H|exact (Hop a b H)].
Defined.

(** ** [_drawBatches] chunk by chunk *)

Section DrawBatchesMore.
Variable maskMaxVertexCount : Z.

Lemma sprite_drawBatches_from_cons j subMesh rest batchedQueue p :
  SpriteBatcher._drawBatches_from maskMaxVertexCount j (subMesh :: rest)
    batchedQueue p
  = match mjoin (batchedQueue !! j) with
    | None => p
    | Some el =>
        if compiles (materials (world p)) (SpriteElement.material el)
        then SpriteBatcher._drawBatches_from maskMaxVertexCount (S j) rest
               batchedQueue (sprite_turn maskMaxVertexCount subMesh el p)
        else MaskPass.preRender maskMaxVertexCount (SpriteElement.camera el)
               (SpriteElement.component el) p
    end.
Proof.
  cbn [SpriteBatcher._drawBatches_from].
  destruct (mjoin (batchedQueue !! j)) as [el|]; [|done].
  unfold compiles. rewrite MaskPass_preRender_shader.
  by destruct (program_isValid _).
Qed.

Lemma sprite_turn_copied_fields subMesh el p mat :
  copied_fields
    (stencil_of
       (materials (world (sprite_turn maskMaxVertexCount subMesh el p))) mat)
  = copied_fields (stencil_of (materials (world p)) mat).
Proof. apply pre_post_copied_fields. Qed.

Lemma sprite_turn_compiles subMesh el p mat :
  compiles (materials (world (sprite_turn maskMaxVertexCount subMesh el p))) mat
  = compiles (materials (world p)) mat.
Proof.
  unfold compiles, sprite_turn.
  rewrite MaskPass_postRender_shader. cbn [world materials].
  by rewrite MaskPass_preRender_shader.
Qed.

(** Up to the chunk with the invalid program every turn is complete; the
    loop ends inside the turn of that chunk, after its [preRender]. *)
Lemma sprite_drawBatches_from_ends batchedQueue rest : forall j p i bad,
  (forall k, (k < i)%nat ->
     exists el, mjoin (batchedQueue !! (j + k)%nat) = Some el
                /\ compiles (materials (world p))
                     (SpriteElement.material el) = true) ->
  (i < length rest)%nat ->
  mjoin (batchedQueue !! (j + i)%nat) = Some bad ->
  compiles (materials (world p)) (SpriteElement.material bad) = false ->
  exists q,
    (forall mat,
       copied_fields (stencil_of (materials (world q)) mat)
       = copied_fields (stencil_of (materials (world p)) mat))
    /\ SpriteBatcher._drawBatches_from maskMaxVertexCount j rest
         batchedQueue p
       = MaskPass.preRender maskMaxVertexCount (SpriteElement.camera bad)
           (SpriteElement.component bad) q.
Proof.
  induction rest as [|subMesh rest IH]; intros j p i bad Hbefore Hi Hbad Hinv.
  { cbn in Hi. lia. }
  rewrite sprite_drawBatches_from_cons.
  destruct i as [|i].
  - rewrite Nat.add_0_r in Hbad. rewrite Hbad, Hinv. by exists p.
  - destruct (Hbefore 0%nat ltac:(lia)) as (el & Hel & Hok).
    rewrite Nat.add_0_r in Hel. rewrite Hel, Hok.
    destruct (IH (S j) (sprite_turn maskMaxVertexCount subMesh el p) i bad)
      as (q & Hq & ->).
    + intros k Hk. destruct (Hbefore (S k) ltac:(lia)) as (el' & Hel' & Hok').
      exists el'. rewrite sprite_turn_compiles.
      split; [|done]. by replace (S j + k)%nat with (j + S k)%nat by lia.
    + cbn in Hi. lia.
    + by replace (S j + i)%nat with (j + S i)%nat by lia.
    + by rewrite sprite_turn_compiles.
    + exists q. split; [|done]. intros mat.
      by rewrite Hq, sprite_turn_copied_fields.
Qed.

Lemma sprite_drawBatches_from_keeps batchedQueue rest : forall j p,
  (forall k, (k < length rest)%nat ->
     exists el, mjoin (batchedQueue !! (j + k)%nat) = Some el
                /\ compiles (materials (world p))
                     (SpriteElement.material el) = true) ->
  forall mat,
    copied_fields
      (stencil_of
         (materials
            (world (SpriteBatcher._drawBatches_from maskMaxVertexCount j rest
                      batchedQueue p))) mat)
    = copied_fields (stencil_of (materials (world p)) mat).
Proof.
  induction rest as [|subMesh rest IH]; intros j p Hall mat; [done|].
  rewrite sprite_drawBatches_from_cons.
  destruct (Hall 0%nat ltac:(cbn; lia)) as (el & Hel & Hok).
  rewrite Nat.add_0_r in Hel. rewrite Hel, Hok.
  rewrite IH; [apply sprite_turn_copied_fields|].
  intros k Hk. destruct (Hall (S k) ltac:(cbn; lia)) as (el' & Hel' & Hok').
  exists el'. rewrite sprite_turn_compiles.
  split; [|done]. by replace (S j + k)%nat with (j + S k)%nat by lia.
Qed.

End DrawBatchesMore.





Section MaskOperations.

Lemma mask_drawBatches_from_operations batchedQueue rest : forall j w,
  exists events,
    gpu (SpriteMaskBatcher._drawBatches_from j rest batchedQueue w)
    = gpu w ++ events
    /\ forall n ev,
         events !! n = Some ev ->
         exists subMesh el applied,
           rest !! n = Some subMesh
           /\ mjoin (batchedQueue !! (j + n)%nat) = Some el
           /\ ev = DrawMasks subMesh (SpriteMaskElement.material el) applied
           /\ passOperationFront (stencilState applied) = operation_of el
           /\ passOperationBack (stencilState applied) = operation_of el.
Proof.
  induction rest as [|subMesh rest IH]; intros j w.
  { exists []. split; [by rewrite app_nil_r|]. by intros n ev ?. }
  cbn [SpriteMaskBatcher._drawBatches_from].
  destruct (mjoin (batchedQueue !! j)) as [el|] eqn:Hel.
  2:{ exists []. split; [by rewrite app_nil_r|]. by intros n ev ?. }
  destruct (negb _).
  { exists []. split; [by rewrite app_nil_r|]. by intros n ev ?. }
  match goal with
  | |- context [SpriteMaskBatcher._drawBatches_from (S j) rest batchedQueue
                  ?w'] =>
      destruct (IH (S j) w') as (events & Hgpu & Hev)
  end.
  eexists (_ :: events). split.
  { rewrite Hgpu. cbn [gpu]. by rewrite <- app_assoc. }
  intros [|n] ev Hn.
  - injection Hn as <-. exists subMesh, el. eexists.
    rewrite Nat.add_0_r. split; [done|]. split; [done|].
    split; [reflexivity|]. rewrite fn_lookup_insert. by split.
  - destruct (Hev n ev Hn) as (sm & el' & applied & ? & Hq & ? & ? & ?).
    exists sm, el', applied. split; [done|].
    split; [by replace (j + S n)%nat with (S j + n)%nat by lia|done].
Qed.

End MaskOperations.

(** X11.  Every draw that [SpriteMaskBatcher._drawBatches] issues is the
    draw of one of its sub-meshes with the material of the element
    recorded for it, and the render state applied has both pass
    operations set to increment-saturate when that element adds and to
    decrement-saturate when it removes, whatever the material held
    before.  When every sub-mesh has its element and a valid program,
    all of them are drawn, in order. *)
Theorem mask_drawBatches_operations subMeshes batchedQueue w :
  let w' := SpriteMaskBatcher._drawBatches subMeshes batchedQueue w in
  (exists events,
     gpu w' = gpu w ++ events
     /\ forall n ev,
          events !! n = Some ev ->
          exists subMesh el applied,
            subMeshes !! n = Some subMesh
            /\ mjoin (batchedQueue !! n) = Some el
            /\ ev = DrawMasks subMesh (SpriteMaskElement.material el) applied
            /\ passOperationFront (stencilState applied) = operation_of el
            /\ passOperationBack (stencilState applied) = operation_of el)
  /\ ((forall k, (k < length subMeshes)%nat ->
         exists el, mjoin (batchedQueue !! k) = Some el
                    /\ compiles (materials w) (SpriteMaskElement.material el)
                       = true) ->
      mask_subMeshes (gpu w') = mask_subMeshes (gpu w) ++ subMeshes).
Proof.
  intros w'. subst w'. unfold SpriteMaskBatcher._drawBatches. split.
  - apply mask_drawBatches_from_operations.
  - intros Hall.
    rewrite (mask_drawBatches_from_stops batchedQueue subMeshes 0 w
               (length subMeshes)).
    + by rewrite firstn_all.
    + done.
    + by left.
Qed.

Lemma mask_drawBatches_operations_witness :
  let add :=
    SpriteMaskBatcher.submitted (_maskElement (Scene.mask_on 1 1 1)) 0
      StencilOperation.IncrementSaturate in
  let remove :=
    SpriteMaskBatcher.submitted (_maskElement (Scene.mask_on 2 2 1)) 0
      StencilOperation.DecrementSaturate in
  mask_subMeshes
    (gpu (SpriteMaskBatcher._drawBatches [[add]; [remove]]
            [Some add; Some remove]
            {| materials := Scene.store; gpu := [] |}))
  = [[add]; [remove]].
Proof.
  intros add remove.
  destruct (mask_drawBatches_operations [[add]; [remove]]
              [Some add; Some remove]
              {| materials := Scene.store; gpu := [] |}) as [_ H].
  apply H. intros k Hk. destruct k as [|[|k]]; [| |cbn in Hk; lia].
  - exists add. split; reflexivity.
  - exists remove. split; reflexivity.
Defined.

(** ** Vertex data *)

Section VertexData.
Variable fround : float -> float.

Lemma write_length vertices i data :
  length (Float32Array.write fround vertices i data) = length vertices.
Proof.
  revert vertices i. induction data as [|v data IH]; intros vertices i; [done|].
  cbn [Float32Array.write]. rewrite IH. apply length_insert.
Qed.

Lemma write_lookup vertices i data j :
  Float32Array.write fround vertices i data !! j
  = written fround vertices i data j.
Proof.
  unfold written.
  revert vertices i. induction data as [|v data IH]; intros vertices i.
  { cbn. rewrite decide_False; [done|lia]. }
  cbn [Float32Array.write]. rewrite IH.
  unfold Float32Array.set. rewrite length_insert. cbn [length].
  destruct (decide (i = j)) as [->|Hne].
  - rewrite (decide_False (P := (S j <= j < _ /\ _)%nat)) by lia.
    rewrite list_lookup_insert.
    destruct (decide (j < length vertices)%nat) as [Hlt|Hge].
    + rewrite decide_True by done. rewrite decide_True by lia.
      by rewrite Nat.sub_diag.
    + rewrite decide_False by lia. rewrite decide_False by lia. done.
  - rewrite list_lookup_insert_ne by done.
    destruct (decide (S i <= j < S i + length data /\ j < length vertices)%nat)
      as [Hin|Hout].
    + rewrite decide_True by lia.
      replace (j - i)%nat with (S (j - S i)) by lia. done.
    + rewrite decide_False by lia. done.
Qed.

Lemma write_app vertices i data data' :
  Float32Array.write fround vertices i (data ++ data')
  = Float32Array.write fround (Float32Array.write fround vertices i data)
      (i + length data) data'.
Proof.
  revert vertices i. induction data as [|v data IH]; intros vertices i.
  { cbn. by rewrite Nat.add_0_r. }
  cbn [app Float32Array.write length]. rewrite IH.
  by replace (S i + length data)%nat with (i + S (length data))%nat by lia.
Qed.

(** The loops store the floats of the common prefix of [positions] and
    [uv]; when [uv] is the shorter one, the position of the next vertex
    follows and the loop throws. *)
Lemma mask_updateVertices_from_write positions : forall uv vertices i,
  SpriteMaskBatcherData._updateVertices_from fround positions uv vertices i
  = let data := zip positions uv ≫= SpriteMaskBatcherData.vertex_floats in
    if decide (length positions <= length uv)%nat then
      (Float32Array.write fround vertices i data,
       Some (i + 5 * length positions)%nat)
    else
      (Float32Array.write fround vertices i
         (data ++ match positions !! length uv with
                  | Some (x, y, z) => [x; y; z]
                  | None => []
                  end),
       None).
Proof.
  induction positions as [|[[x y] z] positions IH]; intros uv vertices i.
  { cbn. f_equal. f_equal. lia. }
  cbn [SpriteMaskBatcherData._updateVertices_from].
  destruct uv as [|[ux uy] uv].
  { cbn. rewrite !Nat.add_1_r.
    by replace (i + 2)%nat with (S (S i)) by lia. }
  rewrite IH. cbn zeta. cbn [zip zip_with length lookup list_lookup].
  change ((((x, y, z), (ux, uy))
           :: zip positions uv) ≫= SpriteMaskBatcherData.vertex_floats)
    with ([x; y; z; ux; uy]
          ++ (zip positions uv ≫= SpriteMaskBatcherData.vertex_floats)).
  replace (i + 1)%nat with (S i) by lia.
  replace (i + 2)%nat with (S (S i)) by lia.
  replace (i + 3)%nat with (S (S (S i))) by lia.
  replace (i + 4)%nat with (S (S (S (S i)))) by lia.
  replace (i + 5)%nat with (S (S (S (S (S i))))) by lia.
  destruct (decide (length positions <= length uv)%nat).
  - rewrite decide_True by lia. cbn [app Float32Array.write].
    f_equal. f_equal. lia.
  - rewrite decide_False by lia. done.
Qed.

Lemma sprite_updateVertices_from_write positions color :
  forall uv vertices i,
  SpriteBatcherData._updateVertices_from fround positions uv color vertices i
  = let data := zip positions uv ≫= SpriteBatcherData.vertex_floats color in
    if decide (length positions <= length uv)%nat then
      (Float32Array.write fround vertices i data,
       Some (i + 9 * length positions)%nat)
    else
      (Float32Array.write fround vertices i
         (data ++ match positions !! length uv with
                  | Some (x, y, z) => [x; y; z]
                  | None => []
                  end),
       None).
Proof.
  destruct color as [[[r g] b] a].
  induction positions as [|[[x y] z] positions IH]; intros uv vertices i.
  { cbn. f_equal. f_equal. lia. }
  cbn [SpriteBatcherData._updateVertices_from].
  destruct uv as [|[ux uy] uv].
  { cbn. rewrite !Nat.add_1_r.
    by replace (i + 2)%nat with (S (S i)) by lia. }
  rewrite IH. cbn zeta. cbn [zip zip_with length lookup list_lookup].
  change ((((x, y, z), (ux, uy))
           :: zip positions uv)
          ≫= SpriteBatcherData.vertex_floats (r, g, b, a))
    with ([x; y; z; ux; uy; r; g; b; a]
          ++ (zip positions uv
              ≫= SpriteBatcherData.vertex_floats (r, g, b, a))).
  replace (i + 1)%nat with (S i) by lia.
  replace (i + 2)%nat with (S (S i)) by lia.
  replace (i + 3)%nat with (S (S (S i))) by lia.
  replace (i + 4)%nat with (S (S (S (S i)))) by lia.
  replace (i + 5)%nat with (S (S (S (S (S i))))) by lia.
  replace (i + 6)%nat with (S (S (S (S (S (S i)))))) by lia.
  replace (i + 7)%nat with (S (S (S (S (S (S (S i))))))) by lia.
  replace (i + 8)%nat with (S (S (S (S (S (S (S (S i)))))))) by lia.
  replace (i + 9)%nat with (S (S (S (S (S (S (S (S (S i))))))))) by lia.
  destruct (decide (length positions <= length uv)%nat).
  - rewrite decide_True by lia. cbn [app Float32Array.write].
    f_equal. f_equal. lia.
  - rewrite decide_False by lia. done.
Qed.

Lemma bind_length_const {A B} (f : A -> list B) n (l : list A) :
  (forall x, length (f x) = n) -> length (l ≫= f) = (n * length l)%nat.
Proof.
  intros Hf. induction l as [|x l IH]; cbn; [lia|].
  rewrite length_app, Hf, IH. lia.
Qed.

End VertexData.

Section VertexDataMore.
Variable fround : float -> float.

Lemma bind_lookup_const {A B} (f : A -> list B) n (l : list A) k c x :
  (forall y, length (f y) = n) ->
  l !! k = Some x -> (c < n)%nat ->
  (l ≫= f) !! (n * k + c)%nat = f x !! c.
Proof.
  intros Hf. revert k. induction l as [|y l IH]; intros k Hk Hc; [done|].
  cbn [mbind list_bind]. change (list_bind _ _ f l) with (l ≫= f).
  destruct k as [|k].
  - injection Hk as ->. rewrite Nat.mul_0_r, Nat.add_0_l.
    apply lookup_app_l. by rewrite Hf.
  - rewrite lookup_app_r by (rewrite Hf; lia). rewrite Hf.
    replace (n * S k + c - n)%nat with (n * k + c)%nat by lia.
    by apply IH.
Qed.

Lemma zip_lookup {A B} (l : list A) (k : list B) i x y :
  l !! i = Some x -> k !! i = Some y -> zip l k !! i = Some (x, y).
Proof.
  revert k i. induction l as [|a l IH]; intros [|b k] [|i] Hl Hk;
    try done; cbn in *; [congruence|by apply IH].
Qed.

Lemma mask_vertex_floats_length pu :
  length (SpriteMaskBatcherData.vertex_floats pu) = 5%nat.
Proof. by destruct pu as [[[x y] z] [ux uy]]. Qed.

Lemma sprite_vertex_floats_length color pu :
  length (SpriteBatcherData.vertex_floats color pu) = 9%nat.
Proof. by destruct pu as [[[x y] z] [ux uy]], color as [[[r g] b] a]. Qed.

Lemma mask_element_floats_length element :
  (length (SpriteMaskElement.positions element)
   <= length (SpriteMaskElement.uv element))%nat ->
  length (SpriteMaskBatcherData.element_floats element)
  = (5 * length (SpriteMaskElement.positions element))%nat.
Proof.
  intros Hle. unfold SpriteMaskBatcherData.element_floats.
  rewrite (bind_length_const _ 5) by apply mask_vertex_floats_length.
  rewrite length_zip. lia.
Qed.

Lemma sprite_element_floats_length element :
  (length (SpriteElement.positions element)
   <= length (SpriteElement.uv element))%nat ->
  length (SpriteBatcherData.element_floats element)
  = (9 * length (SpriteElement.positions element))%nat.
Proof.
  intros Hle. unfold SpriteBatcherData.element_floats.
  rewrite (bind_length_const _ 9) by apply sprite_vertex_floats_length.
  rewrite length_zip. lia.
Qed.

Lemma mask_updateVertices_fit element vertices vertexIndex :
  (length (SpriteMaskElement.positions element)
   <= length (SpriteMaskElement.uv element))%nat ->
  SpriteMaskBatcherData._updateVertices fround element vertices vertexIndex
  = (Float32Array.write fround vertices vertexIndex
       (SpriteMaskBatcherData.element_floats element),
     Some (vertexIndex
           + 5 * length (SpriteMaskElement.positions element))%nat).
Proof.
  intros Hle. unfold SpriteMaskBatcherData._updateVertices.
  rewrite mask_updateVertices_from_write. cbn zeta.
  by rewrite decide_True by done.
Qed.

Lemma sprite_updateVertices_fit element vertices vertexIndex :
  (length (SpriteElement.positions element)
   <= length (SpriteElement.uv element))%nat ->
  SpriteBatcherData._updateVertices fround element vertices vertexIndex
  = (Float32Array.write fround vertices vertexIndex
       (SpriteBatcherData.element_floats element),
     Some (vertexIndex + 9 * length (SpriteElement.positions element))%nat).
Proof.
  intros Hle. unfold SpriteBatcherData._updateVertices.
  rewrite sprite_updateVertices_from_write. cbn zeta.
  by rewrite decide_True by done.
Qed.

End VertexDataMore.

(** X12.  [SpriteMaskBatcher._updateVertices], for an element with a uv
    for every position: it returns [vertexIndex] plus five times the
    number of vertices; the buffer keeps its length; inside the buffer,
    the floats x, y, z, u, v of the vertices, rounded to single
    precision, stand from [vertexIndex] on, one vertex after the other;
    every other entry is untouched, and what would land beyond the end
    of the buffer is dropped. *)
Theorem mask_updateVertices_writes fround element vertices vertexIndex :
  (length (SpriteMaskElement.positions element)
   <= length (SpriteMaskElement.uv element))%nat ->
  let r :=
    SpriteMaskBatcherData._updateVertices fround element vertices
      vertexIndex in
  let data := SpriteMaskBatcherData.element_floats element in
  snd r
  = Some (vertexIndex + 5 * length (SpriteMaskElement.positions element))%nat
  /\ length data = (5 * length (SpriteMaskElement.positions element))%nat
  /\ length (fst r) = length vertices
  /\ forall j, fst r !! j = written fround vertices vertexIndex data j.
Proof.
  intros Hle r data. subst r data.
  rewrite mask_updateVertices_fit by done. cbn [fst snd].
  split; [done|]. split; [by apply mask_element_floats_length|].
  split; [apply write_length|]. intros j. apply write_lookup.
Qed.

Lemma mask_updateVertices_writes_witness :
  SpriteMaskBatcherData._updateVertices (fun v => v)
    (_maskElement (Scene.mask_on 1 1 1)) (replicate 22 9) 5
  = ([9; 9; 9; 9; 9; 0; 0; 0; 0; 0; 1; 0; 0; 1; 0; 1; 1; 0; 1; 1; 0; 1],
     Some 25%nat).
Proof.
  pose proof (mask_updateVertices_writes (fun v => v)
                (_maskElement (Scene.mask_on 1 1 1)) (replicate 22 9) 5) as H.
  destruct H as (Hret & _ & _ & _); [cbn; lia|].
  reflexivity.
Defined.

(** X13.  [SpriteBatcher._updateVertices], for an element with a uv for
    every position: it returns [vertexIndex] plus nine times the number
    of vertices; the buffer keeps its length; inside the buffer, the
    floats x, y, z, u, v of each vertex followed by the r, g, b, a of the
    element's one colour, rounded to single precision, stand from
    [vertexIndex] on; every other entry is untouched, and what would
    land beyond the end of the buffer is dropped. *)
Theorem sprite_updateVertices_writes fround element vertices vertexIndex :
  (length (SpriteElement.positions element)
   <= length (SpriteElement.uv element))%nat ->
  let r :=
    SpriteBatcherData._updateVertices fround element vertices vertexIndex in
  let data := SpriteBatcherData.element_floats element in
  snd r = Some (vertexIndex + 9 * length (SpriteElement.positions element))%nat
  /\ length data = (9 * length (SpriteElement.positions element))%nat
  /\ length (fst r) = length vertices
  /\ forall j, fst r !! j = written fround vertices vertexIndex data j.
Proof.
  intros Hle r data. subst r data.
  rewrite sprite_updateVertices_fit by done. cbn [fst snd].
  split; [done|]. split; [by apply sprite_element_floats_length|].
  split; [apply write_length|]. intros j. apply write_lookup.
Qed.

Lemma sprite_updateVertices_writes_witness :
  snd (SpriteBatcherData._updateVertices (fun v => v) (Scene.sprite 1 1)
         (replicate 40 0) 2)
  = Some 38%nat.
Proof.
  pose proof (sprite_updateVertices_writes (fun v => v) (Scene.sprite 1 1)
                (replicate 40 0) 2) as H.
  destruct H as (Hret & _); [cbn; lia|]. exact Hret.
Defined.

(** X14.  When an element has fewer uvs than positions, [_updateVertices]
    of either batcher throws (reading [x] of a missing uv) and returns
    nothing, but not before it has written the buffer: the vertices that
    have a uv are stored in full, and so are the x, y, z of the first
    vertex without one. *)
Theorem updateVertices_missing_uv fround :
  (forall element vertices vertexIndex,
     (length (SpriteMaskElement.uv element)
      < length (SpriteMaskElement.positions element))%nat ->
     let r :=
       SpriteMaskBatcherData._updateVertices fround element vertices
         vertexIndex in
     snd r = None
     /\ exists x y z,
          SpriteMaskElement.positions element
            !! length (SpriteMaskElement.uv element) = Some (x, y, z)
          /\ forall j,
               fst r !! j
               = written fround vertices vertexIndex
                   (SpriteMaskBatcherData.element_floats element ++ [x; y; z])
                   j)
  /\ (forall element vertices vertexIndex,
        (length (SpriteElement.uv element)
         < length (SpriteElement.positions element))%nat ->
        let r :=
          SpriteBatcherData._updateVertices fround element vertices
            vertexIndex in
        snd r = None
        /\ exists x y z,
             SpriteElement.positions element
               !! length (SpriteElement.uv element) = Some (x, y, z)
             /\ forall j,
                  fst r !! j
                  = written fround vertices vertexIndex
                      (SpriteBatcherData.element_floats element ++ [x; y; z])
                      j).
Proof.
  split.
  - intros element vertices vertexIndex Hlt r. subst r.
    unfold SpriteMaskBatcherData._updateVertices.
    rewrite mask_updateVertices_from_write. cbn zeta.
    rewrite decide_False by lia. cbn [fst snd]. split; [done|].
    match goal with
    | |- context [match ?o with Some _ => _ | None => _ end] =>
        destruct o as [[[x y] z]|] eqn:Hpos
    end.
    + exists x, y, z. split; [done|]. intros j. apply write_lookup.
    + apply lookup_ge_None in Hpos. unfold Vector3, Vector2 in *. lia.
  - intros element vertices vertexIndex Hlt r. subst r.
    unfold SpriteBatcherData._updateVertices.
    rewrite sprite_updateVertices_from_write. cbn zeta.
    rewrite decide_False by lia. cbn [fst snd]. split; [done|].
    match goal with
    | |- context [match ?o with Some _ => _ | None => _ end] =>
        destruct o as [[[x y] z]|] eqn:Hpos
    end.
    + exists x, y, z. split; [done|]. intros j. apply write_lookup.
    + apply lookup_ge_None in Hpos. unfold Vector3, Vector2 in *. lia.
Qed.

Lemma updateVertices_missing_uv_witness :
  let element :=
    {| SpriteMaskElement.component := Scene.mask_on 1 1 1;
       SpriteMaskElement.positions := [(1, 2, 3); (4, 5, 6)];
       SpriteMaskElement.uv := [(7, 8)];
       SpriteMaskElement.material := 1%nat;
       SpriteMaskElement.isAdd := true;
       SpriteMaskElement.camera := 0%nat |} in
  SpriteMaskBatcherData._updateVertices (fun v => v) element
    (replicate 10 0) 0
  = ([1; 2; 3; 7; 8; 4; 5; 6; 0; 0], None).
Proof.
  intros element.
  destruct (updateVertices_missing_uv (fun v => v)) as [H _].
  destruct (H element (replicate 10 0) 0%nat) as [Hnone _]; [cbn; lia|].
  reflexivity.
Defined.

Section VertexLayout.
Variable fround : float -> float.

Lemma written_inside vertices i data c v :
  data !! c = Some v -> (i + length data <= length vertices)%nat ->
  written fround vertices i data (i + c)%nat = Some (fround v).
Proof.
  intros Hc Hfit. pose proof (lookup_lt_Some _ _ _ Hc) as Hlt.
  unfold written. rewrite decide_True by lia.
  replace (i + c - i)%nat with c by lia. by rewrite Hc.
Qed.

Lemma mask_vertex_component element vertices vertexIndex k p u c v :
  SpriteMaskElement.positions element !! k = Some p ->
  SpriteMaskElement.uv element !! k = Some u ->
  (length (SpriteMaskElement.positions element)
   <= length (SpriteMaskElement.uv element))%nat ->
  (vertexIndex + 5 * length (SpriteMaskElement.positions element)
   <= length vertices)%nat ->
  SpriteMaskBatcherData.vertex_floats (p, u) !! c = Some v ->
  fst (SpriteMaskBatcherData._updateVertices fround element vertices
         vertexIndex) !! (vertexIndex + (5 * k + c))%nat
  = Some (fround v).
Proof.
  intros Hp Hu Hle Hfit Hc.
  rewrite mask_updateVertices_fit by done. cbn [fst].
  rewrite write_lookup.
  apply written_inside; [|rewrite mask_element_floats_length by done; lia].
  unfold SpriteMaskBatcherData.element_floats.
  rewrite (bind_lookup_const _ 5 _ k c (p, u)); [done| | |].
  - apply mask_vertex_floats_length.
  - by apply zip_lookup.
  - apply lookup_lt_Some in Hc. by rewrite mask_vertex_floats_length in Hc.
Qed.

Lemma sprite_vertex_component element vertices vertexIndex k p u c v :
  SpriteElement.positions element !! k = Some p ->
  SpriteElement.uv element !! k = Some u ->
  (length (SpriteElement.positions element)
   <= length (SpriteElement.uv element))%nat ->
  (vertexIndex + 9 * length (SpriteElement.positions element)
   <= length vertices)%nat ->
  SpriteBatcherData.vertex_floats (SpriteElement.color element) (p, u) !! c
  = Some v ->
  fst (SpriteBatcherData._updateVertices fround element vertices vertexIndex)
    !! (vertexIndex + (9 * k + c))%nat
  = Some (fround v).
Proof.
  intros Hp Hu Hle Hfit Hc.
  rewrite sprite_updateVertices_fit by done. cbn [fst].
  rewrite write_lookup.
  apply written_inside; [|rewrite sprite_element_floats_length by done; lia].
  unfold SpriteBatcherData.element_floats.
  rewrite (bind_lookup_const _ 9 _ k c (p, u)); [done| | |].
  - apply sprite_vertex_floats_length.
  - by apply zip_lookup.
  - apply lookup_lt_Some in Hc. by rewrite sprite_vertex_floats_length in Hc.
Qed.

End VertexLayout.

(** X15.  The vertex layout that [_createVertexElements] declares is the
    layout that [_updateVertices] writes, for the mask batcher and for
    the sprite batcher: the declared elements tile the stride (20 bytes,
    POSITION at 0 and TEXCOORD_0 at 12; 36 bytes with COLOR_0 at 20 for
    sprites); and in a buffer that is large enough, the components of
    each attribute of vertex [k] stand at float index [vertexIndex + k *
    stride / 4 + offset / 4]. *)
Theorem vertex_layout_agrees fround vertexIndex k x y z ux uy vertices :
  let slot stride (e : VertexElement) (c : nat) :=
    (vertexIndex + k * Z.to_nat (stride / 4) + Z.to_nat (offset e / 4) + c)%nat
  in
  (forall element,
     SpriteMaskElement.positions element !! k = Some (x, y, z) ->
     SpriteMaskElement.uv element !! k = Some (ux, uy) ->
     (length (SpriteMaskElement.positions element)
      <= length (SpriteMaskElement.uv element))%nat ->
     (vertexIndex + 5 * length (SpriteMaskElement.positions element)
      <= length vertices)%nat ->
     let buffer :=
       fst (SpriteMaskBatcherData._updateVertices fround element vertices
              vertexIndex) in
     exists position texcoord stride,
       SpriteMaskBatcherData._createVertexElements []
       = ([Some position; Some texcoord], stride)
       /\ semantic position = "POSITION"%string
       /\ semantic texcoord = "TEXCOORD_0"%string
       /\ offset position = 0
       /\ offset texcoord = offset position + 4 * format_floats (format position)
       /\ stride = offset texcoord + 4 * format_floats (format texcoord)
       /\ buffer !! slot stride position 0%nat = Some (fround x)
       /\ buffer !! slot stride position 1%nat = Some (fround y)
       /\ buffer !! slot stride position 2%nat = Some (fround z)
       /\ buffer !! slot stride texcoord 0%nat = Some (fround ux)
       /\ buffer !! slot stride texcoord 1%nat = Some (fround uy))
  /\ (forall element r g b a,
        SpriteElement.positions element !! k = Some (x, y, z) ->
        SpriteElement.uv element !! k = Some (ux, uy) ->
        SpriteElement.color element = (r, g, b, a) ->
        (length (SpriteElement.positions element)
         <= length (SpriteElement.uv element))%nat ->
        (vertexIndex + 9 * length (SpriteElement.positions element)
         <= length vertices)%nat ->
        let buffer :=
          fst (SpriteBatcherData._updateVertices fround element vertices
                 vertexIndex) in
        exists position texcoord color stride,
          SpriteBatcherData._createVertexElements []
          = ([Some position; Some texcoord; Some color], stride)
          /\ semantic position = "POSITION"%string
          /\ semantic texcoord = "TEXCOORD_0"%string
          /\ semantic color = "COLOR_0"%string
          /\ offset position = 0
          /\ offset texcoord
             = offset position + 4 * format_floats (format position)
          /\ offset color
             = offset texcoord + 4 * format_floats (format texcoord)
          /\ stride = offset color + 4 * format_floats (format color)
          /\ buffer !! slot stride position 0%nat = Some (fround x)
          /\ buffer !! slot stride position 1%nat = Some (fround y)
          /\ buffer !! slot stride position 2%nat = Some (fround z)
          /\ buffer !! slot stride texcoord 0%nat = Some (fround ux)
          /\ buffer !! slot stride texcoord 1%nat = Some (fround uy)
          /\ buffer !! slot stride color 0%nat = Some (fround r)
          /\ buffer !! slot stride color 1%nat = Some (fround g)
          /\ buffer !! slot stride color 2%nat = Some (fround b)
          /\ buffer !! slot stride color 3%nat = Some (fround a)).
Proof.
  intros slot. split.
  - intros element Hp Hu Hle Hfit buffer. subst buffer.
    eexists _, _, _. split; [reflexivity|].
    do 5 (split; [reflexivity|]).
    pose proof (fun c v =>
      mask_vertex_component fround element vertices vertexIndex k _ _ c v
        Hp Hu Hle Hfit) as Hc.
    subst slot. cbn [offset semantic format].
    change (Z.to_nat (20 / 4)) with 5%nat.
    change (Z.to_nat (0 / 4)) with 0%nat.
    change (Z.to_nat (12 / 4)) with 3%nat.
    repeat split.
    + rewrite <- (Hc 0%nat x eq_refl). f_equal. lia.
    + rewrite <- (Hc 1%nat y eq_refl). f_equal. lia.
    + rewrite <- (Hc 2%nat z eq_refl). f_equal. lia.
    + rewrite <- (Hc 3%nat ux eq_refl). f_equal. lia.
    + rewrite <- (Hc 4%nat uy eq_refl). f_equal. lia.
  - intros element r g b a Hp Hu Hcol Hle Hfit buffer. subst buffer.
    eexists _, _, _, _. split; [reflexivity|].
    do 7 (split; [reflexivity|]).
    pose proof (fun c v =>
      sprite_vertex_component fround element vertices vertexIndex k _ _ c v
        Hp Hu Hle Hfit) as Hc.
    rewrite Hcol in Hc.
    subst slot. cbn [offset semantic format].
    change (Z.to_nat (36 / 4)) with 9%nat.
    change (Z.to_nat (0 / 4)) with 0%nat.
    change (Z.to_nat (12 / 4)) with 3%nat.
    change (Z.to_nat (20 / 4)) with 5%nat.
    repeat split.
    + rewrite <- (Hc 0%nat x eq_refl). f_equal. lia.
    + rewrite <- (Hc 1%nat y eq_refl). f_equal. lia.
    + rewrite <- (Hc 2%nat z eq_refl). f_equal. lia.
    + rewrite <- (Hc 3%nat ux eq_refl). f_equal. lia.
    + rewrite <- (Hc 4%nat uy eq_refl). f_equal. lia.
    + rewrite <- (Hc 5%nat r eq_refl). f_equal. lia.
    + rewrite <- (Hc 6%nat g eq_refl). f_equal. lia.
    + rewrite <- (Hc 7%nat b eq_refl). f_equal. lia.
    + rewrite <- (Hc 8%nat a eq_refl). f_equal. lia.
Qed.

Lemma vertex_layout_agrees_witness :
  fst (SpriteBatcherData._updateVertices (fun v => v) (Scene.sprite 1 1)
         (replicate 40 0) 2) !! (2 + 2 * 9 + 5)%nat
  = Some 1.
Proof.
  destruct (vertex_layout_agrees (fun v => v) 2%nat 2%nat 1 1 0 1 1
              (replicate 40 0)) as [_ H].
  destruct (H (Scene.sprite 1 1) 1 1 1 1)
    as (position & texcoord & color & stride & Hcreate & H');
    [reflexivity|reflexivity|reflexivity|cbn; lia|cbn; lia|].
  injection Hcreate as <- <- <- <-.
  destruct H' as (_ & _ & _ & _ & _ & _ & _ & _ & _ & _ & _ & _ & Hr & _).
  exact Hr.
Defined.

(** ** Pointer events on physics colliders *)

Section PointerEmitter.
Import PointerCallbackType PointerPhysicsEventEmitter.

Variable value : PointerCallbackType.t -> Z.
Variable Color : Z.
Variable lt : float -> float -> bool.
Variable add : float -> float -> float.
Variable scripts : Entity -> list Script.t.
Variable raycast : nat -> Camera.t -> Pointer.t -> option Entity.

Lemma receivers_app c l1 l2 :
  receivers c (l1 ++ l2) = receivers c l1 ++ receivers c l2.
Proof. unfold receivers. by rewrite filter_app, fmap_app. Qed.

Lemma receivers_invoke c c' s d :
  receivers c (invoke value c' s d)
  = if decide (c' = c) then if overrides value c s then [s] else []
    else [].
Proof.
  unfold receivers, invoke, overrides.
  case_decide as Hc; [subst c'|].
  - destruct (JS.truthy _); [|done].
    rewrite filter_cons. cbn. by case_decide.
  - destruct (JS.truthy _); [|done].
    rewrite filter_cons. cbn. by case_decide.
Qed.

Lemma receivers_forEach c e fn :
  receivers c (forEach scripts e fn)
  = scripts e ≫= (fun s => receivers c (fn s)).
Proof.
  unfold forEach. induction (scripts e) as [|s ss IH]; [done|].
  by rewrite !bind_cons, receivers_app, IH.
Qed.

Lemma bind_singleton_filter (P : Script.t -> bool) (ss : list Script.t) :
  ss ≫= (fun s => if P s then [s] else [])
  = filter (fun s => P s = true) ss.
Proof.
  induction ss as [|s ss IH]; [done|].
  rewrite bind_cons, filter_cons, IH.
  destruct (P s) eqn:E; case_decide; done.
Qed.

Lemma bind_nil_const (ss : list Script.t) :
  ss ≫= (fun _ => @nil Script.t) = [].
Proof. induction ss; done. Qed.

Lemma receivers_updateRaycast c r p this :
  c <> onPointerEnter -> c <> onPointerExit ->
  receivers c (_updateRaycast value scripts r p this).2 = [].
Proof.
  intros H1 H2. unfold _updateRaycast. case_decide; [|done]. cbn [snd].
  rewrite receivers_app.
  assert (Hx : forall e c', c' <> c ->
    receivers c (forEach scripts e (fun s =>
      invoke value c' s (_createEventData p e e))) = []).
  { intros e c' Hc. rewrite receivers_forEach.
    erewrite list_bind_ext; [apply bind_nil_const| |done].
    intros s. rewrite receivers_invoke. by case_decide. }
  destruct (_enteredEntity this), r; rewrite ?Hx; done.
Qed.

Lemma updateRaycast_entered r p this :
  _enteredEntity (_updateRaycast value scripts r p this).1 = r
  /\ _pressedEntity (_updateRaycast value scripts r p this).1
     = _pressedEntity this
  /\ _draggedEntity (_updateRaycast value scripts r p this).1
     = _draggedEntity this.
Proof.
  unfold _updateRaycast. case_decide as H; cbn; [done|].
  by split.
Qed.

Lemma scenes_loop_defined pointer scenes r :
  scenes_loop Color lt add raycast pointer scenes = Some r ->
  r <> Ref.undefined.
Proof.
  induction scenes as [|s ss IH]; [done|]. cbn.
  destruct (_ || _); [done|].
  destruct (cameras_loop _ _ _ _ _ _ _) as [r'|] eqn:E; [|done].
  intros [= <-]. clear IH.
  induction (reverse _) as [|c cs IHc]; [done|]. cbn in E.
  repeat case_match; simplify_eq; auto.
Qed.

Lemma cameras_loop_app physics pointer l1 l2 :
  cameras_loop Color lt add raycast physics pointer (l1 ++ l2)
  = match cameras_loop Color lt add raycast physics pointer l1 with
    | Some r => Some r
    | None => cameras_loop Color lt add raycast physics pointer l2
    end.
Proof.
  induction l1 as [|c l1 IH]; [done|]. cbn.
  repeat case_match; done.
Qed.

Lemma scenes_loop_app pointer l1 l2 :
  scenes_loop Color lt add raycast pointer (l1 ++ l2)
  = match scenes_loop Color lt add raycast pointer l1 with
    | Some r => Some r
    | None => scenes_loop Color lt add raycast pointer l2
    end.
Proof.
  induction l1 as [|s l1 IH]; [done|]. cbn.
  repeat case_match; done.
Qed.

Lemma cameras_loop_filter physics pointer cameras :
  cameras_loop Color lt add raycast physics pointer
    (filter (fun c => eligible lt add pointer c = true) cameras)
  = cameras_loop Color lt add raycast physics pointer cameras.
Proof.
  induction cameras as [|c cs IH]; [done|].
  rewrite filter_cons.
  destruct (eligible lt add pointer c) eqn:E; case_decide; try done.
  - cbn [cameras_loop]. by rewrite IH.
  - rewrite IH. cbn [cameras_loop]. unfold eligible in E.
    destruct (bool_decide _); [done|].
    destruct (outside _ _ _ _); [done|]. done.
Qed.

Lemma cameras_loop_transparent physics pointer cameras :
  Forall (transparent Color lt add raycast physics pointer) cameras ->
  cameras_loop Color lt add raycast physics pointer cameras = None.
Proof.
  induction 1 as [|c cs Hc _ IH]; [done|]. cbn [cameras_loop].
  unfold transparent, eligible, decides in Hc.
  destruct (bool_decide _); [done|].
  destruct (outside _ _ _ _); [done|].
  destruct Hc as [Hc|Hc]; [done|].
  destruct (raycast _ _ _); [done|].
  destruct (JS.truthy _); done.
Qed.

Lemma scenes_loop_see_through pointer scenes :
  Forall (see_through Color lt add raycast pointer) scenes ->
  scenes_loop Color lt add raycast pointer scenes = None.
Proof.
  induction 1 as [|s ss Hs _ IH]; [done|]. cbn [scenes_loop].
  destruct Hs as [Hs|Hs].
  - unfold live in Hs.
    destruct (InputScene.isActive s), (InputScene.destroyed s); done.
  - rewrite cameras_loop_transparent; [by destruct (_ || _)|].
    by apply Forall_reverse.
Qed.

Lemma Forall_forEach (P : ScriptCall -> Prop) e fn :
  (forall s, s ∈ scripts e -> Forall P (fn s)) ->
  Forall P (forEach scripts e fn).
Proof.
  intros H. unfold forEach. apply Forall_bind, Forall_forall. done.
Qed.

Lemma Forall_invoke (P : ScriptCall -> Prop) c s d :
  (overrides value c s = true -> P (mkScriptCall c s d)) ->
  Forall P (invoke value c s d).
Proof.
  intros H. unfold invoke. unfold overrides in H.
  destruct (JS.truthy _); [|done]. constructor; auto.
Qed.

End PointerEmitter.

Section PointerPress.
Import PointerCallbackType PointerPhysicsEventEmitter.

Variable value : PointerCallbackType.t -> Z.
Variable scripts : Entity -> list Script.t.

Lemma receivers_forEach_ext c e fn g :
  (forall s, receivers c (fn s) = g s) ->
  receivers c (forEach scripts e fn) = scripts e ≫= g.
Proof.
  intros H. rewrite receivers_forEach.
  by apply list_bind_ext.
Qed.

Lemma receivers_click_processDown pointer this :
  receivers onPointerClick (_processDown value scripts pointer this).2
  = [].
Proof.
  unfold _processDown. destruct (_enteredEntity this) as [| |e]; try done.
  cbn [snd]. erewrite receivers_forEach_ext; [apply bind_nil_const|].
  intros s. by rewrite receivers_app, !receivers_invoke.
Qed.

Lemma receivers_click_processUp pointer this :
  receivers onPointerClick (_processUp value scripts pointer this).2
  = match _enteredEntity this with
    | Ref.object e =>
        if bool_decide (_pressedEntity this = Ref.object e)
        then filter (fun s => overrides value onPointerClick s = true)
               (scripts e)
        else []
    | _ => []
    end.
Proof.
  assert (Hend : forall d,
    receivers onPointerClick (forEach scripts d (fun s =>
      invoke value onPointerEndDrag s
        (_createEventData (Some pointer) d d))) = []).
  { intros d. erewrite receivers_forEach_ext; [apply bind_nil_const|].
    intros s. by rewrite receivers_invoke. }
  unfold _processUp.
  destruct (_enteredEntity this) as [| |e] eqn:He;
    destruct (_draggedEntity this) as [| |d] eqn:Hd; cbn [snd fst];
    rewrite ?receivers_app, ?Hend, ?app_nil_r; try done.
  all: destruct (bool_decide _).
  all: try (erewrite receivers_forEach_ext;
            [apply bind_singleton_filter|];
            intros s; rewrite !receivers_app, !receivers_invoke;
            repeat case_decide; try done;
            cbn; by rewrite app_nil_r).
  all: erewrite receivers_forEach_ext; [apply bind_nil_const|];
       intros s; by rewrite !receivers_app, !receivers_invoke.
Qed.

Lemma processDown_state pointer this :
  (_processDown value scripts pointer this).1
  = mk (_enteredEntity this) (_enteredEntity this) (_enteredEntity this).
Proof. unfold _processDown. by destruct (_enteredEntity this). Qed.

Lemma processUp_state pointer this :
  _enteredEntity (_processUp value scripts pointer this).1
  = _enteredEntity this
  /\ _pressedEntity (_processUp value scripts pointer this).1 = Ref.null
  /\ Ref.truthy (_draggedEntity (_processUp value scripts pointer this).1)
     = false.
Proof.
  unfold _processUp. destruct (_draggedEntity this) eqn:E; cbn; by rewrite ?E.
Qed.

Lemma processLeave_state pointer this :
  Ref.truthy (_enteredEntity (_processLeave value scripts pointer this).1)
  = false
  /\ _pressedEntity (_processLeave value scripts pointer this).1 = Ref.null
  /\ Ref.truthy
       (_draggedEntity (_processLeave value scripts pointer this).1)
     = false.
Proof.
  unfold _processLeave.
  destruct this as [[| |e] p [| |d]]; cbn; done.
Qed.

Lemma processDrag_state pointer this :
  (_processDrag value scripts pointer this).1 = this.
Proof. unfold _processDrag. by destruct (_pressedEntity this). Qed.

End PointerPress.

(** X16.  A click needs the press and the release on the same entity:
    after [_processDown], a change of the entered entity to [r] and
    [_processUp], [onPointerClick] has been called exactly on the scripts
    overriding it of the entity entered at the press, and only when [r] is
    still that entity; afterwards nothing is pressed or dragged. *)
Theorem click_needs_same_target value scripts pointer pointer' r this :
  let down := PointerPhysicsEventEmitter._processDown value scripts
                pointer this in
  let move := PointerPhysicsEventEmitter._updateRaycast value scripts r
                None down.1 in
  let up := PointerPhysicsEventEmitter._processUp value scripts pointer'
              move.1 in
  PointerPhysicsEventEmitter.receivers PointerCallbackType.onPointerClick
    (down.2 ++ move.2 ++ up.2)
  = match PointerPhysicsEventEmitter._enteredEntity this with
    | Ref.object a =>
        if decide (r = Ref.object a)
        then filter
               (fun s => PointerPhysicsEventEmitter.overrides value
                           PointerCallbackType.onPointerClick s = true)
               (scripts a)
        else []
    | _ => []
    end
  /\ PointerPhysicsEventEmitter._enteredEntity up.1 = r
  /\ PointerPhysicsEventEmitter._pressedEntity up.1 = Ref.null
  /\ Ref.truthy (PointerPhysicsEventEmitter._draggedEntity up.1) = false.
Proof.
  intros down move up.
  destruct (updateRaycast_entered value scripts r None down.1)
    as (He & Hp & Hd). fold move in He, Hp, Hd.
  destruct (processUp_state value scripts pointer' move.1)
    as (He' & Hp' & Hd'). fold up in He', Hp', Hd'.
  split; [|by rewrite He', He].
  rewrite !receivers_app. unfold down at 1.
  rewrite receivers_click_processDown. unfold move at 1.
  rewrite receivers_updateRaycast by done. unfold up.
  rewrite receivers_click_processUp, He, Hp. unfold down.
  rewrite processDown_state. cbn.
  destruct r as [| |b], (PointerPhysicsEventEmitter._enteredEntity this)
    as [| |a]; try done;
    try case_bool_decide; try case_decide; by simplify_eq.
Qed.

Section PointerRuns.
Import PointerCallbackType PointerPhysicsEventEmitter.

Variable value : PointerCallbackType.t -> Z.
Variable Color : Z.
Variable lt : float -> float -> bool.
Variable add : float -> float -> float.
Variable scripts : Entity -> list Script.t.
Variable raycast : nat -> Camera.t -> Pointer.t -> option Entity.

Lemma processRaycast_state scenes pointer this :
  let next :=
    (_processRaycast value Color lt add scripts raycast scenes pointer
       this).1 in
  _enteredEntity next <> Ref.undefined
  /\ _pressedEntity next = _pressedEntity this
  /\ _draggedEntity next = _draggedEntity this.
Proof.
  unfold _processRaycast.
  destruct (scenes_loop _ _ _ _ _ _) as [r|] eqn:E; cbn zeta.
  - destruct (updateRaycast_entered value scripts r None this)
      as (-> & -> & ->).
    split; [|done]. by eapply scenes_loop_defined.
  - destruct (updateRaycast_entered value scripts Ref.null None this)
      as (-> & -> & ->). done.
Qed.

Lemma step_drag_follows_press i this :
  i <> Dispose ->
  _pressedEntity this = _draggedEntity this
  \/ (_pressedEntity this = Ref.null
      /\ Ref.truthy (_draggedEntity this) = false) ->
  let next := (step value Color lt add scripts raycast i this).1 in
  _pressedEntity next = _draggedEntity next
  \/ (_pressedEntity next = Ref.null
      /\ Ref.truthy (_draggedEntity next) = false).
Proof.
  intros Hi H. destruct i as [scenes p|p|p|p|p|]; cbn [step]; [| | | | |done].
  - destruct (processRaycast_state scenes p this) as (_ & -> & ->). done.
  - by rewrite processDrag_state.
  - rewrite processDown_state. by left.
  - right. by destruct (processUp_state value scripts p this) as (_ & ? & ?).
  - right.
    by destruct (processLeave_state value scripts p this) as (_ & ? & ?).
Qed.

Lemma run_drag_follows_press inputs this :
  Forall (fun i => i <> Dispose) inputs ->
  _pressedEntity this = _draggedEntity this
  \/ (_pressedEntity this = Ref.null
      /\ Ref.truthy (_draggedEntity this) = false) ->
  let final := (run value Color lt add scripts raycast inputs this).1 in
  _pressedEntity final = _draggedEntity final
  \/ (_pressedEntity final = Ref.null
      /\ Ref.truthy (_draggedEntity final) = false).
Proof.
  intros Hi. revert this.
  induction Hi as [|i inputs Hi _ IH]; intros this H; [done|].
  cbn [run].
  pose proof (step_drag_follows_press i this Hi H) as Hs.
  destruct (step _ _ _ _ _ _ i this) as [s calls].
  specialize (IH s Hs).
  by destruct (run _ _ _ _ _ _ inputs s) as [s' more].
Qed.

End PointerRuns.

(** X17.  As long as [_dispose] is not called, the pressed and the dragged
    entity are the same: in the state reached from a new emitter by any
    sequence of the other methods, if either [_pressedEntity] or
    [_draggedEntity] is an entity then the two fields are equal, so
    [onPointerDrag] and [onPointerEndDrag] go to the same entity. *)
Theorem pressed_entity_is_dragged value Color lt add scripts raycast
    inputs :
  Forall (fun i => i <> PointerPhysicsEventEmitter.Dispose) inputs ->
  let final :=
    (PointerPhysicsEventEmitter.run value Color lt add scripts raycast
       inputs PointerPhysicsEventEmitter.create).1 in
  PointerPhysicsEventEmitter.is_entity
    (PointerPhysicsEventEmitter._pressedEntity final)
  \/ PointerPhysicsEventEmitter.is_entity
       (PointerPhysicsEventEmitter._draggedEntity final) ->
  PointerPhysicsEventEmitter._pressedEntity final
  = PointerPhysicsEventEmitter._draggedEntity final.
Proof.
  intros Hi final H.
  destruct (run_drag_follows_press value Color lt add scripts raycast
              inputs PointerPhysicsEventEmitter.create Hi)
    as [Heq|[Hp Hd]]; [by left|done|].
  fold final in Hp, Hd. unfold PointerPhysicsEventEmitter.is_entity in H.
  rewrite Hp, Hd in H. by destruct H.
Qed.

Lemma pressed_entity_is_dragged_witness :
  let final :=
    (PointerPhysicsEventEmitter.run PointerWorld.value PointerWorld.Color
       PointerWorld.lt PointerWorld.add PointerWorld.scripts
       PointerWorld.raycast
       [PointerPhysicsEventEmitter.Raycast
          [PointerWorld.scene [PointerWorld.camera 0 1]]
          (PointerWorld.pointer 0);
        PointerPhysicsEventEmitter.Down (PointerWorld.pointer 0);
        PointerPhysicsEventEmitter.Raycast
          [PointerWorld.scene [PointerWorld.camera 0 1]]
          (PointerWorld.pointer 1);
        PointerPhysicsEventEmitter.Drag (PointerWorld.pointer 1)]
       PointerPhysicsEventEmitter.create).1 in
  PointerPhysicsEventEmitter._pressedEntity final = Ref.object 1
  /\ PointerPhysicsEventEmitter._pressedEntity final
     = PointerPhysicsEventEmitter._draggedEntity final.
Proof.
  split; [reflexivity|].
  apply (pressed_entity_is_dragged PointerWorld.value PointerWorld.Color
           PointerWorld.lt PointerWorld.add PointerWorld.scripts
           PointerWorld.raycast).
  - repeat constructor; discriminate.
  - left. reflexivity.
Defined.

(** X18.  [_dispose] clears the entered and the dragged entity but not
    the pressed one: after it [_processDrag] still calls [onPointerDrag]
    on the scripts of the entity pressed before, while [_processUp] and
    [_processLeave] call nothing (no [onPointerEndDrag] follows) and
    leave all three fields [null]. *)
Theorem dispose_keeps_pressed_entity value scripts pointer this :
  let disposed := PointerPhysicsEventEmitter._dispose this in
  PointerPhysicsEventEmitter._processDrag value scripts pointer disposed
  = (disposed,
     (PointerPhysicsEventEmitter._processDrag value scripts pointer
        this).2)
  /\ PointerPhysicsEventEmitter._processUp value scripts pointer disposed
     = (PointerPhysicsEventEmitter.mk Ref.null Ref.null Ref.null, [])
  /\ PointerPhysicsEventEmitter._processLeave value scripts pointer
       disposed
     = (PointerPhysicsEventEmitter.mk Ref.null Ref.null Ref.null, []).
Proof.
  destruct this as [e p d]. cbn. split; [by destruct p|done].
Qed.

Section PointerCalls.
Import PointerCallbackType PointerPhysicsEventEmitter.

Variable value : PointerCallbackType.t -> Z.
Variable Color : Z.
Variable lt : float -> float -> bool.
Variable add : float -> float -> float.
Variable scripts : Entity -> list Script.t.
Variable raycast : nat -> Camera.t -> Pointer.t -> option Entity.

Lemma updateRaycast_calls r p this :
  Forall (fun call =>
      PointerEventData.pointer (eventData call) = p
      /\ PointerEventData.target (eventData call)
         = PointerEventData.currentTarget (eventData call)
      /\ script call ∈ scripts (PointerEventData.target (eventData call))
      /\ overrides value (callback call) (script call) = true
      /\ (callback call = onPointerExit
          /\ _enteredEntity this
             = Ref.object (PointerEventData.target (eventData call))
          \/ callback call = onPointerEnter
             /\ r = Ref.object (PointerEventData.target (eventData call))))
    (_updateRaycast value scripts r p this).2.
Proof.
  unfold _updateRaycast. case_decide; [|done]. cbn [snd].
  apply Forall_app. split.
  - destruct (_enteredEntity this) as [| |e]; try done.
    apply Forall_forEach. intros s Hs. apply Forall_invoke. intros Ho.
    cbn. auto 10.
  - destruct r as [| |e]; try done.
    apply Forall_forEach. intros s Hs. apply Forall_invoke. intros Ho.
    cbn. auto 10.
Qed.

Lemma updateRaycast_again r p this :
  _updateRaycast value scripts r p (_updateRaycast value scripts r p this).1
  = ((_updateRaycast value scripts r p this).1, []).
Proof.
  destruct (updateRaycast_entered value scripts r p this) as (He & _).
  unfold _updateRaycast at 1. rewrite He. by case_decide.
Qed.

Lemma scenes_loop_prune pointer scenes :
  scenes_loop Color lt add raycast pointer
    (reverse (prune lt add pointer scenes))
  = scenes_loop Color lt add raycast pointer (reverse scenes).
Proof.
  unfold prune. rewrite <- fmap_reverse, <- filter_reverse.
  induction (reverse scenes) as [|s ss IH]; [done|].
  rewrite filter_cons.
  destruct (live s) eqn:Hl; case_decide; try done;
    cbn [fmap list_fmap scenes_loop InputScene.isActive
         InputScene.destroyed InputScene._activeCameras InputScene.physics];
    rewrite IH; unfold live in Hl;
    destruct (InputScene.isActive s), (InputScene.destroyed s);
    try done; cbn [negb orb].
  by rewrite <- filter_reverse, cameras_loop_filter.
Qed.

Lemma scenes_loop_decisive pointer below scene above under camera over r :
  Forall (see_through Color lt add raycast pointer) above ->
  live scene = true ->
  InputScene._activeCameras scene = under ++ camera :: over ->
  Forall (transparent Color lt add raycast (InputScene.physics scene)
            pointer) over ->
  eligible lt add pointer camera = true ->
  decides Color raycast (InputScene.physics scene) pointer camera
  = Some r ->
  scenes_loop Color lt add raycast pointer
    (reverse (below ++ scene :: above))
  = Some r.
Proof.
  intros Habove Hlive Hcams Hover Hel Hdec.
  rewrite reverse_app, reverse_cons, <- app_assoc, scenes_loop_app.
  rewrite scenes_loop_see_through by by apply Forall_reverse.
  cbn [app scenes_loop]. unfold live in Hlive.
  destruct (InputScene.isActive scene), (InputScene.destroyed scene);
    try done. cbn [negb orb].
  rewrite Hcams, reverse_app, reverse_cons, <- app_assoc, cameras_loop_app.
  rewrite cameras_loop_transparent by by apply Forall_reverse.
  cbn [app cameras_loop]. unfold eligible in Hel. unfold decides in Hdec.
  destruct (bool_decide _); [done|].
  destruct (outside _ _ _ _); [done|].
  destruct (raycast _ _ _); [by rewrite Hdec|].
  destruct (JS.truthy _); [by rewrite Hdec|done].
Qed.

End PointerCalls.

(** X19.  Every script call the emitter makes is a call of a script of the
    target entity whose [_pointerOverrideFlag] has the bit of the callback,
    with the target as current target.  The calls made by
    [_processRaycast] carry no pointer ([null]); the calls made by
    [_processDrag], [_processDown], [_processUp] and [_processLeave]
    carry the pointer passed to the method. *)
Theorem script_calls_well_formed value Color lt add scripts raycast i
    this :
  Forall (fun call =>
      PointerEventData.pointer (eventData call)
      = match i with
        | PointerPhysicsEventEmitter.Raycast _ _
        | PointerPhysicsEventEmitter.Dispose => None
        | PointerPhysicsEventEmitter.Drag p
        | PointerPhysicsEventEmitter.Down p
        | PointerPhysicsEventEmitter.Up p
        | PointerPhysicsEventEmitter.Leave p => Some p
        end
      /\ PointerEventData.target (eventData call)
         = PointerEventData.currentTarget (eventData call)
      /\ script call ∈ scripts (PointerEventData.target (eventData call))
      /\ PointerPhysicsEventEmitter.overrides value (callback call)
           (script call) = true)
    (PointerPhysicsEventEmitter.step value Color lt add scripts raycast i
       this).2.
Proof.
  destruct i as [scenes p|p|p|p|p|]; cbn [PointerPhysicsEventEmitter.step].
  - unfold PointerPhysicsEventEmitter._processRaycast.
    destruct (PointerPhysicsEventEmitter.scenes_loop _ _ _ _ _ _);
      (eapply Forall_impl; [apply updateRaycast_calls|]);
      cbn beta; intros call (? & ? & ? & ? & _); done.
  - unfold PointerPhysicsEventEmitter._processDrag.
    destruct (PointerPhysicsEventEmitter._pressedEntity this); try done.
    apply Forall_forEach. intros s Hs. by apply Forall_invoke.
  - unfold PointerPhysicsEventEmitter._processDown.
    destruct (PointerPhysicsEventEmitter._enteredEntity this); try done.
    apply Forall_forEach. intros s Hs.
    apply Forall_app; split; by apply Forall_invoke.
  - unfold PointerPhysicsEventEmitter._processUp.
    assert (Hups : forall e b, Forall (fun call =>
        PointerEventData.pointer (eventData call) = Some p
        /\ PointerEventData.target (eventData call)
           = PointerEventData.currentTarget (eventData call)
        /\ script call
           ∈ scripts (PointerEventData.target (eventData call))
        /\ PointerPhysicsEventEmitter.overrides value (callback call)
             (script call) = true)
      (PointerPhysicsEventEmitter.forEach scripts e (fun script =>
         PointerPhysicsEventEmitter.invoke value
           PointerCallbackType.onPointerUp script
           (PointerPhysicsEventEmitter._createEventData (Some p) e e)
         ++ (if b : bool
             then PointerPhysicsEventEmitter.invoke value
                    PointerCallbackType.onPointerClick script
                    (PointerPhysicsEventEmitter._createEventData (Some p)
                       e e)
             else [])
         ++ PointerPhysicsEventEmitter.invoke value
              PointerCallbackType.onPointerDrop script
              (PointerPhysicsEventEmitter._createEventData (Some p)
                 e e)))).
    { intros e b. apply Forall_forEach. intros s Hs.
      repeat (apply Forall_app; split); try by apply Forall_invoke.
      destruct b; [by apply Forall_invoke|done]. }
    destruct (PointerPhysicsEventEmitter._enteredEntity this),
             (PointerPhysicsEventEmitter._draggedEntity this);
      cbn [snd]; try done; try apply Hups.
    all: try (apply Forall_app; split; [done || apply Hups|]).
    all: apply Forall_forEach; intros s Hs; by apply Forall_invoke.
  - unfold PointerPhysicsEventEmitter._processLeave.
    destruct this as [[| |e] pr [| |d]]; cbn; try done.
    all: rewrite ?app_nil_r; try apply Forall_app; try split.
    all: apply Forall_forEach; intros s Hs; by apply Forall_invoke.
  - done.
Qed.

(** X20.  [_processRaycast] changes only the entered entity, which is
    never left [undefined]; its [onPointerExit] calls go to the entity
    entered before and its [onPointerEnter] calls to the entity entered
    after; repeating it with the same scenes and pointer calls nothing and
    changes nothing. *)
Theorem processRaycast_enter_exit value Color lt add scripts raycast
    scenes pointer this :
  let result :=
    PointerPhysicsEventEmitter._processRaycast value Color lt add scripts
      raycast scenes pointer this in
  PointerPhysicsEventEmitter._processRaycast value Color lt add scripts
    raycast scenes pointer result.1 = (result.1, [])
  /\ PointerPhysicsEventEmitter._enteredEntity result.1 <> Ref.undefined
  /\ PointerPhysicsEventEmitter._pressedEntity result.1
     = PointerPhysicsEventEmitter._pressedEntity this
  /\ PointerPhysicsEventEmitter._draggedEntity result.1
     = PointerPhysicsEventEmitter._draggedEntity this
  /\ Forall (fun call =>
       callback call = PointerCallbackType.onPointerExit
       /\ PointerPhysicsEventEmitter._enteredEntity this
          = Ref.object (PointerEventData.target (eventData call))
       \/ callback call = PointerCallbackType.onPointerEnter
          /\ PointerPhysicsEventEmitter._enteredEntity result.1
             = Ref.object (PointerEventData.target (eventData call)))
     result.2.
Proof.
  intros result.
  pose proof (processRaycast_state value Color lt add scripts raycast
                scenes pointer this) as (Hu & Hp & Hd).
  fold result in Hu, Hp, Hd.
  split; [|split; [done|split; [done|split; [done|]]]].
  - unfold result, PointerPhysicsEventEmitter._processRaycast.
    destruct (PointerPhysicsEventEmitter.scenes_loop _ _ _ _ _ _);
      apply updateRaycast_again.
  - unfold result, PointerPhysicsEventEmitter._processRaycast.
    destruct (PointerPhysicsEventEmitter.scenes_loop _ _ _ _ _ _) as [r|].
    + destruct (updateRaycast_entered value scripts r None this)
        as (-> & _).
      eapply Forall_impl; [apply updateRaycast_calls|].
      cbn beta. intros call (_ & _ & _ & _ & H). done.
    + destruct (updateRaycast_entered value scripts Ref.null None this)
        as (-> & _).
      eapply Forall_impl; [apply updateRaycast_calls|].
      cbn beta. intros call (_ & _ & _ & _ & H). done.
Qed.

(** X21.  [_processRaycast] ignores inactive and destroyed scenes,
    cameras with a render target and cameras whose pixel viewport does not
    contain the pointer: removing them from its input changes neither the
    resulting state nor the script calls. *)
Theorem processRaycast_ignores_skipped value Color lt add scripts raycast
    scenes pointer this :
  PointerPhysicsEventEmitter._processRaycast value Color lt add scripts
    raycast (PointerPhysicsEventEmitter.prune lt add pointer scenes)
    pointer this
  = PointerPhysicsEventEmitter._processRaycast value Color lt add scripts
      raycast scenes pointer this.
Proof.
  unfold PointerPhysicsEventEmitter._processRaycast.
  by rewrite scenes_loop_prune.
Qed.

(** X22.  The last camera of the last scene that is not skipped and hits
    an entity or clears colour decides: the scenes before that scene and
    the cameras before that camera have no influence on the entered
    entity.  Scenes and cameras after it take no part when they are
    skipped, or hit nothing and do not clear colour. *)
Theorem processRaycast_topmost_decides value Color lt add scripts raycast
    below scene above under camera over r pointer this :
  Forall (PointerPhysicsEventEmitter.see_through Color lt add raycast
            pointer) above ->
  PointerPhysicsEventEmitter.live scene = true ->
  InputScene._activeCameras scene = under ++ camera :: over ->
  Forall (PointerPhysicsEventEmitter.transparent Color lt add raycast
            (InputScene.physics scene) pointer) over ->
  PointerPhysicsEventEmitter.eligible lt add pointer camera = true ->
  PointerPhysicsEventEmitter.decides Color raycast
    (InputScene.physics scene) pointer camera = Some r ->
  PointerPhysicsEventEmitter._processRaycast value Color lt add scripts
    raycast (below ++ scene :: above) pointer this
  = PointerPhysicsEventEmitter._updateRaycast value scripts r None this.
Proof.
  intros Habove Hlive Hcams Hover Hel Hdec.
  unfold PointerPhysicsEventEmitter._processRaycast.
  by erewrite scenes_loop_decisive.
Qed.

Lemma processRaycast_topmost_decides_witness :
  PointerPhysicsEventEmitter._processRaycast PointerWorld.value
    PointerWorld.Color PointerWorld.lt PointerWorld.add
    PointerWorld.scripts PointerWorld.raycast
    ([PointerWorld.scene [PointerWorld.camera 0 0]]
     ++ PointerWorld.scene
          ([PointerWorld.camera 0 0]
           ++ PointerWorld.camera 1 1 :: [PointerWorld.camera 2 0])
        :: [InputScene.mk false false [PointerWorld.camera 0 0] 0])
    (PointerWorld.pointer 0)
    (PointerPhysicsEventEmitter.mk (Ref.object 1) Ref.null Ref.null)
  = (PointerPhysicsEventEmitter.mk Ref.null Ref.null Ref.null,
     [mkScriptCall PointerCallbackType.onPointerExit (Script.mk 10 511)
        (PointerEventData.mk None 1 1)]).
Proof.
  etrans.
  - apply (processRaycast_topmost_decides PointerWorld.value
             PointerWorld.Color PointerWorld.lt PointerWorld.add
             PointerWorld.scripts PointerWorld.raycast
             [PointerWorld.scene [PointerWorld.camera 0 0]]
             (PointerWorld.scene
                ([PointerWorld.camera 0 0]
                 ++ PointerWorld.camera 1 1 :: [PointerWorld.camera 2 0]))
             [InputScene.mk false false [PointerWorld.camera 0 0] 0]
             [PointerWorld.camera 0 0] (PointerWorld.camera 1 1)
             [PointerWorld.camera 2 0] Ref.null).
    + repeat constructor.
    + reflexivity.
    + reflexivity.
    + constructor; [right; reflexivity|constructor].
    + reflexivity.
    + reflexivity.
  - reflexivity.
Defined.

(** ** Text measuring *)

Section TextLayout.
Import Num TextUtils.
Context {N : Num.t}.
Variable _getCharInfo : Z -> CharInfo.
Variable wrapWidth : number.

Lemma push_parallel o c :
  parallel_out o -> parallel_out (_pushCharsToLines o c).
Proof.
  intros (H1 & H2 & H3). unfold parallel_out, parallel. cbn.
  rewrite !length_app, H1, H2. repeat split; try done.
  apply Forall_app. split; [done|]. by constructor.
Qed.

Lemma char_step_parallel char s :
  parallel_out (out s) ->
  parallel_out (out (char_step _getCharInfo wrapWidth char s)).
Proof.
  intros H. unfold char_step.
  repeat (case_match; cbn [out]); auto using push_parallel.
Qed.

Lemma finish_parallel s :
  parallel_out (out s) -> parallel_out (out (finish wrapWidth s)).
Proof.
  intros H. unfold finish.
  repeat (case_match; cbn [out]); auto using push_parallel.
Qed.

Lemma chars_parallel subText s :
  parallel_out (out s) ->
  parallel_out
    (out (foldl (fun s char => char_step _getCharInfo wrapWidth char s)
            s subText)).
Proof.
  revert s. induction subText as [|c cs IH]; intros s H; [done|].
  cbn [foldl]. apply IH. by apply char_step_parallel.
Qed.

Lemma subTexts_parallel subTexts acc :
  parallel_out acc.1 ->
  parallel_out
    (foldl (subText_step _getCharInfo wrapWidth) acc subTexts).1.
Proof.
  revert acc. induction subTexts as [|t ts IH]; intros acc H; [done|].
  cbn [foldl]. apply IH. unfold subText_step. cbn [fst].
  apply finish_parallel, chars_parallel. done.
Qed.

End TextLayout.

(** X23.  The three arrays [measureTextWithWrap] returns run in parallel:
    [lineWidths] and [lineMaxSizes] have one entry per line, every
    [lineMaxSizes] entry has [size = ascent + descent], and in overflow
    mode the height is the line height times the number of lines. *)
Theorem measureTextWithWrap_parallel_arrays `{N : Num.t}
    (_getCharInfo : Z -> TextUtils.CharInfo)
    (measureFont : TextUtils.FontSizeInfo) (_pixelsPerUnit : Num.number)
    (renderer : TextUtils.TextRenderer) :
  let metrics :=
    TextUtils.measureTextWithWrap _getCharInfo measureFont _pixelsPerUnit
      renderer in
  TextUtils.parallel (TextUtils.lines metrics)
    (TextUtils.lineWidths metrics) (TextUtils.lineMaxSizes metrics)
  /\ TextUtils.height metrics
     = if decide (TextUtils.overflowMode renderer = OverflowMode.Overflow)
       then Num.mul (TextUtils.lineHeight metrics)
              (Num.of_nat (length (TextUtils.lines metrics)))
       else Num.mul (TextUtils.renderer_height renderer) _pixelsPerUnit.
Proof.
  unfold TextUtils.measureTextWithWrap.
  pose proof (subTexts_parallel _getCharInfo
    (Num.mul (TextUtils.renderer_width renderer) _pixelsPerUnit)
    (TextUtils.split (TextUtils.text renderer))
    (TextUtils.mkOut [] [] [], Num.zero)) as H.
  destruct (foldl _ _ _) as [o width]. cbn.
  split; [|done]. apply H. by repeat split.
Qed.

Section TextCharacters.
Import Num TextUtils.
Context {N : Num.t}.
Variable _getCharInfo : Z -> CharInfo.
Variable wrapWidth : number.

Hypothesis zero_not_positive : lt zero zero = false.
Hypothesis advance_positive : forall c, positive (xAdvance (_getCharInfo c)).
Hypothesis add_positive :
  forall a b, not_negative a -> positive b -> positive (add a b).

Lemma visible_app s1 s2 : visible (s1 ++ s2) = visible s1 ++ visible s2.
Proof. apply filter_app. Qed.

Lemma visible_space : visible [32] = [].
Proof. done. Qed.

Lemma split_concat text : concat (split text) = unbroken text.
Proof.
  assert (H : forall n text, (length text <= n)%nat ->
    concat (split text) = unbroken text /\ split text <> []).
  { clear text. induction n as [|n IH]; intros [|c text] Hn;
      try done; cbn in Hn; [lia|].
    unfold unbroken. rewrite filter_cons.
    assert (Hrest := IH text ltac:(lia)).
    destruct (decide (c = 13)) as [->|H13].
    { case_decide as Hd; [by destruct Hd|].
      destruct text as [|c' text']; [done|].
      destruct (decide (c' = 10)) as [->|H10].
      - cbn [split]. assert (H' := IH text' ltac:(cbn in Hn; lia)).
        rewrite filter_cons. case_decide as Hd'; [by destruct Hd'|].
        split; [apply H'|done].
      - replace (split (13 :: c' :: text'))
          with ([] :: split (c' :: text')).
        + split; [apply Hrest|done].
        + cbn [split]. destruct c' as [|p|p]; try done.
          do 4 (destruct p; try done). }
    destruct (decide (c = 10)) as [->|H10].
    { case_decide as Hd; [by destruct Hd|]. split; [apply Hrest|done]. }
    case_decide as Hd; [|by destruct Hd].
    replace (split (c :: text))
      with (match split text with
            | l :: ls => (c :: l) :: ls
            | [] => [[c]]
            end).
    - destruct Hrest as [Hc Hne].
      destruct (split text) as [|l ls]; [done|].
      split; [|done]. cbn. f_equal. apply Hc.
    - cbn [split]. destruct c as [|p|p]; try done.
      do 4 (destruct p; try done). }
  by apply (H (length text)).
Qed.

Ltac positivity :=
  first
    [ assumption
    | apply advance_positive
    | apply add_positive; [first [by left | right; positivity]|positivity] ].

Ltac settle := first [by left | right; split; [done|positivity]].

Ltac content H :=
  cbn [out out_lines line word chars _pushCharsToLines merge none];
  rewrite ?concat_app, ?visible_app; cbn [concat];
  rewrite ?visible_app, ?visible_space;
  rewrite <- H; cbn [out out_lines line word chars];
  rewrite ?app_nil_r; rewrite <- ?app_assoc; rewrite ?app_nil_r;
  try reflexivity.

Lemma char_step_kept char s v :
  kept s v ->
  kept (char_step _getCharInfo wrapWidth char s) (v ++ visible [char]).
Proof.
  destruct s as [o cw [lc lw la ld] [wc ww wa wd] nfl].
  intros (Hv & Hl & Hw). unfold kept, settled, positive in *. cbn in Hv, Hl, Hw.
  unfold char_step.
  cbn [out out_lines line word chars charsWidth notFirstLine maxAscent
       maxDescent].
  destruct Hl as [[-> ->]|[Hlc Hlp]]; [|destruct lc as [|l0 lc]; [done|]];
    (destruct Hw as [[-> ->]|[Hwc Hwp]];
       [|destruct wc as [|w0 wc]; [done|]]);
    destruct (Z.eqb_spec char 32) as [->|Hc]; destruct nfl;
    cbn [is_empty andb orb negb];
    repeat (case_match;
            cbn [out out_lines line word chars charsWidth notFirstLine
                 maxAscent maxDescent _pushCharsToLines merge none]);
    try congruence.
  all: split; [content Hv|split; cbn; settle].
Qed.

Lemma finish_kept s v :
  kept s v ->
  visible (concat (out_lines (out (finish wrapWidth s)))) = v.
Proof.
  destruct s as [o cw [lc lw la ld] [wc ww wa wd] nfl].
  intros (Hv & Hl & Hw). unfold kept, settled, positive in *.
  cbn in Hv, Hl, Hw. unfold finish.
  cbn [out out_lines line word chars charsWidth notFirstLine maxAscent
       maxDescent].
  destruct Hl as [[-> ->]|[Hlc Hlp]]; [|destruct lc as [|l0 lc]; [done|]];
    (destruct Hw as [[-> ->]|[Hwc Hwp]];
       [|destruct wc as [|w0 wc]; [done|]]);
    repeat (case_match;
            cbn [out out_lines line word chars charsWidth notFirstLine
                 maxAscent maxDescent _pushCharsToLines merge none] in *);
    try congruence.
  all: try content Hv.
  all: exfalso;
    match goal with
    | H : lt zero ?x = false |- _ =>
        assert (lt zero x = true) by positivity; congruence
    end.
Qed.

Lemma chars_kept subText s v :
  kept s v ->
  kept (foldl (fun s char => char_step _getCharInfo wrapWidth char s)
          s subText)
       (v ++ visible subText).
Proof.
  revert s v. induction subText as [|c cs IH]; intros s v H.
  - cbn. by rewrite app_nil_r.
  - cbn [foldl]. change (c :: cs) with ([c] ++ cs).
    rewrite visible_app, app_assoc. apply IH. by apply char_step_kept.
Qed.

Lemma subTexts_kept subTexts acc :
  visible
    (concat (out_lines
       (foldl (subText_step _getCharInfo wrapWidth) acc subTexts).1))
  = visible (concat (out_lines acc.1)) ++ visible (concat subTexts).
Proof.
  revert acc. induction subTexts as [|t ts IH]; intros acc.
  - cbn. by rewrite app_nil_r.
  - cbn [foldl concat]. rewrite IH, visible_app, app_assoc. f_equal.
    unfold subText_step. cbn [fst].
    apply finish_kept, chars_kept.
    split; [by rewrite !app_nil_r|]. split; by left.
Qed.

End TextCharacters.

(** X24.  With a number arithmetic in which [0 > 0] is false and a sum of
    a non-negative and a positive number is positive, and characters of
    positive advance, [measureTextWithWrap] neither loses nor reorders a
    visible character: the characters other than spaces of the lines, in
    order, are the characters other than spaces, CR and LF of the text. *)
Theorem measureTextWithWrap_keeps_characters `{N : Num.t}
    (_getCharInfo : Z -> TextUtils.CharInfo)
    (measureFont : TextUtils.FontSizeInfo) (_pixelsPerUnit : Num.number)
    (renderer : TextUtils.TextRenderer) :
  Num.lt Num.zero Num.zero = false ->
  (forall c,
     TextUtils.positive (TextUtils.xAdvance (_getCharInfo c))) ->
  (forall a b,
     TextUtils.not_negative a -> TextUtils.positive b ->
     TextUtils.positive (Num.add a b)) ->
  TextUtils.visible
    (concat (TextUtils.lines
       (TextUtils.measureTextWithWrap _getCharInfo measureFont
          _pixelsPerUnit renderer)))
  = TextUtils.visible (TextUtils.unbroken (TextUtils.text renderer)).
Proof.
  intros Hzero Hadv Hadd. unfold TextUtils.measureTextWithWrap.
  pose proof (subTexts_kept _getCharInfo
    (Num.mul (TextUtils.renderer_width renderer) _pixelsPerUnit)
    Hzero Hadv Hadd
    (TextUtils.split (TextUtils.text renderer))
    (TextUtils.mkOut [] [] [], Num.zero)) as H.
  destruct (foldl _ _ _) as [o width].
  cbn [fst TextUtils.lines TextUtils.out_lines concat] in *.
  by rewrite H, split_concat.
Qed.

Section TextFits.
Import Num TextUtils.
Context {N : Num.t}.
Variable _getCharInfo : Z -> CharInfo.
Variable wrapWidth : number.

Hypothesis zero_not_positive : lt zero zero = false.
Hypothesis advance_positive : forall c, positive (xAdvance (_getCharInfo c)).
Hypothesis add_positive :
  forall a b, not_negative a -> positive b -> positive (add a b).
Hypothesis width_is_advance :
  forall c, w (_getCharInfo c) = xAdvance (_getCharInfo c).

Ltac positivity' :=
  first
    [ assumption
    | apply advance_positive
    | apply add_positive;
      [first [by left | right; positivity']|positivity'] ].

Ltac settle' := first [by left | right; split; [done|positivity']].

Ltac contradict_positive :=
  exfalso;
  match goal with
  | H : lt zero ?x = false |- _ =>
      assert (lt zero x = true) by positivity'; congruence
  end.

Ltac fit :=
  unfold fits in *; cbn [length app];
  first [ by left | right; cbn; lia | assumption | by right
        | contradict_positive ].

Ltac fit_all :=
  repeat match goal with
         | |- Forall2 _ (_ ++ _) (_ ++ _) => apply Forall2_app
         | |- Forall2 _ [_] [_] => constructor; [|constructor]
         | |- Forall2 _ _ _ => assumption
         end.

Lemma char_step_fitting char s :
  fitting wrapWidth s ->
  fitting wrapWidth (char_step _getCharInfo wrapWidth char s).
Proof.
  destruct s as [o cw [lc lw la ld] [wc ww wa wd] nfl].
  intros (Ho & Hfl & Hfw & Hl & Hw).
  unfold fitting, settled, positive in *. cbn in Ho, Hfl, Hfw, Hl, Hw.
  unfold char_step. rewrite width_is_advance.
  cbn [out out_lines out_lineWidths line word chars charsWidth
       notFirstLine maxAscent maxDescent].
  destruct Hl as [[-> ->]|[Hlc Hlp]]; [|destruct lc as [|l0 lc]; [done|]];
    (destruct Hw as [[-> ->]|[Hwc Hwp]];
       [|destruct wc as [|w0 wc]; [done|]]);
    destruct (Z.eqb_spec char 32) as [->|Hc]; destruct nfl;
    cbn [is_empty andb orb negb];
    repeat (case_match;
            cbn [out out_lines out_lineWidths line word chars charsWidth
                 notFirstLine maxAscent maxDescent _pushCharsToLines merge
                 none] in * );
    try congruence.
  all: repeat match goal with
              | H : _ && _ = true |- _ => apply andb_true_iff in H as [? ?]
              | H : _ && _ = false |- _ => apply andb_false_iff in H as [?|?]
              end.
  all: try congruence.
  all: split; [fit_all; fit|split; [fit|split; [fit|split; cbn; settle']]].
Qed.

Lemma finish_fitting s :
  fitting wrapWidth s ->
  Forall2 (fits wrapWidth) (out_lines (out (finish wrapWidth s)))
    (out_lineWidths (out (finish wrapWidth s))).
Proof.
  destruct s as [o cw [lc lw la ld] [wc ww wa wd] nfl].
  intros (Ho & Hfl & Hfw & Hl & Hw).
  unfold fitting, settled, positive in *. cbn in Ho, Hfl, Hfw, Hl, Hw.
  unfold finish.
  cbn [out out_lines out_lineWidths line word chars charsWidth
       notFirstLine maxAscent maxDescent].
  destruct Hl as [[-> ->]|[Hlc Hlp]]; [|destruct lc as [|l0 lc]; [done|]];
    (destruct Hw as [[-> ->]|[Hwc Hwp]];
       [|destruct wc as [|w0 wc]; [done|]]);
    repeat (case_match;
            cbn [out out_lines out_lineWidths line word chars charsWidth
                 notFirstLine maxAscent maxDescent _pushCharsToLines merge
                 none] in * );
    try congruence.
  all: fit_all; fit.
Qed.

Lemma chars_fitting subText s :
  fitting wrapWidth s ->
  fitting wrapWidth
    (foldl (fun s char => char_step _getCharInfo wrapWidth char s)
       s subText).
Proof.
  revert s. induction subText as [|c cs IH]; intros s H; [done|].
  cbn [foldl]. by apply IH, char_step_fitting.
Qed.

Lemma subTexts_fitting subTexts acc :
  Forall2 (fits wrapWidth) (out_lines acc.1) (out_lineWidths acc.1) ->
  Forall2 (fits wrapWidth)
    (out_lines (foldl (subText_step _getCharInfo wrapWidth) acc subTexts).1)
    (out_lineWidths
       (foldl (subText_step _getCharInfo wrapWidth) acc subTexts).1).
Proof.
  revert acc. induction subTexts as [|t ts IH]; intros acc H; [done|].
  cbn [foldl]. apply IH. unfold subText_step. cbn [fst].
  apply finish_fitting, chars_fitting.
  split; [done|]. unfold fits, settled. cbn.
  repeat split; try (right; lia); by left.
Qed.

End TextFits.

(** X26.  With the same arithmetic, and characters whose width [w] is
    their advance, every line [measureTextWithWrap] produces is at most
    the wrap width wide ([lineWidth > wrapWidth] is false) unless it holds
    at most one character. *)
Theorem measureTextWithWrap_lines_fit `{N : Num.t}
    (_getCharInfo : Z -> TextUtils.CharInfo)
    (measureFont : TextUtils.FontSizeInfo) (_pixelsPerUnit : Num.number)
    (renderer : TextUtils.TextRenderer) :
  Num.lt Num.zero Num.zero = false ->
  (forall c,
     TextUtils.positive (TextUtils.xAdvance (_getCharInfo c))) ->
  (forall a b,
     TextUtils.not_negative a -> TextUtils.positive b ->
     TextUtils.positive (Num.add a b)) ->
  (forall c,
     TextUtils.w (_getCharInfo c) = TextUtils.xAdvance (_getCharInfo c)) ->
  let metrics :=
    TextUtils.measureTextWithWrap _getCharInfo measureFont _pixelsPerUnit
      renderer in
  Forall2
    (TextUtils.fits
       (Num.mul (TextUtils.renderer_width renderer) _pixelsPerUnit))
    (TextUtils.lines metrics) (TextUtils.lineWidths metrics).
Proof.
  intros Hzero Hadv Hadd Hw. unfold TextUtils.measureTextWithWrap.
  pose proof (subTexts_fitting _getCharInfo
    (Num.mul (TextUtils.renderer_width renderer) _pixelsPerUnit)
    Hzero Hadv Hadd Hw
    (TextUtils.split (TextUtils.text renderer))
    (TextUtils.mkOut [] [] [], Num.zero)) as H.
  destruct (foldl _ _ _) as [o width]. cbn. apply H. constructor.
Qed.

(** The rational instance satisfies the facts on numbers used above. *)
Lemma TextWorld_add_positive (a b : QArith_base.Q) :
  @TextUtils.not_negative TextWorld.numbers a ->
  @TextUtils.positive TextWorld.numbers b ->
  @TextUtils.positive TextWorld.numbers (QArith_base.Qplus a b).
Proof.
  unfold TextUtils.not_negative, TextUtils.positive. cbn.
  assert (Hlt : forall q : QArith_base.Q,
    match QArith_base.Qcompare (QArith_base.Qmake 0 1) q with
    | Lt => true | _ => false end = true <-> QArith_base.Qnum q > 0).
  { intros [n d]. unfold QArith_base.Qcompare. cbn.
    rewrite Z.mul_1_r. destruct n; cbn; split; try done; lia. }
  rewrite !Hlt. intros Ha Hb.
  destruct a as [an ad], b as [bn bd]. cbn in *.
  destruct Ha as [[= -> ->]|Ha]; nia.
Qed.

Lemma measureTextWithWrap_keeps_characters_witness :
  TextUtils.visible
    (concat (TextUtils.lines
       (TextWorld.measureTextWithWrap TextWorld.a_b_nl_c 1)))
  = [97; 98; 99].
Proof.
  etrans.
  - apply (@measureTextWithWrap_keeps_characters TextWorld.numbers
             TextWorld._getCharInfo TextWorld.measureFont
             (QArith_base.Qmake 1 1) (TextWorld.renderer TextWorld.a_b_nl_c 1)).
    + reflexivity.
    + intros c. reflexivity.
    + apply TextWorld_add_positive.
  - reflexivity.
Defined.

Lemma measureTextWithWrap_lines_fit_witness :
  Forall2
    (@TextUtils.fits TextWorld.numbers (QArith_base.Qmake 2 1))
    (TextUtils.lines (TextWorld.measureTextWithWrap TextWorld.ab_cd 2))
    (TextUtils.lineWidths
       (TextWorld.measureTextWithWrap TextWorld.ab_cd 2)).
Proof.
  apply (@measureTextWithWrap_lines_fit TextWorld.numbers
           TextWorld._getCharInfo TextWorld.measureFont
           (QArith_base.Qmake 1 1) (TextWorld.renderer TextWorld.ab_cd 2)).
  - reflexivity.
  - intros c. reflexivity.
  - apply TextWorld_add_positive.
  - intros c. reflexivity.
Defined.

Section TextContinuation.
Import Num TextUtils.
Context {N : Num.t}.
Variable _getCharInfo : Z -> CharInfo.
Variable wrapWidth : number.

Hypothesis zero_not_positive : lt zero zero = false.
Hypothesis advance_positive : forall c, positive (xAdvance (_getCharInfo c)).
Hypothesis add_positive :
  forall a b, not_negative a -> positive b -> positive (add a b).

Lemma char_step_settled char s :
  settled (line s) -> settled (word s) ->
  settled (line (char_step _getCharInfo wrapWidth char s))
  /\ settled (word (char_step _getCharInfo wrapWidth char s)).
Proof.
  intros Hl Hw.
  by destruct (char_step_kept _getCharInfo wrapWidth zero_not_positive
                 advance_positive add_positive char s _
                 (conj eq_refl (conj Hl Hw)))
    as (_ & ? & ?).
Qed.

Lemma Forall_tail_snoc {A} (P : A -> Prop) (new : list A) (x : A) :
  Forall P (tail new) -> P x -> Forall P (tail (new ++ [x])).
Proof.
  destruct new as [|n new]; cbn; [constructor|].
  intros H Hx. apply Forall_app. split; [done|]. by constructor.
Qed.

Lemma Forall_tail_snoc2 {A} (P : A -> Prop) (new : list A) (x y : A) :
  Forall P (tail new) -> P x -> P y -> Forall P (tail (new ++ [x; y])).
Proof.
  intros H Hx Hy. change [x; y] with ([x] ++ [y]). rewrite app_assoc.
  by repeat apply Forall_tail_snoc.
Qed.

Ltac lead :=
  unfold no_leading_space in *; cbn [head app chars] in *;
  first [ assumption | done | congruence
        | intros [= ?]; subst; lia ].

Ltac added :=
  first
    [ assumption
    | apply Forall_tail_snoc2; [assumption|lead|lead]
    | apply Forall_tail_snoc; [assumption|lead]
    | repeat constructor; lead ].

Ltac spaceless :=
  repeat first [ assumption | constructor | apply Forall_app; split ];
  try done.

Lemma char_step_continuing before char s :
  settled (line s) -> settled (word s) ->
  continuing before s ->
  continuing before (char_step _getCharInfo wrapWidth char s).
Proof.
  destruct s as [o cw [lc lw la ld] [wc ww wa wd] nfl].
  intros Hsl Hsw (new & Ho & Hn & Hf & Hl & Hw).
  unfold settled, positive in *. cbn in Ho, Hn, Hf, Hl, Hw, Hsl, Hsw.
  unfold continuing, char_step.
  cbn [out out_lines line word chars charsWidth notFirstLine maxAscent
       maxDescent].
  destruct Hsl as [[-> ->]|[Hlc Hlp]];
    [|destruct lc as [|l0 lc]; [done|]];
    (destruct Hsw as [[-> ->]|[Hwc Hwp]];
       [|destruct wc as [|w0 wc];
          [done|apply Forall_cons in Hw as [Hw0 Hw]]]);
    destruct (Z.eqb_spec char 32) as [->|Hc];
    (destruct nfl; [specialize (Hl eq_refl); clear Hf
                   |specialize (Hf eq_refl); clear Hl; subst new]);
    cbn [is_empty andb orb negb];
    repeat (case_match;
            cbn [out out_lines line word chars charsWidth notFirstLine
                 maxAscent maxDescent _pushCharsToLines merge none]
              in * );
    try congruence;
    cbn [out out_lines line word chars charsWidth notFirstLine
         maxAscent maxDescent _pushCharsToLines merge none];
    rewrite ?Ho, <- ?app_assoc.
  all: eexists; (split; [reflexivity|]).
  all: cbn [app tail].
  all: split; [added|].
  all: split; [done|].
  all: split; [first [by intros [=] | intros _; lead]|].
  all: spaceless.
Qed.

Lemma chars_continuing before subText s :
  settled (line s) -> settled (word s) ->
  continuing before s ->
  let s' := foldl (fun s char => char_step _getCharInfo wrapWidth char s)
              s subText in
  settled (line s') /\ settled (word s') /\ continuing before s'.
Proof.
  revert s. induction subText as [|c cs IH]; intros s Hl Hw H; [done|].
  cbn [foldl]. destruct (char_step_settled c s Hl Hw) as [Hl' Hw'].
  apply IH; try done. by apply char_step_continuing.
Qed.

Lemma finish_continuing before s :
  settled (line s) -> settled (word s) ->
  continuing before s ->
  exists new,
    out_lines (out (finish wrapWidth s)) = before ++ new
    /\ Forall no_leading_space (tail new).
Proof.
  destruct s as [o cw [lc lw la ld] [wc ww wa wd] nfl].
  intros Hsl Hsw (new & Ho & Hn & Hf & Hl & Hw).
  unfold settled, positive in *. cbn in Ho, Hn, Hf, Hl, Hw, Hsl, Hsw.
  unfold finish.
  cbn [out out_lines line word chars charsWidth notFirstLine maxAscent
       maxDescent].
  destruct Hsl as [[-> ->]|[Hlc Hlp]];
    [|destruct lc as [|l0 lc]; [done|]];
    (destruct Hsw as [[-> ->]|[Hwc Hwp]];
       [|destruct wc as [|w0 wc];
          [done|apply Forall_cons in Hw as [Hw0 Hw]]]);
    (destruct nfl; [specialize (Hl eq_refl); clear Hf
                   |specialize (Hf eq_refl); clear Hl; subst new]);
    repeat (case_match;
            cbn [out out_lines line word chars charsWidth notFirstLine
                 maxAscent maxDescent _pushCharsToLines merge none]
              in * );
    try congruence;
    cbn [out out_lines line word chars charsWidth notFirstLine
         maxAscent maxDescent _pushCharsToLines merge none];
    rewrite ?Ho, <- ?app_assoc.
  all: eexists; (split; [reflexivity|]).
  all: cbn [app tail]; added.
Qed.

Lemma subText_step_continuing acc subText :
  exists new,
    out_lines (subText_step _getCharInfo wrapWidth acc subText).1
    = out_lines acc.1 ++ new
    /\ Forall no_leading_space (tail new).
Proof.
  unfold subText_step. cbn [fst].
  assert (Hnone : settled none) by (by left).
  destruct (chars_continuing (out_lines acc.1) subText
              (mkLoop acc.1 acc.2 none none false) Hnone Hnone)
    as (Hl & Hw & Hc).
  { exists []. cbn. rewrite app_nil_r. repeat split; try done.
    all: constructor. }
  by apply finish_continuing.
Qed.

Lemma subTexts_continuing subTexts acc :
  exists groups,
    out_lines (foldl (subText_step _getCharInfo wrapWidth) acc subTexts).1
    = out_lines acc.1 ++ concat groups
    /\ length groups = length subTexts
    /\ Forall (fun g => Forall no_leading_space (tail g)) groups.
Proof.
  revert acc. induction subTexts as [|t ts IH]; intros acc.
  - exists []. cbn. by rewrite app_nil_r.
  - cbn [foldl].
    destruct (IH (subText_step _getCharInfo wrapWidth acc t))
      as (groups & Hg & Hlen & Hall).
    destruct (subText_step_continuing acc t) as (new & Hnew & Hn).
    exists (new :: groups). rewrite Hg, Hnew, <- app_assoc. cbn.
    repeat split; [by rewrite Hlen|]. by constructor.
Qed.

End TextContinuation.



Section TextWithoutWrap.
Import Num TextUtils.
Context {N : Num.t}.
Variable _getCharInfo : Z -> CharInfo.

Hypothesis lt_irreflexive : forall a, lt a a = false.
Hypothesis lt_transfer :
  forall a b c, lt a b = true -> lt a c = false -> lt b c = false.

Lemma raise_dominates (ws : list number) (width : number) (seen : list number) :
  Forall (fun x => lt width x = false) seen ->
  Forall (fun x => lt (foldl raise width ws) x = false) (seen ++ ws).
Proof.
  revert width seen. induction ws as [|y ws IH]; intros width seen H.
  - by rewrite app_nil_r.
  - cbn [foldl]. change (y :: ws) with ([y] ++ ws). rewrite app_assoc.
    apply IH. apply Forall_app. unfold raise. split.
    + destruct (lt width y) eqn:E; [|done].
      eapply Forall_impl; [exact H|]. cbn beta. intros x Hx.
      by eapply lt_transfer.
    + constructor; [|constructor].
      destruct (lt width y) eqn:E; [apply lt_irreflexive|done].
Qed.

Lemma measure_line_size line :
  size (measure_line _getCharInfo line).2
  = add (ascent (measure_line _getCharInfo line).2)
        (descent (measure_line _getCharInfo line).2).
Proof.
  unfold measure_line. by destruct (foldl _ _ _) as [[? ?] ?].
Qed.

End TextWithoutWrap.

(** X27.  [measureTextWithoutWrap] returns the sub-texts of the text as
    its lines, empty ones included, so that the lines put together are the
    text without its line breaks; its three arrays run in parallel; and,
    when [<] is irreflexive and [a < b] with not [a < c] excludes [b < c],
    the width it reports is not less than any line width. *)
Theorem measureTextWithoutWrap_lines `{N : Num.t}
    (_getCharInfo : Z -> TextUtils.CharInfo)
    (measureFont : TextUtils.FontSizeInfo) (_pixelsPerUnit : Num.number)
    (renderer : TextUtils.TextRenderer) :
  (forall a, Num.lt a a = false) ->
  (forall a b c,
     Num.lt a b = true -> Num.lt a c = false -> Num.lt b c = false) ->
  let metrics :=
    TextUtils.measureTextWithoutWrap _getCharInfo measureFont
      _pixelsPerUnit renderer in
  TextUtils.lines metrics = TextUtils.split (TextUtils.text renderer)
  /\ concat (TextUtils.lines metrics)
     = TextUtils.unbroken (TextUtils.text renderer)
  /\ TextUtils.parallel (TextUtils.lines metrics)
       (TextUtils.lineWidths metrics) (TextUtils.lineMaxSizes metrics)
  /\ Forall (fun lineWidth =>
               Num.lt (TextUtils.width metrics) lineWidth = false)
       (TextUtils.lineWidths metrics).
Proof.
  intros Hirr Htrans metrics. unfold metrics, TextUtils.measureTextWithoutWrap.
  cbn [TextUtils.lines TextUtils.lineWidths TextUtils.lineMaxSizes
       TextUtils.width].
  split; [done|]. split; [apply split_concat|]. split.
  - unfold TextUtils.parallel. rewrite !length_fmap.
    split; [done|]. split; [done|].
    apply Forall_fmap, Forall_fmap, Forall_forall. intros line _.
    apply measure_line_size.
  - set (measured := TextUtils.measure_line _getCharInfo
                     <$> TextUtils.split (TextUtils.text renderer)).
    replace (foldl (fun width m => TextUtils.raise width m.1) Num.zero
               measured)
      with (foldl TextUtils.raise Num.zero (fst <$> measured)).
    + exact (raise_dominates Hirr Htrans (fst <$> measured) Num.zero []
               (Forall_nil_2 _)).
    + generalize Num.zero. induction measured as [|m ms IH]; [done|].
      intros z. cbn. apply IH.
Qed.

Lemma TextWorld_lt_spec (a b : QArith_base.Q) :
  @Num.lt TextWorld.numbers a b = true <-> QArith_base.Qlt a b.
Proof.
  cbn. rewrite QArith_base.Qlt_alt.
  by destruct (QArith_base.Qcompare a b).
Qed.

Lemma measureTextWithoutWrap_lines_witness :
  let metrics := TextWorld.measureTextWithoutWrap TextWorld.a_b_nl_c in
  TextUtils.lines metrics = [[97; 32; 98]; [99]]
  /\ Forall (fun lineWidth =>
               @Num.lt TextWorld.numbers (TextUtils.width metrics)
                 lineWidth = false)
       (TextUtils.lineWidths metrics).
Proof.
  destruct (@measureTextWithoutWrap_lines TextWorld.numbers
              TextWorld._getCharInfo TextWorld.measureFont
              (QArith_base.Qmake 1 1)
              (TextWorld.renderer TextWorld.a_b_nl_c 0))
    as (Hlines & _ & _ & Hwidth).
  - intros a. apply not_true_is_false. rewrite TextWorld_lt_spec.
    apply QArith_base.Qlt_irrefl.
  - intros a b c Hab Hac. apply not_true_is_false.
    apply not_true_iff_false in Hac.
    rewrite TextWorld_lt_spec in *. intros Hbc. apply Hac.
    by eapply QArith_base.Qlt_trans.
  - split; [exact Hlines|exact Hwidth].
Defined.

(** ** Primitive meshes *)

Section PrimitiveIndices.
Import PrimitiveMesh.

Variable row : Z -> Z -> Z.

Lemma put_format st vs : format (put st vs).1 = format st.1.
Proof.
  revert st. induction vs as [|v vs IH]; intros [a offset]; [done|].
  cbn [put foldl]. change (foldl _ ?s vs) with (put s vs).
  by rewrite IH.
Qed.

Lemma put_filled total st written vs :
  filled total st written ->
  (length written + length vs <= total)%nat ->
  Forall (fun v => 0 <= v < 2 ^ ModelMesh.bits (format st.1)) vs ->
  filled total (put st vs) (written ++ vs).
Proof.
  revert st written. induction vs as [|v vs IH];
    intros [a offset] written (Hitems & Hoff & Hlen) Htotal Hvs.
  - by rewrite app_nil_r.
  - apply Forall_cons in Hvs as [Hv Hvs]. cbn in Htotal, Hoff, Hitems.
    cbn [put foldl]. change (foldl _ ?s vs) with (put s vs).
    replace (written ++ v :: vs) with ((written ++ [v]) ++ vs)
      by by rewrite <- app_assoc.
    apply IH.
    + unfold filled. cbn [fst snd set items]. rewrite length_app. cbn.
      split; [|split; lia].
      rewrite Hitems, Hoff, Z.mod_small by done.
      rewrite insert_app_r_alt, Nat.sub_diag by lia.
      replace (total - length written)%nat
        with (S (total - (length written + 1))) by lia.
      cbn. by rewrite <- app_assoc.
    + rewrite length_app. cbn. lia.
    + done.
Qed.

Lemma puts_filled {A} (f : A -> list Z) (n : nat) total (l : list A)
    st written :
  filled total st written ->
  (forall x, x ∈ l ->
     length (f x) = n
     /\ Forall (fun v => 0 <= v < 2 ^ ModelMesh.bits (format st.1)) (f x)) ->
  (length written + n * length l <= total)%nat ->
  filled total (foldl (fun st x => put st (f x)) st l)
    (written ++ (l ≫= f))
  /\ format (foldl (fun st x => put st (f x)) st l).1 = format st.1.
Proof.
  revert st written. induction l as [|x l IH]; intros st written H Hf Hn.
  - cbn. by rewrite app_nil_r.
  - cbn [foldl]. rewrite bind_cons, app_assoc.
    destruct (Hf x) as [Hlen Hx]; [apply list_elem_of_here|].
    cbn in Hn.
    destruct (IH (put st (f x)) (written ++ f x)) as [H1 H2].
    + apply put_filled; [done|lia|done].
    + intros y Hy. rewrite put_format.
      apply Hf. by apply list_elem_of_further.
    + rewrite length_app. lia.
    + split; [done|]. by rewrite H2, put_format.
Qed.

Lemma newIndices_filled f length :
  0 <= length ->
  exists a,
    newIndices f length = Done a /\ format a = f
    /\ filled (Z.to_nat length) (a, 0%nat) [].
Proof.
  intros H. unfold newIndices.
  destruct (Z.ltb_spec length 0); [lia|].
  eexists. split; [done|]. split; [done|].
  unfold filled. cbn. rewrite Nat.sub_0_r. repeat split. lia.
Qed.

Lemma allocate_cases elementIndexUint vertexCount length :
  0 <= length ->
  (_uint16VertexLimit < vertexCount /\ elementIndexUint = false
   /\ allocate elementIndexUint vertexCount length = Raise OverLimit)
  \/ exists a,
       allocate elementIndexUint vertexCount length = Done a
       /\ filled (Z.to_nat length) (a, 0%nat) []
       /\ (vertexCount <= 2 ^ 32 ->
           vertexCount <= 2 ^ ModelMesh.bits (format a)).
Proof.
  intros H. unfold allocate.
  destruct (Z.ltb_spec _uint16VertexLimit vertexCount) as [Hv|Hv].
  - destruct elementIndexUint; [right|by left].
    destruct (newIndices_filled ModelMesh.UInt32 length H)
      as (a & -> & Hf & Ha).
    exists a. by rewrite Hf.
  - right.
    destruct (newIndices_filled ModelMesh.UInt16 length H)
      as (a & -> & Hf & Ha).
    exists a. rewrite Hf. split; [done|]. split; [done|].
    unfold _uint16VertexLimit in Hv. intros _.
    change (vertexCount <= 65536). lia.
Qed.

(** The corners of a rectangle of a grid [segments] by [rows], with
    [count = segments + 1] vertices in a row, are vertices of the grid. *)
Lemma rectangle_bounds o segments rows i :
  0 < segments -> 0 <= i ->
  0 <= row i segments < rows ->
  length (rectangle row o segments (segments + 1) i) = 6%nat
  /\ Forall (fun v => 0 <= v < (segments + 1) * (rows + 1))
       (rectangle row o segments (segments + 1) i).
Proof.
  intros Hs Hi Hrow. unfold rectangle.
  assert (0 <= Z.rem i segments < segments) as Hx
    by (apply Z.rem_bound_pos; lia).
  split; [by destruct o|].
  destruct o; cbn [corners]; repeat constructor; nia.
Qed.

Lemma rectangles_filled o segments rows total a :
  0 <= segments -> 0 <= rows ->
  (forall i, 0 <= i < segments * rows -> 0 <= row i segments < rows) ->
  (segments + 1) * (rows + 1) <= 2 ^ ModelMesh.bits (format a) ->
  filled total (a, 0%nat) [] ->
  (6 * Z.to_nat (segments * rows) <= total)%nat ->
  let st := rectangles row o segments (segments + 1) (segments * rows)
              (a, 0%nat) in
  filled total st
    (seqZ 0 (segments * rows)
     ≫= rectangle row o segments (segments + 1))
  /\ format st.1 = format a.
Proof.
  intros Hs Hr Hrow Hbits Hfilled Htotal. unfold rectangles.
  apply (puts_filled _ 6 total _ (a, 0%nat) []); [done| |].
  - intros i Hi. apply elem_of_seqZ in Hi.
    destruct (rectangle_bounds o segments rows i) as [Hlen Hall];
      [nia|lia|apply Hrow; lia|].
    split; [done|]. eapply Forall_impl; [exact Hall|].
    cbn. intros v Hv. lia.
  - rewrite length_seqZ. cbn. lia.
Qed.

Lemma rectangles_length o segments count (l : list Z) :
  length (l ≫= rectangle row o segments count) = (6 * length l)%nat.
Proof.
  induction l as [|i l IH]; [done|].
  rewrite bind_cons, length_app, IH. destruct o; cbn; lia.
Qed.

Lemma rectangles_valid o segments rows :
  0 <= segments -> 0 <= rows ->
  (forall i, 0 <= i < segments * rows -> 0 <= row i segments < rows) ->
  Forall (fun v => 0 <= v < (segments + 1) * (rows + 1))
    (seqZ 0 (segments * rows)
     ≫= rectangle row o segments (segments + 1)).
Proof.
  intros Hs Hr Hrow. apply Forall_bind, Forall_forall. intros i Hi.
  apply elem_of_seqZ in Hi.
  apply rectangle_bounds; [nia|lia|apply Hrow; lia].
Qed.

Lemma filled_full total st written :
  filled total st written -> length written = total ->
  items st.1 = written.
Proof.
  intros (Hitems & _ & _) Hlen.
  by rewrite Hitems, Hlen, Nat.sub_diag, app_nil_r.
Qed.

(** A grid of [segments] by [rows] rectangles: what [createSphere] and
    [createPlane] share. *)
Lemma grid_indices o elementIndexUint segments rows :
  0 < segments -> 0 < rows ->
  (forall i, 0 <= i < segments * rows -> 0 <= row i segments < rows) ->
  (segments + 1) * (rows + 1) <= 2 ^ 32 ->
  match allocate elementIndexUint ((segments + 1) * (rows + 1))
          (segments * rows * 6) with
  | Raise e =>
      e = OverLimit
      /\ _uint16VertexLimit < (segments + 1) * (rows + 1)
      /\ elementIndexUint = false
  | Done a =>
      items (rectangles row o segments (segments + 1) (segments * rows)
               (a, 0%nat)).1
      = seqZ 0 (segments * rows)
        ≫= rectangle row o segments (segments + 1)
  end.
Proof.
  intros Hs Hr Hrow Hmax.
  destruct (allocate_cases elementIndexUint ((segments + 1) * (rows + 1))
              (segments * rows * 6)) as [(Hv & Hu & ->)|(a & -> & Ha & Hb)];
    [nia|done|].
  destruct (rectangles_filled o segments rows _ a ltac:(lia) ltac:(lia)
              Hrow (Hb Hmax) Ha) as [Hfilled _]; [nia|].
  apply (filled_full _ _ _ Hfilled).
  rewrite rectangles_length, length_seqZ. nia.
Qed.

Lemma cap_bounds radialSegments torso i :
  0 <= torso -> 0 <= i < radialSegments ->
  length (cap radialSegments torso i) = 6%nat
  /\ Forall (fun v => 0 <= v < torso + 2 + radialSegments * 2)
       (cap radialSegments torso i).
Proof.
  intros Ht Hi. split; [done|]. unfold cap.
  destruct (Z.eqb_spec i (radialSegments - 1)); repeat constructor; lia.
Qed.

Lemma caps_length radialSegments torso (l : list Z) :
  length (l ≫= cap radialSegments torso) = (6 * length l)%nat.
Proof.
  induction l as [|i l IH]; [done|].
  rewrite bind_cons, length_app, IH. cbn. lia.
Qed.

End PrimitiveIndices.






